(** * splitspeech: segmentation and normalization of a mono waveform

    A shallow embedding of [segment.cpp], [normalize.cpp] and the sample
    conversion of [waveform.cpp], with the properties of the design
    document stated over it.

    Conventions of the embedding:
    - [unsigned] is a [Z] in [[0, 2^32)]; every operation the source does
      in [unsigned] is followed by [wrap32]; [static_cast<int>] is
      [to_int] (two's complement).  [size_t] values are lengths of lists.
    - [float] is IEEE binary32 and [double] is binary64, both as
      [spec_float] with the operations of [SpecFloat] (round to nearest
      even).  Literals are the correctly rounded quotients of integers.
    - a run either returns a value or stops with a [fault]: an integer
      division by zero, an access outside a vector, a conversion whose
      result C++ leaves undefined, or a loop that cannot terminate.
    - [powf] belongs to the C library, not to the repository: it is a
      parameter of the model. *)

From Stdlib Require Import ZArith Lia Bool List.
From Stdlib Require Import Floats.SpecFloat.
From stdpp Require Import base list.

Local Open Scope Z_scope.

(** ** Outcomes of a run *)

Inductive fault : Type :=
  | DivisionByZero
  | OutOfBounds
  | UndefinedConversion
  | NoProgress.

Inductive outcome (A : Type) : Type :=
  | Ok (a : A)
  | Fault (f : fault).

Arguments Ok {A} a.
Arguments Fault {A} f.

Definition obind {A B : Type} (m : outcome A) (k : A -> outcome B) : outcome B :=
  match m with
  | Ok a => k a
  | Fault f => Fault f
  end.

Notation "'do' x <- m ; k" := (obind m (fun x => k))
  (at level 10, x name, m at level 100, k at level 200).
Notation "'do' ' p <- m ; k" := (obind m (fun x => let 'p := x in k))
  (at level 10, p pattern, m at level 100, k at level 200).

(** ** Machine integers *)

Definition wrap32 (z : Z) : Z := z mod 2 ^ 32.

Definition to_int (z : Z) : Z :=
  let r := z mod 2 ^ 32 in
  if r <? 2 ^ 31 then r else r - 2 ^ 32.

(** [v[i]] on a [std::vector]: no bounds check in the source, so an index
    outside the vector is a fault here. *)
Definition vec_get {A : Type} (v : list A) (i : Z) : outcome A :=
  if i <? 0 then Fault OutOfBounds
  else match v !! Z.to_nat i with
       | Some x => Ok x
       | None => Fault OutOfBounds
       end.

Definition vec_set {A : Type} (v : list A) (i : Z) (x : A) : outcome (list A) :=
  if (0 <=? i) && (i <? Z.of_nat (length v))
  then Ok (<[Z.to_nat i := x]> v)
  else Fault OutOfBounds.

(** ** Floating point *)

Definition float : Type := spec_float.

(** Truncation toward zero of a finite value; [None] for NaN and the
    infinities. *)
Definition trunc (x : float) : option Z :=
  match x with
  | S754_zero _ => Some 0
  | S754_finite s m e =>
      let a := if 0 <=? e then Z.pos m * 2 ^ e else Z.pos m / 2 ^ (- e) in
      Some (if s then - a else a)
  | _ => None
  end.

(** [static_cast<unsigned>(x)]: defined when the truncated value fits. *)
Definition cast_unsigned (x : float) : outcome Z :=
  match trunc x with
  | Some z => if (0 <=? z) && (z <? 2 ^ 32) then Ok z else Fault UndefinedConversion
  | None => Fault UndefinedConversion
  end.

(** [static_cast<int16_t>(x)]. *)
Definition cast_int16 (x : float) : outcome Z :=
  match trunc x with
  | Some z => if (- 32768 <=? z) && (z <=? 32767) then Ok z else Fault UndefinedConversion
  | None => Fault UndefinedConversion
  end.

Module F32.
Definition prec : Z := 24.
Definition emax : Z := 128.
Definition add : float -> float -> float := SFadd prec emax.
Definition sub : float -> float -> float := SFsub prec emax.
Definition mul : float -> float -> float := SFmul prec emax.
Definition div : float -> float -> float := SFdiv prec emax.
Definition sqrt : float -> float := SFsqrt prec emax.
Definition abs : float -> float := SFabs.
Definition opp : float -> float := SFopp.
Definition ltb : float -> float -> bool := SFltb.
Definition leb : float -> float -> bool := SFleb.
(** conversion of an integer, rounded to nearest *)
Definition of_Z (z : Z) : float := binary_normalize prec emax z 0 false.
Definition valid : float -> bool := valid_binary prec emax.
Definition zero : float := S754_zero false.
Definition FLT_MAX : float := SFmax_float prec emax.
End F32.

Module F64.
Definition prec : Z := 53.
Definition emax : Z := 1024.
Definition mul : float -> float -> float := SFmul prec emax.
Definition div : float -> float -> float := SFdiv prec emax.
Definition of_Z (z : Z) : float := binary_normalize prec emax z 0 false.
End F64.

(** The literals of the source. *)
Definition c_0_05 : float := Eval vm_compute in F64.div (F64.of_Z 5) (F64.of_Z 100).
Definition c_0_05f : float := Eval vm_compute in F32.div (F32.of_Z 5) (F32.of_Z 100).
Definition c_0_01f : float := Eval vm_compute in F32.div (F32.of_Z 1) (F32.of_Z 100).
Definition c_0_02f : float := Eval vm_compute in F32.div (F32.of_Z 2) (F32.of_Z 100).
Definition c_1_05f : float := Eval vm_compute in F32.div (F32.of_Z 105) (F32.of_Z 100).
Definition c_1f : float := Eval vm_compute in F32.of_Z 1.
Definition c_2f : float := Eval vm_compute in F32.of_Z 2.
Definition c_10f : float := Eval vm_compute in F32.of_Z 10.
Definition c_20f : float := Eval vm_compute in F32.of_Z 20.
Definition c_100f : float := Eval vm_compute in F32.of_Z 100.
Definition c_105f : float := Eval vm_compute in F32.of_Z 105.
Definition c_32768f : float := Eval vm_compute in F32.of_Z 32768.

(** ** The waveform container (waveform.h) *)

Record Waveform : Type := {
  m_frequency : Z;          (* unsigned: sample frequency in Hertz *)
  m_data : list float       (* std::vector<float>: the samples *)
}.

(** segment.h is not part of the sources; its two fields are those that
    segment.cpp assigns and splitspeech.cpp prints. *)
Record Segment : Type := {
  m_start : Z;
  m_count : Z
}.

Definition size (wav : Waveform) : Z := Z.of_nat (length (m_data wav)).

(** [Waveform::FindMinMaxSamples].  The loop counter is an [unsigned]
    compared against a [size_t]: with 2^32 samples or more it wraps before
    reaching the bound and the loop cannot end. *)
Definition minmax_step (acc : float * float) (x : float) : float * float :=
  let '(smin, smax) := acc in
  let smin := if F32.ltb x smin then x else smin in
  let smax := if F32.ltb smax x then x else smax in
  (smin, smax).

Definition FindMinMaxSamples (wav : Waveform) : outcome (float * float) :=
  match m_data wav with
  | [] => Ok (F32.zero, F32.zero)
  | _ =>
      if 2 ^ 32 <=? size wav then Fault NoProgress
      else Ok (fold_left minmax_step (m_data wav) (F32.FLT_MAX, F32.opp F32.FLT_MAX))
  end.

(** ** The segmenter (segment.cpp) *)

Definition recent_count : Z := 10.
Definition louds_to_start : Z := 3.
Definition quiets_to_stop : Z := 8.

Section Segmenter.
(** [powf] of the C library. *)
Variable powf : float -> float -> float.

(** [standard_deviation(data, count)]: [data] is the vector from the
    position the pointer designates onward. *)
Definition standard_deviation (data : list float) (count : Z) : outcome float :=
  if count <? 1 then Ok F32.zero
  else if Z.of_nat (length data) <? count then Fault OutOfBounds
  else
    let xs := take (Z.to_nat count) data in
    let sum := fold_left F32.add xs F32.zero in
    let mean := F32.div sum (F32.of_Z count) in
    let v := fold_left (fun v x => F32.add v (powf (F32.sub x mean) c_2f)) xs F32.zero in
    Ok (F32.sqrt (F32.div v (F32.of_Z count))).

(** [samples_per_chunk = static_cast<unsigned>(wav.m_frequency * 0.05)],
    a product of doubles. *)
Definition segment_samples_per_chunk (wav : Waveform) : outcome Z :=
  cast_unsigned (F64.mul (F64.of_Z (m_frequency wav)) c_0_05).

(** The first loop: one standard deviation per chunk, chunks
    [ichunk], [ichunk + 1], ... for [n] rounds. *)
Fixpoint stddev_loop (data : list float) (samples_per_chunk : Z)
    (n : nat) (ichunk : Z) : outcome (list float) :=
  match n with
  | O => Ok []
  | S n' =>
      let isample := wrap32 (ichunk * samples_per_chunk) in
      do x <- standard_deviation (drop (Z.to_nat isample) data) samples_per_chunk;
      do rest <- stddev_loop data samples_per_chunk n' (ichunk + 1);
      Ok (x :: rest)
  end.

(** The inner loop [for (int j = tick; j > (int)(tick - recent_count); j--)],
    [n] rounds from [j] downward; the pair is
    [(recent_quiet, recent_loud)] (at most ten increments each). *)
Fixpoint window_loop (stddev_per_chunk : list float) (stddev_threshold : float)
    (n : nat) (j : Z) (acc : Z * Z) : outcome (Z * Z) :=
  match n with
  | O => Ok acc
  | S n' =>
      do quiet <- (if 0 <? j
                   then do s <- vec_get stddev_per_chunk j;
                        Ok (F32.ltb s stddev_threshold)
                   else Ok true);
      let '(recent_quiet, recent_loud) := acc in
      window_loop stddev_per_chunk stddev_threshold n' (j - 1)
        (if quiet then (recent_quiet + 1, recent_loud)
         else (recent_quiet, recent_loud + 1))
  end.

Definition recent_counts (stddev_per_chunk : list float) (stddev_threshold : float)
    (tick : Z) : outcome (Z * Z) :=
  let j0 := to_int tick in
  let bound := to_int (wrap32 (tick - recent_count)) in
  window_loop stddev_per_chunk stddev_threshold (Z.to_nat (j0 - bound)) j0 (0, 0).

(** One round of the main loop; the state is the list built so far and
    [segment_started_tick]. *)
Definition segment_step (stddev_per_chunk : list float) (stddev_threshold : float)
    (samples_per_chunk num_chunks : Z)
    (st : list Segment * Z) (tick : Z) : outcome (list Segment * Z) :=
  let '(list, segment_started_tick) := st in
  do '(recent_quiet, recent_loud) <- recent_counts stddev_per_chunk stddev_threshold tick;
  if (segment_started_tick =? 0) && (louds_to_start <=? recent_loud)
  then Ok (list, wrap32 (tick - recent_loud))
  else if negb (segment_started_tick =? 0)
          && ((quiets_to_stop <=? recent_quiet) || (tick =? wrap32 (num_chunks - 1)))
  then
    let seg := {| m_start := wrap32 (segment_started_tick * samples_per_chunk);
                  m_count := wrap32 (wrap32 (tick - segment_started_tick) * samples_per_chunk) |} in
    Ok (list ++ [seg], 0)
  else Ok st.

Fixpoint segment_loop (stddev_per_chunk : list float) (stddev_threshold : float)
    (samples_per_chunk num_chunks : Z)
    (n : nat) (tick : Z) (st : list Segment * Z) : outcome (list Segment * Z) :=
  match n with
  | O => Ok st
  | S n' =>
      do st' <- segment_step stddev_per_chunk stddev_threshold
                  samples_per_chunk num_chunks st tick;
      segment_loop stddev_per_chunk stddev_threshold samples_per_chunk num_chunks
        n' (tick + 1) st'
  end.

Definition stddev_threshold_of (sample_min sample_max : float) : float :=
  let sample_peak := F32.div (F32.sub sample_max sample_min) c_2f in
  F32.mul sample_peak c_0_05f.

Definition FindSegmentsInAudioWaveform (wav : Waveform) : outcome (list Segment) :=
  do samples_per_chunk <- segment_samples_per_chunk wav;
  if samples_per_chunk =? 0 then Fault DivisionByZero
  else
    let num_chunks := wrap32 (size wav / samples_per_chunk) in
    do stddev_per_chunk <-
      stddev_loop (m_data wav) samples_per_chunk (Z.to_nat num_chunks) 0;
    do '(sample_min, sample_max) <- FindMinMaxSamples wav;
    let stddev_threshold := stddev_threshold_of sample_min sample_max in
    do '(list, _) <-
      segment_loop stddev_per_chunk stddev_threshold samples_per_chunk num_chunks
        (Z.to_nat num_chunks) 0 ([], 0);
    Ok list.
End Segmenter.

(** The values of [powf] that do not depend on the library: a zero
    exponent gives one, exponent one is the identity, and exponent two is
    the square (exact in double, then rounded once).  Concrete runs below
    use no other argument. *)
Definition powf_exact (x y : float) : float :=
  if SFeqb y F32.zero then c_1f
  else if SFeqb y c_1f then x
  else if SFeqb y c_2f then F32.mul x x
  else S754_nan.

(** ** The normalizer (normalize.cpp) *)

Section Normalizer.
Variable powf : float -> float -> float.

Definition db_to_linear (db : float) : float :=
  powf c_10f (F32.div db c_20f).

(** [samples_per_chunk = static_cast<unsigned>(wav.m_frequency * 0.01f)],
    a product of floats. *)
Definition normalize_samples_per_chunk (wav : Waveform) : outcome Z :=
  cast_unsigned (F32.mul (F32.of_Z (m_frequency wav)) c_0_01f).

(** The scan for the peak of a chunk; the index is an [unsigned] sum. *)
Fixpoint peak_loop (data : list float) (isample : Z)
    (n : nat) (subsample : Z) (local_peak : float) : outcome float :=
  match n with
  | O => Ok local_peak
  | S n' =>
      do x <- vec_get data (wrap32 (isample + subsample));
      let vol := F32.abs x in
      peak_loop data isample n' (subsample + 1)
        (if F32.ltb local_peak vol then vol else local_peak)
  end.

(** The two tests on the gain: slow release, then abrupt attack. *)
Definition release (max_vol local_peak gain : float) : float :=
  if F32.ltb local_peak max_vol && F32.ltb gain c_100f
  then F32.mul gain c_1_05f
  else gain.

Definition attack (max_vol local_peak gain : float) : float :=
  if F32.ltb max_vol (F32.mul local_peak gain)
  then if F32.ltb local_peak c_0_02f
       then F32.div max_vol c_0_02f
       else F32.div max_vol local_peak
  else gain.

Definition update_gain (max_vol local_peak gain : float) : float :=
  attack max_vol local_peak (release max_vol local_peak gain).

(** [wav.m_data[isample + subsample] *= gain], [n] rounds; the index is
    a [size_t] sum. *)
Fixpoint apply_loop (gain : float) (isample : Z)
    (n : nat) (subsample : Z) (data : list float) : outcome (list float) :=
  match n with
  | O => Ok data
  | S n' =>
      do x <- vec_get data (isample + subsample);
      do data' <- vec_set data (isample + subsample) (F32.mul x gain);
      apply_loop gain isample n' (subsample + 1) data'
  end.

(** One round of the chunk loop on the state [(gain, wav.m_data)].  In
    the last round [count] is the [size_t] difference
    [size - isample]; were it to wrap, the first store would already
    be outside the vector. *)
Definition chunk_step (max_vol : float) (samples_per_chunk num_chunks : Z)
    (st : float * list float) (chunk : Z) : outcome (float * list float) :=
  let '(gain, data) := st in
  let isample := wrap32 (chunk * samples_per_chunk) in
  do local_peak <- peak_loop data isample (Z.to_nat samples_per_chunk) 0 F32.zero;
  let gain := update_gain max_vol local_peak gain in
  let sz := Z.of_nat (length data) in
  do count <- (if chunk =? wrap32 (num_chunks - 1)
               then if sz <? isample then Fault OutOfBounds else Ok (sz - isample)
               else Ok samples_per_chunk);
  do data' <- apply_loop gain isample (Z.to_nat count) 0 data;
  Ok (gain, data').

Fixpoint chunk_loop (max_vol : float) (samples_per_chunk num_chunks : Z)
    (n : nat) (chunk : Z) (st : float * list float) : outcome (float * list float) :=
  match n with
  | O => Ok st
  | S n' =>
      do st' <- chunk_step max_vol samples_per_chunk num_chunks st chunk;
      chunk_loop max_vol samples_per_chunk num_chunks n' (chunk + 1) st'
  end.

(** The pass for a given target [max_vol]. *)
Definition normalize_to (max_vol : float) (wav : Waveform) : outcome Waveform :=
  do samples_per_chunk <- normalize_samples_per_chunk wav;
  if samples_per_chunk =? 0 then Fault DivisionByZero
  else
    let num_chunks := wrap32 (size wav / samples_per_chunk) in
    do '(_, data) <-
      chunk_loop max_vol samples_per_chunk num_chunks
        (Z.to_nat num_chunks) 0 (c_1f, m_data wav);
    Ok {| m_frequency := m_frequency wav; m_data := data |}.

Definition NormalizeAudioWaveform (wav : Waveform) (db_level : float) : outcome Waveform :=
  match m_data wav with
  | [] => Ok wav
  | _ => normalize_to (db_to_linear db_level) wav
  end.
End Normalizer.

(** ** The sample conversion of the encoder (waveform.cpp) *)

(** [static_cast<int16_t>(m_data[i] * 32768)]. *)
Definition pcm_of_sample (x : float) : outcome Z :=
  cast_int16 (F32.mul x c_32768f).

Fixpoint pcm_loop (data : list float) (start_sample : Z)
    (n : nat) (isample : Z) : outcome (list Z) :=
  match n with
  | O => Ok []
  | S n' =>
      do x <- vec_get data (start_sample + isample);
      do s <- pcm_of_sample x;
      do rest <- pcm_loop data start_sample n' (isample + 1);
      Ok (s :: rest)
  end.

(** [Waveform::WriteToWAVFile] up to the call of [WAVFileWrite]: [None]
    when it returns false before the conversion, otherwise the 16-bit
    samples handed to the file writer. *)
Definition WriteToWAVFile_samples (wav : Waveform) (start_sample num_samples : Z)
    : outcome (option (list Z)) :=
  match m_data wav with
  | [] => Ok None
  | _ =>
      if size wav <=? start_sample then Ok None
      else
        let num_samples :=
          if num_samples =? 0 then wrap32 (size wav - start_sample) else num_samples in
        if size wav <? wrap32 (start_sample + num_samples) then Ok None
        else do samples <- pcm_loop (m_data wav) start_sample (Z.to_nat num_samples) 0;
             Ok (Some samples)
  end.

(** * Notions used to state the properties *)

(** ** The trailing window of the segmenter *)

(** The classification the inner loop applies at position [j]. *)
Definition loud_at (stddev_per_chunk : list float) (stddev_threshold : float)
    (j : Z) : bool :=
  (0 <? j)
  && negb (F32.ltb (nth (Z.to_nat j) stddev_per_chunk F32.zero) stddev_threshold).

(** Loud positions among [j], [j - 1], ..., [n] of them. *)
Fixpoint louds_from (stddev_per_chunk : list float) (stddev_threshold : float)
    (n : nat) (j : Z) : Z :=
  match n with
  | O => 0
  | S n' => Z.b2z (loud_at stddev_per_chunk stddev_threshold j)
            + louds_from stddev_per_chunk stddev_threshold n' (j - 1)
  end.

(** The counts the code reaches at [tick]; from 2^31 on the [int] copy of
    the tick is negative. *)
Definition recent_loud_at (stddev_per_chunk : list float) (stddev_threshold : float)
    (tick : Z) : Z :=
  if tick <? 2 ^ 31 then louds_from stddev_per_chunk stddev_threshold 10 tick else 0.

Definition recent_quiet_at (stddev_per_chunk : list float) (stddev_threshold : float)
    (tick : Z) : Z :=
  if tick <? 2 ^ 31 then 10 - louds_from stddev_per_chunk stddev_threshold 10 tick
  else if tick <? 2 ^ 31 + 10 then 0 else 10.

(** The window positions [tick], [tick - 1], ... *)
Fixpoint positions (n : nat) (j : Z) : list Z :=
  match n with
  | O => []
  | S n' => j :: positions n' (j - 1)
  end.

Definition window_positions (tick : Z) : list Z := positions 10 tick.

Fixpoint count_if (P : Z -> bool) (l : list Z) : Z :=
  match l with
  | [] => 0
  | j :: l' => Z.b2z (P j) + count_if P l'
  end.

(** A position is quiet by convention, or because the standard deviation
    of its chunk is below the threshold. *)
Definition quiet_position (by_convention : Z -> bool)
    (stddev : list float) (thr : float) (j : Z) : bool :=
  by_convention j || F32.ltb (nth (Z.to_nat j) stddev F32.zero) thr.

(** The counts of the window under a given convention. *)
Definition window_counts (by_convention : Z -> bool)
    (stddev : list float) (thr : float) (tick : Z) : Z * Z :=
  (count_if (quiet_position by_convention stddev thr) (window_positions tick),
   count_if (fun j => negb (quiet_position by_convention stddev thr j))
     (window_positions tick)).

(** The convention of the design document: positions before the start. *)
Definition before_start (j : Z) : bool := j <? 0.

(** The convention of the code: position zero too. *)
Definition not_after_start (j : Z) : bool := j <=? 0.

(** The window property under a convention: the code's counts at [tick] are
    those of the convention, and they add up to ten. *)
Definition window_claim (by_convention : Z -> bool)
    (stddev : list float) (thr : float) (tick : Z) : Prop :=
  exists recent_quiet recent_loud,
    recent_counts stddev thr tick = Ok (recent_quiet, recent_loud)
    /\ (recent_quiet, recent_loud) = window_counts by_convention stddev thr tick
    /\ recent_quiet + recent_loud = 10.

(** ** Orderings on the list of segments *)

(** [adjacent R l]: every segment of [l] is in relation [R] with the next. *)
Fixpoint adjacent (R : Segment -> Segment -> Prop) (l : list Segment) : Prop :=
  match l with
  | g :: (g' :: _) as tl => R g g' /\ adjacent R tl
  | _ => True
  end.

(** Ascending starts, and a segment reaches at most [slack] samples into
    the next one. *)
Definition follows (slack : Z) (g g' : Segment) : Prop :=
  m_start g < m_start g' /\ m_start g + m_count g <= m_start g' + slack.

(** The ordering of the design document: ascending starts, no overlap. *)
Definition disjoint_ascending (g g' : Segment) : Prop :=
  m_start g <= m_start g' /\ m_start g + m_count g <= m_start g'.

(** The segment from chunk [a] (included) to chunk [b] (excluded). *)
Definition seg_of (samples_per_chunk a b : Z) : Segment :=
  {| m_start := a * samples_per_chunk; m_count := (b - a) * samples_per_chunk |}.

(** What holds of the state of the main loop when round [t] begins: an
    open segment began at least four chunks ago; closed segments span at
    least four chunks, follow each other with at most two chunks in
    common, and the last one ended at most two chunks after the open one
    began.  When no segment is open and one was closed, the window of the
    previous tick had at most two loud chunks. *)
Definition loop_inv (stddev_per_chunk : list float) (stddev_threshold : float)
    (samples_per_chunk num_chunks : Z) (t : Z) (st : list Segment * Z) : Prop :=
  let '(l, s) := st in
  (0 <= s /\ (s <> 0 -> s + 4 <= t)) /\
  Forall (fun g => exists a b,
            g = seg_of samples_per_chunk a b /\ 0 < a /\ a + 4 <= b /\ b < t) l /\
  adjacent (follows (2 * samples_per_chunk)) l /\
  match last l with
  | None => True
  | Some g =>
      exists a b, g = seg_of samples_per_chunk a b /\ 0 < a /\ a + 4 <= b /\ b < t /\
        if s =? 0
        then recent_loud_at stddev_per_chunk stddev_threshold (t - 1) <= 2
             \/ t = num_chunks
        else b <= s + 2 /\ a < s
  end.

(** A call that passes the waveform by reference to const: the callee
    returns its result, the waveform stays the caller's. *)
Definition by_const_ref {A : Type} (f : Waveform -> outcome A) (wav : Waveform)
    : outcome (A * Waveform) :=
  do a <- f wav; Ok (a, wav).

(** ** The rounds of the normalizer *)

Definition scaled_by (gain : float) (x : float) : float := F32.mul x gain.

(** The state of the chunk loop after [k] rounds. *)
Definition state_after (max_vol : float) (samples_per_chunk num_chunks : Z)
    (data0 : list float) (k : nat) : outcome (float * list float) :=
  chunk_loop max_vol samples_per_chunk num_chunks k 0 (c_1f, data0).

(** The gain that round [c] computes and applies. *)
Definition gain_at (max_vol : float) (samples_per_chunk num_chunks : Z)
    (data0 : list float) (c : Z) : float :=
  match state_after max_vol samples_per_chunk num_chunks data0 (S (Z.to_nat c)) with
  | Ok (g, _) => g
  | Fault _ => c_1f
  end.

(** The round that writes sample [i]: its own chunk, or the last chunk
    for the samples after the last full one. *)
Definition chunk_of (samples_per_chunk num_chunks : Z) (i : Z) : Z :=
  Z.min (i / samples_per_chunk) (num_chunks - 1).

Definition written_after (samples_per_chunk num_chunks : Z) (k i : Z) : bool :=
  (i <? k * samples_per_chunk) || ((k =? num_chunks) && (0 <? num_chunks)).

(** Every sample of [wav] was multiplied, in [wav'], by the gain of one
    of the rounds of the chunk loop: the round of its own chunk, or the
    last round for the samples after the last full chunk. *)
Definition every_sample_adjusted (max_vol : float) (spc : Z) (wav wav' : Waveform) : Prop :=
  let num_chunks := wrap32 (size wav / spc) in
  forall (i : nat) (x : float),
    m_data wav !! i = Some x ->
    exists c g d,
      0 <= c < num_chunks
      /\ c = Z.min (Z.of_nat i / spc) (num_chunks - 1)
      /\ state_after max_vol spc num_chunks (m_data wav) (S (Z.to_nat c)) = Ok (g, d)
      /\ m_data wav' !! i = Some (F32.mul x g).

(** The comparison of normalize_test.cpp, [peak > linear_level * 1.001],
    made in double after widening both floats. *)
Definition widen (x : float) : float :=
  match x with
  | S754_finite s m e => binary_round F64.prec F64.emax s m e
  | _ => x
  end.

Definition c_1_001 : float := Eval vm_compute in F64.div (F64.of_Z 1001) (F64.of_Z 1000).

Definition exceeds_ceiling (target x : float) : bool :=
  SFltb (F64.mul (widen target) c_1_001) (widen (F32.abs x)).

Definition within_ceiling (target : float) (data : list float) : bool :=
  forallb (fun x => negb (exceeds_ceiling target x)) data.

(** ** Values of the gain *)

(** A gain of at most 105: zero, or a positive binary32 value whose
    24-bit mantissa and exponent put it at or below 105. *)
Definition gain_ok (g : float) : Prop :=
  match g with
  | S754_zero _ => True
  | S754_finite false m e => Z.pos m < 2 ^ 24 /\ e <= -17 /\ Z.pos m <= 105 * 2 ^ (- e)
  | _ => False
  end.

(** A target between zero and one. *)
Definition target_ok (v : float) : Prop :=
  match v with
  | S754_zero _ => True
  | S754_finite false m e => e <= -23 /\ Z.pos m <= 2 ^ (- e)
  | _ => False
  end.

(** A divisor of at least 0.02f. *)
Definition divisor_ok (p : float) : Prop :=
  match p with
  | S754_infinity false => True
  | S754_finite false m e =>
      (e = -29 /\ 10737418 <= Z.pos m) \/ (-29 < e /\ 2 ^ 23 <= Z.pos m)
  | _ => False
  end.

(** A peak: zero, infinite, or the absolute value of a binary32 sample. *)
Definition peak_ok (p : float) : Prop :=
  match p with
  | S754_zero false | S754_infinity false => True
  | S754_finite false m e => bounded F32.prec F32.emax m e = true
  | _ => False
  end.

(** ** Located values *)

(** [A / B], in units of the current exponent, lies at mantissa [m] with
    location [l]. *)
Definition loc_at (A B m : Z) (l : location) : Prop :=
  match l with
  | loc_Exact => A = m * B
  | loc_Inexact c => m * B < A < (m + 1) * B /\ Z.compare (2 * A) ((2 * m + 1) * B) = c
  end.

(** The float that the last step of the rounding builds from a rounded
    mantissa of at most 2^24 and its exponent. *)
Definition norm32 (m2 e1 : Z) : float :=
  if m2 =? 0 then S754_zero false
  else if m2 <? 2 ^ 24
       then if e1 <=? 104 then S754_finite false (Z.to_pos m2) e1 else S754_infinity false
       else if e1 + 1 <=? 104 then S754_finite false (Z.to_pos (2 ^ 23)) (e1 + 1)
            else S754_infinity false.

(** ** The conversion to 16 bits *)

(** [z] is the value of [x] with its fractional part dropped. *)
Definition truncation_of (x : float) (z : Z) : Prop :=
  match x with
  | S754_zero _ => z = 0
  | S754_finite s m e =>
      (if s then z <= 0 else 0 <= z)
      /\ Z.abs z * 2 ^ Z.max 0 (- e) <= Z.pos m * 2 ^ Z.max 0 e
         < (Z.abs z + 1) * 2 ^ Z.max 0 (- e)
  | _ => False
  end.

(** The rounding the design document names: to the nearest integer,
    halves away from zero. *)
Definition round_half_away (x : float) : option Z :=
  match x with
  | S754_zero _ => Some 0
  | S754_finite s m e =>
      let a := if 0 <=? e then Z.pos m * 2 ^ e
               else (2 * Z.pos m + 2 ^ (- e)) / (2 * 2 ^ (- e)) in
      Some (if s then - a else a)
  | _ => None
  end.

Definition converts_by_rounding (x : float) : Prop :=
  forall z, pcm_of_sample x = Ok z -> round_half_away (F32.mul x c_32768f) = Some z.

(** ** Concrete waveforms *)

Definition half : float := Eval vm_compute in F32.div c_1f c_2f.

(** Thirteen silent samples at 20 Hz: thirteen chunks of one sample. *)
Definition wav_silent : Waveform :=
  {| m_frequency := 20; m_data := replicate 13 F32.zero |}.

(** Chunks of two samples at 40 Hz; a loud chunk is [0.5, -0.5], a quiet
    one is [0, 0].  Loud chunks: 2, 4, 5 and 13, of fifteen. *)
Definition chunk_pattern (loud : bool) : list float :=
  if loud then [half; F32.opp half] else [F32.zero; F32.zero].

Definition wav_overlap : Waveform :=
  {| m_frequency := 40;
     m_data := concat (map chunk_pattern
                 [false; false; true; false; true; true; false; false;
                  false; false; false; false; false; true; false]) |}.

(** One loud chunk followed by a quiet one, at 40 Hz. *)
Definition wav_loud_first : Waveform :=
  {| m_frequency := 40; m_data := [half; F32.opp half; F32.zero; F32.zero] |}.

(** 200 Hz gives the normalizer chunks of two samples. *)
Definition wav_tail : Waveform :=
  {| m_frequency := 200; m_data := [F32.zero; F32.zero; c_1f] |}.

Definition wav_short : Waveform :=
  {| m_frequency := 200; m_data := [half] |}.

Definition wav_zero_rate (data : list float) : Waveform :=
  {| m_frequency := 0; m_data := data |}.

(** 3/65536: the product with 32768 is 1.5. *)
Definition sample_one_and_half : float :=
  Eval vm_compute in F32.div (F32.of_Z 3) (F32.of_Z 65536).

(** 200 Hz, chunks of two samples: a quiet chunk, then a loud one. *)
Definition wav_two_chunks : Waveform :=
  {| m_frequency := 200; m_data := [F32.zero; F32.zero; c_2f; half] |}.

(** * The rest of waveform.cpp and its caller in splitspeech.cpp *)

(** ** Loading (waveform.cpp) *)

Definition c_128f : float := Eval vm_compute in F32.of_Z 128.

(** wavfile.h is not part of the sources; these are the fields of
    [WAVInfo] that waveform.cpp and wavfile.cpp assign and read. *)
Record WAVInfo : Type := {
  m_rate : Z;
  m_channels : Z;
  m_bits : Z;
  m_is_float : bool;
  m_sample_count : Z
}.

(** The raw buffer as the three loops of [LoadFromWAVFile] read it: the
    values behind a pointer to [float], to [int16_t] and to [uint8_t].
    Each loop uses one view only; a read past the end is a fault. *)
Record RawBuffer : Type := {
  as_float : list float;
  as_int16 : list Z;
  as_uint8 : list Z
}.

(** The three conversions of one value read through [in]. *)
Definition of_float32 (x : float) : float := x.
Definition of_int16 (v : Z) : float := F32.div (F32.of_Z v) c_32768f.
Definition of_uint8 (b : Z) : float := F32.div (F32.sub (F32.of_Z b) c_128f) c_128f.

(** The loop over the channels, [n] rounds: the converted value behind
    [in] is added to [sample] and [in] moves on; [pos] is its position. *)
Fixpoint channel_loop {T : Type} (conv : T -> float) (input : list T)
    (n : nat) (pos : Z) (sample : float) : outcome (float * Z) :=
  match n with
  | O => Ok (sample, pos)
  | S n' =>
      do v <- vec_get input pos;
      channel_loop conv input n' (pos + 1) (F32.add sample (conv v))
  end.

(** The loop over the samples: each one is the sum of its channels
    divided by their number, stored through [out]. *)
Fixpoint sample_loop {T : Type} (conv : T -> float) (input : list T)
    (channels : Z) (n : nat) (pos : Z) : outcome (list float) :=
  match n with
  | O => Ok []
  | S n' =>
      do '(sample, pos') <- channel_loop conv input (Z.to_nat channels) pos F32.zero;
      let sample := F32.div sample (F32.of_Z channels) in
      do rest <- sample_loop conv input channels n' pos';
      Ok (sample :: rest)
  end.

(** [Waveform::LoadFromWAVFile] from the point where the header and the
    raw buffer have been read: the object takes the rate of the header,
    [m_data] is resized to the sample count, and the branch that matches
    the format overwrites all of it.  When no branch matches, the resized
    vector stays: the samples the object had, cut or padded with zeros. *)
Definition LoadFromWAVFile_data (wav : Waveform) (header : WAVInfo) (raw : RawBuffer)
    : outcome Waveform :=
  let count := Z.to_nat (m_sample_count header) in
  let resized := resize count F32.zero (m_data wav) in
  do data <-
    (if m_is_float header && (m_bits header =? 32)
     then sample_loop of_float32 (as_float raw) (m_channels header) count 0
     else if m_bits header =? 16
     then sample_loop of_int16 (as_int16 raw) (m_channels header) count 0
     else if m_bits header =? 8
     then sample_loop of_uint8 (as_uint8 raw) (m_channels header) count 0
     else Ok resized);
  Ok {| m_frequency := m_rate header; m_data := data |}.

(** [Waveform() = default]: 48000 Hz and no samples. *)
Definition Waveform_default : Waveform := {| m_frequency := 48000; m_data := [] |}.

(** ** Writing the segments (splitspeech.cpp, wavfile.cpp) *)

Section Program.
(** What the file system answers to the writes of [WAVFileWrite]; the
    first argument is the number of the segment, which names the file. *)
Variable file_written : Z -> WAVInfo -> list Z -> bool.

(** [WAVFileWrite]: the checks on the parameters, then the writes. *)
Definition WAVFileWrite (seg_num : Z) (header : WAVInfo) (samples : list Z) : bool :=
  if m_sample_count header =? 0 then false
  else if negb (m_bits header =? 8) && negb (m_bits header =? 16)
          && negb (m_bits header =? 32)
  then false
  else file_written seg_num header samples.

(** [Waveform::WriteToWAVFile], with the header it fills in. *)
Definition WriteToWAVFile (wav : Waveform) (seg_num : Z) (start_sample num_samples : Z)
    : outcome bool :=
  match m_data wav with
  | [] => Ok false
  | _ =>
      if size wav <=? start_sample then Ok false
      else
        let num_samples :=
          if num_samples =? 0 then wrap32 (size wav - start_sample) else num_samples in
        if size wav <? wrap32 (start_sample + num_samples) then Ok false
        else do samples <- pcm_loop (m_data wav) start_sample (Z.to_nat num_samples) 0;
             Ok (WAVFileWrite seg_num
                   {| m_rate := m_frequency wav; m_channels := 1; m_bits := 16;
                      m_is_float := false; m_sample_count := num_samples |}
                   samples)
  end.

(** The loop of [write_audio_segments_to_wav_files]: it stops at the
    first segment that could not be written. *)
Fixpoint write_loop (wav : Waveform) (segments : list Segment) (seg_num : Z)
    : outcome bool :=
  match segments with
  | [] => Ok true
  | segment :: rest =>
      let seg_num := wrap32 (seg_num + 1) in
      do written <- WriteToWAVFile wav seg_num
                      (wrap32 (m_start segment)) (wrap32 (m_count segment));
      if written then write_loop wav rest seg_num else Ok false
  end.

(** [write_audio_segments_to_wav_files] for a file name that is not
    empty. *)
Definition write_audio_segments_to_wav_files (wav : Waveform) (segments : list Segment)
    : outcome bool :=
  match m_data wav, segments with
  | [], _ | _, [] => Ok false
  | _, _ => write_loop wav segments 0
  end.
End Program.

(** * Notions for the further properties *)

(** [f] holds on the [2 ^ k] integers from [lo] on. *)
Fixpoint check_range (f : Z -> bool) (k : nat) (lo : Z) : bool :=
  match k with
  | O => f lo
  | S k' => check_range f k' lo && check_range f k' (lo + 2 ^ Z.of_nat k')
  end.

(** The sample a file of one channel gives for the value [v] behind
    [in]: zero plus the converted value, divided by one. *)
Definition mono_sample {T : Type} (conv : T -> float) (v : T) : float :=
  F32.div (F32.add F32.zero (conv v)) (F32.of_Z 1).

(** The 16-bit value written for the sample a mono file gives for [v]
    is [g v]. *)
Definition written_as {T : Type} (conv : T -> float) (g : T -> Z) (v : T) : bool :=
  match pcm_of_sample (mono_sample conv v) with
  | Ok z => z =? g v
  | Fault _ => false
  end.

(** An 8-bit value [b] becomes the 16-bit value [(b - 128) * 256]. *)
Definition widened_8 (b : Z) : Z := (b - 128) * 256.

(** The header [WriteToWAVFile] fills in, and the buffer a file of
    16-bit samples gives. *)
Definition mono16 (rate : Z) (samples : list Z) : WAVInfo :=
  {| m_rate := rate; m_channels := 1; m_bits := 16; m_is_float := false;
     m_sample_count := Z.of_nat (length samples) |}.

Definition raw16 (samples : list Z) : RawBuffer :=
  {| as_float := []; as_int16 := samples; as_uint8 := [] |}.

Definition mono8 (rate : Z) (samples : list Z) : WAVInfo :=
  {| m_rate := rate; m_channels := 1; m_bits := 8; m_is_float := false;
     m_sample_count := Z.of_nat (length samples) |}.

Definition raw8 (samples : list Z) : RawBuffer :=
  {| as_float := []; as_int16 := []; as_uint8 := samples |}.

(** A segment on the grid of the chunks: from chunk [a] to chunk [b]. *)
Definition on_chunk_grid (samples_per_chunk num_chunks : Z) (g : Segment) : Prop :=
  exists a b,
    m_start g = a * samples_per_chunk /\ m_count g = (b - a) * samples_per_chunk
    /\ 1 <= a /\ a + 4 <= b /\ b <= num_chunks - 1.

(** A finite binary32 value: a zero or a number in the format, neither
    an infinity nor a NaN. *)
Definition is_finite (x : float) : bool :=
  match x with
  | S754_zero _ => true
  | S754_finite _ m e => bounded F32.prec F32.emax m e
  | _ => false
  end.

(** The state of the main loop when round [t] begins, in a run where
    every chunk after the first counts as loud: the segment opens at
    tick 11, at chunk 1, and closes at the last tick. *)
Definition all_loud_state (samples_per_chunk num_chunks t : Z) : list Segment * Z :=
  if t <=? 11 then ([], 0)
  else if (t <? num_chunks) || (num_chunks <=? 12) then ([], 1)
  else ([ {| m_start := samples_per_chunk;
             m_count := (num_chunks - 2) * samples_per_chunk |} ], 0).

(** -(1 + 2^-15) = -32769/32768: the product of this value with 32768 is
    -32769, the first integer below the 16-bit range. *)
Definition below_minus_one : float :=
  Eval vm_compute in F32.opp (F32.div (F32.of_Z 32769) (F32.of_Z 32768)).




(** The value of a finite number in units of [2 ^ emin], the smallest
    positive number of its format (a zero has none). *)
Definition units (emin : Z) (x : float) : Z :=
  match x with
  | S754_finite _ m e => Z.pos m * 2 ^ (e - emin)
  | _ => 0
  end.

(** A number that is not negative: a zero or a positive number of the
    format given by [prec] and [emax]. *)
Definition nonneg (prec emax : Z) (x : float) : bool :=
  match x with
  | S754_zero _ => true
  | S754_finite false m e => bounded prec emax m e
  | _ => false
  end.

(** 2^-100, far below the lowest level the program accepts (-100 dB is
    10^-5). *)
Definition c_lowest_target : float :=
  Eval vm_compute in binary_normalize F32.prec F32.emax 1 (-100) false.

(** Two chunks at 200 Hz: a quiet one, then one at full scale. *)
Definition wav_full_scale : Waveform :=
  {| m_frequency := 200; m_data := [half; half; c_1f; F32.opp c_1f] |}.

(** A file of two channels of 16-bit samples: the frames, each a left
    and a right value, lie in the buffer one after the other. *)
Definition interleave {T : Type} (frames : list (T * T)) : list T :=
  flat_map (fun f => [fst f; snd f]) frames.

Definition stereo16 (rate : Z) (frames : list (Z * Z)) : WAVInfo :=
  {| m_rate := rate; m_channels := 2; m_bits := 16; m_is_float := false;
     m_sample_count := Z.of_nat (length frames) |}.

(** The sample a file of two channels gives for the values [l] and [r]
    behind [in]: zero plus the two converted values, divided by two. *)
Definition stereo_sample {T : Type} (conv : T -> float) (l r : T) : float :=
  F32.div (F32.add (F32.add F32.zero (conv l)) (conv r)) (F32.of_Z 2).

(** The mean of two values, rounded toward zero. *)
Definition mean_toward_zero (f : Z * Z) : Z := Z.quot (fst f + snd f) 2.

(** The binary32 number [n / 32768]. *)
Definition dyadic (n : Z) : float := binary_normalize F32.prec F32.emax n (-15) false.

(** [x] is [a / 32768] written as a binary32 number with a full
    mantissa, or the positive zero. *)
Definition is_fraction_of (a : Z) (x : float) : bool :=
  match x with
  | S754_zero s => (a =? 0) && negb s
  | S754_finite s m e =>
      bounded F32.prec F32.emax m e && (-38 <=? e) && (e <=? -23)
      && (cond_Zopp s (Z.pos m) * 2 ^ (e + 38) =? a * 2 ^ 23)
  | _ => false
  end.

(** The 16-bit value written for half of [n / 32768] is [n] halved
    toward zero. *)
Definition halved_written (n : Z) : bool :=
  match pcm_of_sample (F32.div (dyadic n) (F32.of_Z 2)) with
  | Ok z => z =? Z.quot n 2
  | Fault _ => false
  end.

(** The number of chunks whose standard deviation is not below the
    threshold. *)
Fixpoint loud_count (stddev_threshold : float) (stddev_per_chunk : list float) : Z :=
  match stddev_per_chunk with
  | [] => 0
  | s :: rest => Z.b2z (negb (F32.ltb s stddev_threshold)) + loud_count stddev_threshold rest
  end.

(** Fifteen chunks at 40 Hz, silent but for one click in chunk 5. *)
Definition wav_click : Waveform :=
  {| m_frequency := 40;
     m_data := replicate 10 F32.zero ++ [half; F32.opp half] ++ replicate 18 F32.zero |}.

(** 0.999, as [999 / 1000.f] gives it. *)
Definition c_0_999f : float := Eval vm_compute in F32.div (F32.of_Z 999) (F32.of_Z 1000).

(** A [powf] that also has the exponent minus one: the reciprocal,
    rounded once. *)
Definition powf_reciprocal (x y : float) : float :=
  if SFeqb y (F32.opp c_1f) then F32.div c_1f x else powf_exact x y.

Definition c_minus_20f : float := Eval vm_compute in F32.of_Z (-20).

(** Thirteen chunks of the segmenter at 100 Hz, all at one half. *)
Definition wav_steady : Waveform := {| m_frequency := 100; m_data := replicate 65 half |}.

(** * Properties *)

(** ** Outcomes and machine integers *)

Lemma obind_ok {A B : Type} (m : outcome A) (k : A -> outcome B) (b : B) :
  obind m k = Ok b -> exists a, m = Ok a /\ k a = Ok b.
Proof. destruct m as [a|f]; simpl; [eauto | discriminate]. Qed.

Ltac inv_ok H :=
  let a := fresh "a" in
  let Ha := fresh "Ha" in
  apply obind_ok in H; destruct H as (a & Ha & H).

Lemma wrap32_small z : 0 <= z < 2 ^ 32 -> wrap32 z = z.
Proof. intros Hz. unfold wrap32. apply Z.mod_small. exact Hz. Qed.

Lemma wrap32_range z : 0 <= wrap32 z < 2 ^ 32.
Proof. unfold wrap32. apply Z.mod_pos_bound. reflexivity. Qed.

Lemma to_int_small z : 0 <= z < 2 ^ 31 -> to_int z = z.
Proof.
  intros Hz. unfold to_int. rewrite Z.mod_small by lia.
  destruct (Z.ltb_spec z (2 ^ 31)); lia.
Qed.

Lemma to_int_high z : 2 ^ 31 <= z < 2 ^ 32 -> to_int z = z - 2 ^ 32.
Proof.
  intros Hz. unfold to_int. rewrite Z.mod_small by lia.
  destruct (Z.ltb_spec z (2 ^ 31)); lia.
Qed.

Lemma cast_unsigned_range x z : cast_unsigned x = Ok z -> 0 <= z < 2 ^ 32.
Proof.
  unfold cast_unsigned. destruct (trunc x) as [t|]; [|discriminate].
  destruct (Z.leb_spec 0 t), (Z.ltb_spec t (2 ^ 32)); simpl; try discriminate.
  intros [= <-]. lia.
Qed.

(** ** The trailing window of the segmenter *)

Section Window.
Variables (stddev_per_chunk : list float) (stddev_threshold : float).

Lemma louds_from_range n j : 0 <= louds_from stddev_per_chunk stddev_threshold n j <= Z.of_nat n.
Proof.
  revert j. induction n as [|n IH]; intros j; [simpl; lia|].
  change (louds_from stddev_per_chunk stddev_threshold (S n) j) with (Z.b2z (loud_at stddev_per_chunk stddev_threshold j) + louds_from stddev_per_chunk stddev_threshold n (j - 1)).
  specialize (IH (j - 1)). destruct (loud_at stddev_per_chunk stddev_threshold j); simpl Z.b2z; lia.
Qed.

(** Only positions above zero can be loud. *)
Lemma louds_from_le_pos n j : louds_from stddev_per_chunk stddev_threshold n j <= Z.max 0 j.
Proof.
  revert j. induction n as [|n IH]; intros j; [simpl; lia|].
  change (louds_from stddev_per_chunk stddev_threshold (S n) j) with (Z.b2z (loud_at stddev_per_chunk stddev_threshold j) + louds_from stddev_per_chunk stddev_threshold n (j - 1)).
  specialize (IH (j - 1)). unfold loud_at.
  destruct (Z.ltb_spec 0 j); simpl; [|lia].
  destruct (negb _); simpl Z.b2z; lia.
Qed.

Lemma vec_get_nth (j : Z) :
  0 <= j < Z.of_nat (length stddev_per_chunk) ->
  vec_get stddev_per_chunk j = Ok (nth (Z.to_nat j) stddev_per_chunk F32.zero).
Proof.
  intros Hj. unfold vec_get.
  destruct (Z.ltb_spec j 0); [lia|].
  destruct (stddev_per_chunk !! Z.to_nat j) as [x|] eqn:E.
  - f_equal. symmetry. apply nth_lookup_Some with (d := F32.zero) in E. exact E.
  - apply lookup_ge_None in E. lia.
Qed.

Lemma window_loop_counts n j q l :
  j < Z.of_nat (length stddev_per_chunk) ->
  window_loop stddev_per_chunk stddev_threshold n j (q, l)
  = Ok (q + (Z.of_nat n - louds_from stddev_per_chunk stddev_threshold n j), l + louds_from stddev_per_chunk stddev_threshold n j).
Proof.
  revert j q l. induction n as [|n IH]; intros j q l Hj.
  - simpl. f_equal. f_equal; lia.
  - change (louds_from stddev_per_chunk stddev_threshold (S n) j) with (Z.b2z (loud_at stddev_per_chunk stddev_threshold j) + louds_from stddev_per_chunk stddev_threshold n (j - 1)).
    cbn [window_loop]. unfold loud_at.
    destruct (Z.ltb_spec 0 j) as [Hpos|Hneg].
    + rewrite vec_get_nth by lia. cbn [obind andb].
      destruct (F32.ltb _ _); cbn [negb Z.b2z];
        rewrite IH by lia; f_equal; f_equal; lia.
    + cbn [obind andb Z.b2z]. rewrite IH by lia. f_equal. f_equal; lia.
Qed.

Lemma louds_from_nonpos n j : j <= 0 -> louds_from stddev_per_chunk stddev_threshold n j = 0.
Proof.
  revert j. induction n as [|n IH]; intros j Hj; [reflexivity|].
  change (louds_from stddev_per_chunk stddev_threshold (S n) j) with (Z.b2z (loud_at stddev_per_chunk stddev_threshold j) + louds_from stddev_per_chunk stddev_threshold n (j - 1)).
  rewrite IH by lia. unfold loud_at. destruct (Z.ltb_spec 0 j); [lia|reflexivity].
Qed.

Lemma recent_counts_eq tick :
  0 <= tick < Z.of_nat (length stddev_per_chunk) -> tick < 2 ^ 32 ->
  recent_counts stddev_per_chunk stddev_threshold tick
  = Ok (recent_quiet_at stddev_per_chunk stddev_threshold tick, recent_loud_at stddev_per_chunk stddev_threshold tick).
Proof.
  intros Ht Ht32. unfold recent_counts, recent_quiet_at, recent_loud_at, recent_count.
  destruct (Z.ltb_spec tick (2 ^ 31)) as [Hlo|Hhi].
  - rewrite (to_int_small tick) by lia.
    assert (Hb : to_int (wrap32 (tick - 10)) = tick - 10).
    { destruct (Z.lt_ge_cases tick 10).
      - unfold wrap32. replace (tick - 10) with (tick - 10 + 1 * 2 ^ 32 - 2 ^ 32) by lia.
        replace ((tick - 10 + 1 * 2 ^ 32 - 2 ^ 32) mod 2 ^ 32) with (tick - 10 + 2 ^ 32).
        + rewrite to_int_high; lia.
        + symmetry. replace (tick - 10 + 1 * 2 ^ 32 - 2 ^ 32) with (tick - 10 + 2 ^ 32 + (-1) * 2 ^ 32) by lia.
          rewrite Z.mod_add by lia. apply Z.mod_small. lia.
      - rewrite wrap32_small by lia. apply to_int_small. lia. }
    rewrite Hb. replace (tick - (tick - 10)) with 10 by lia.
    rewrite window_loop_counts by lia. f_equal.
  - rewrite (to_int_high tick) by lia.
    rewrite (wrap32_small (tick - 10)) by lia.
    destruct (Z.ltb_spec tick (2 ^ 31 + 10)) as [Hw|Hw].
    + rewrite to_int_small by lia.
      replace (Z.to_nat (tick - 2 ^ 32 - (tick - 10))) with O by lia. reflexivity.
    + rewrite to_int_high by lia.
      replace (tick - 2 ^ 32 - (tick - 10 - 2 ^ 32)) with 10 by lia.
      rewrite window_loop_counts by lia.
      rewrite louds_from_nonpos by lia. reflexivity.
Qed.

Lemma recent_loud_at_range tick :
  0 <= tick -> 0 <= recent_loud_at stddev_per_chunk stddev_threshold tick <= Z.min 10 tick.
Proof.
  intros Ht. unfold recent_loud_at. destruct (tick <? 2 ^ 31); [|lia].
  pose proof (louds_from_range 10 tick). pose proof (louds_from_le_pos 10 tick). lia.
Qed.

Lemma recent_quiet_at_stop tick :
  quiets_to_stop <= recent_quiet_at stddev_per_chunk stddev_threshold tick -> recent_loud_at stddev_per_chunk stddev_threshold tick <= 2.
Proof.
  unfold recent_quiet_at, recent_loud_at, quiets_to_stop.
  destruct (tick <? 2 ^ 31); lia.
Qed.

Lemma louds_from_slide n j :
  louds_from stddev_per_chunk stddev_threshold n (j + 1) + Z.b2z (loud_at stddev_per_chunk stddev_threshold (j - Z.of_nat n + 1))
  = Z.b2z (loud_at stddev_per_chunk stddev_threshold (j + 1)) + louds_from stddev_per_chunk stddev_threshold n j.
Proof.
  revert j. induction n as [|n IH]; intros j.
  - simpl louds_from. replace (j - Z.of_nat 0 + 1) with (j + 1) by lia. lia.
  - change (louds_from stddev_per_chunk stddev_threshold (S n) (j + 1))
      with (Z.b2z (loud_at stddev_per_chunk stddev_threshold (j + 1)) + louds_from stddev_per_chunk stddev_threshold n (j + 1 - 1)).
    change (louds_from stddev_per_chunk stddev_threshold (S n) j) with (Z.b2z (loud_at stddev_per_chunk stddev_threshold j) + louds_from stddev_per_chunk stddev_threshold n (j - 1)).
    specialize (IH (j - 1)).
    replace (j - 1 + 1) with j in IH by lia.
    replace (j + 1 - 1) with j by lia.
    replace (j - Z.of_nat (S n) + 1) with (j - 1 - Z.of_nat n + 1) by lia.
    lia.
Qed.

(** The count of loud chunks grows by at most one from a tick to the next. *)
Lemma recent_loud_at_step tick :
  0 <= tick -> recent_loud_at stddev_per_chunk stddev_threshold (tick + 1) <= recent_loud_at stddev_per_chunk stddev_threshold tick + 1.
Proof.
  intros Ht. unfold recent_loud_at.
  destruct (Z.ltb_spec (tick + 1) (2 ^ 31)), (Z.ltb_spec tick (2 ^ 31)); try lia.
  - pose proof (louds_from_slide 10 tick).
    destruct (loud_at stddev_per_chunk stddev_threshold (tick + 1)), (loud_at stddev_per_chunk stddev_threshold (tick - Z.of_nat 10 + 1));
      simpl Z.b2z in *; lia.
  - pose proof (louds_from_range 10 tick). lia.
Qed.
End Window.

(** ** Orderings on the list of segments *)

Lemma adjacent_snoc (R : Segment -> Segment -> Prop) l x :
  adjacent R l ->
  match last l with Some g => R g x | None => True end ->
  adjacent R (l ++ [x]).
Proof.
  induction l as [|g l IH]; intros Hl Hx; [exact I|].
  destruct l as [|g' l].
  - simpl in *. auto.
  - destruct Hl as [Hgg' Hl]. split; [exact Hgg'|].
    apply IH; [exact Hl|]. exact Hx.
Qed.

(** ** The main loop of the segmenter *)

Section MainLoop.
Variables (stddev_per_chunk : list float) (stddev_threshold : float).
Variables (samples_per_chunk num_chunks : Z).
Hypothesis Hspc : 0 < samples_per_chunk.
Hypothesis Hfit : num_chunks * samples_per_chunk < 2 ^ 32.
Hypothesis Hlen : Z.of_nat (length stddev_per_chunk) = num_chunks.

Lemma loop_inv_init : loop_inv stddev_per_chunk stddev_threshold samples_per_chunk num_chunks 0 ([], 0).
Proof. repeat split; try constructor; try lia. Qed.

Lemma segment_step_inv t st :
  0 <= t < num_chunks -> loop_inv stddev_per_chunk stddev_threshold samples_per_chunk num_chunks t st ->
  exists st', segment_step stddev_per_chunk stddev_threshold
                samples_per_chunk num_chunks st t = Ok st'
              /\ loop_inv stddev_per_chunk stddev_threshold samples_per_chunk num_chunks (t + 1) st'.
Proof.
  intros Ht Hinv. destruct st as [l s].
  destruct Hinv as ((Hs0 & Hs4) & Hall & Hadj & Hlast).
  assert (Ht32 : t < 2 ^ 32) by nia.
  unfold segment_step.
  rewrite recent_counts_eq by lia. cbn [obind].
  fold (recent_loud_at stddev_per_chunk stddev_threshold t) (recent_quiet_at stddev_per_chunk stddev_threshold t).
  pose proof (recent_loud_at_range stddev_per_chunk stddev_threshold t ltac:(lia)) as Hl.
  fold (recent_loud_at stddev_per_chunk stddev_threshold t) in Hl.
  assert (Hall' : Forall (fun g => exists a b,
                     g = seg_of samples_per_chunk a b /\ 0 < a /\ a + 4 <= b /\ b < t + 1) l).
  { eapply Forall_impl; [exact Hall|]. intros g (a & b & -> & ? & ? & ?).
    exists a, b. repeat split; lia. }
  destruct (Z.eqb_spec s 0) as [->|Hs].
  - (* no segment is open *)
    cbn [negb andb].
    destruct (Z.leb_spec louds_to_start (recent_loud_at stddev_per_chunk stddev_threshold t)) as [Hstart|Hno]; cbn [andb].
    + unfold louds_to_start in Hstart.
      rewrite wrap32_small by lia.
      eexists; split; [reflexivity|].
      unfold loop_inv. split; [lia|]. split; [exact Hall'|]. split; [exact Hadj|].
      destruct (last l) as [g|]; [|exact I].
      destruct Hlast as (a & b & -> & Ha & Hab & Hb & Hidle).
      exists a, b. split; [reflexivity|]. split; [lia|]. split; [lia|]. split; [lia|].
      destruct Hidle as [Hprev|Hend]; [|lia].
      pose proof (recent_loud_at_step stddev_per_chunk stddev_threshold (t - 1) ltac:(lia)) as Hstep.
      replace (t - 1 + 1) with t in Hstep by lia.
      assert (recent_loud_at stddev_per_chunk stddev_threshold t = 3) as -> by lia.
      destruct (Z.eqb_spec (t - 3) 0); lia.
    + eexists; split; [reflexivity|].
      unfold loop_inv. split; [lia|]. split; [exact Hall'|]. split; [exact Hadj|].
      destruct (last l) as [g|]; [|exact I].
      destruct Hlast as (a & b & -> & Ha & Hab & Hb & Hidle).
      exists a, b. split; [reflexivity|]. split; [lia|]. split; [lia|]. split; [lia|].
      unfold louds_to_start in Hno. replace (t + 1 - 1) with t by lia.
      cbn [Z.eqb]. left. lia.
  - (* a segment is open since chunk [s] *)
    cbn [negb andb]. specialize (Hs4 Hs).
    rewrite (wrap32_small (num_chunks - 1)) by lia.
    destruct (orb (quiets_to_stop <=? recent_quiet_at stddev_per_chunk stddev_threshold t) (t =? num_chunks - 1)) eqn:Hclose.
    + rewrite (wrap32_small (t - s)) by lia.
      rewrite (wrap32_small (s * samples_per_chunk)) by nia.
      rewrite (wrap32_small ((t - s) * samples_per_chunk)) by nia.
      fold (seg_of samples_per_chunk s t).
      eexists; split; [reflexivity|].
      unfold loop_inv. split; [lia|]. split; [|split].
      * apply Forall_app. split; [exact Hall'|].
        constructor; [|constructor]. exists s, t. repeat split; lia.
      * apply adjacent_snoc; [exact Hadj|].
        destruct (last l) as [g|]; [|exact I].
        destruct Hlast as (a & b & -> & Ha & Hab & Hb & Hopen).
        destruct (Z.eqb_spec s 0); [lia|].
        unfold follows, seg_of; cbn [m_start m_count]. nia.
      * rewrite last_snoc. exists s, t. split; [reflexivity|]. split; [lia|]. split; [lia|]. split; [lia|].
        cbn [Z.eqb]. replace (t + 1 - 1) with t by lia.
        apply orb_true_iff in Hclose. destruct Hclose as [Hq|Hend].
        -- left. apply Z.leb_le in Hq.
           apply (recent_quiet_at_stop stddev_per_chunk stddev_threshold t Hq).
        -- right. apply Z.eqb_eq in Hend. lia.
    + eexists; split; [reflexivity|].
      unfold loop_inv. split; [lia|]. split; [exact Hall'|]. split; [exact Hadj|].
      destruct (last l) as [g|]; [|exact I].
      destruct Hlast as (a & b & -> & Ha & Hab & Hb & Hopen).
      exists a, b. split; [reflexivity|]. split; [lia|]. split; [lia|]. split; [lia|].
      destruct (Z.eqb_spec s 0); [lia|]. exact Hopen.
Qed.

Lemma segment_loop_inv n t st :
  0 <= t -> t + Z.of_nat n = num_chunks -> loop_inv stddev_per_chunk stddev_threshold samples_per_chunk num_chunks t st ->
  exists st', segment_loop stddev_per_chunk stddev_threshold
                samples_per_chunk num_chunks n t st = Ok st'
              /\ loop_inv stddev_per_chunk stddev_threshold samples_per_chunk num_chunks num_chunks st'.
Proof.
  revert t st. induction n as [|n IH]; intros t st Ht Hn Hinv.
  - assert (t = num_chunks) as -> by lia. exists st. split; [reflexivity|exact Hinv].
  - cbn [segment_loop].
    destruct (segment_step_inv t st) as (st1 & -> & Hinv1); [lia|exact Hinv|].
    cbn [obind]. apply IH; [lia|lia|exact Hinv1].
Qed.
End MainLoop.

(** ** Runs of the segmenter *)

Section SegmenterRuns.
Variable powf : float -> float -> float.

Lemma stddev_loop_length data spc n i r :
  stddev_loop powf data spc n i = Ok r -> length r = n.
Proof.
  revert i r. induction n as [|n IH]; intros i r H.
  - injection H as <-. reflexivity.
  - cbn [stddev_loop] in H. inv_ok H. inv_ok H. injection H as <-.
    simpl. f_equal. eapply IH. eassumption.
Qed.

Lemma standard_deviation_returns data count :
  count <= Z.of_nat (length data) ->
  exists x, standard_deviation powf data count = Ok x.
Proof.
  intros Hc. unfold standard_deviation.
  destruct (count <? 1); [eauto|].
  destruct (Z.ltb_spec (Z.of_nat (length data)) count); [lia|eauto].
Qed.

Lemma stddev_loop_returns data spc n i :
  0 < spc -> 0 <= i ->
  (i + Z.of_nat n) * spc <= Z.of_nat (length data) < 2 ^ 32 ->
  exists r, stddev_loop powf data spc n i = Ok r.
Proof.
  intros Hspc. revert i. induction n as [|n IH]; intros i Hi Hfit; [eexists; reflexivity|].
  cbn [stddev_loop].
  rewrite wrap32_small by nia.
  destruct (standard_deviation_returns (drop (Z.to_nat (i * spc)) data) spc) as [x ->].
  { rewrite length_drop. nia. }
  cbn [obind].
  destruct (IH (i + 1)) as [r ->]; [lia|lia|]. cbn [obind]. eauto.
Qed.

Lemma FindMinMaxSamples_size wav p :
  FindMinMaxSamples wav = Ok p -> size wav < 2 ^ 32.
Proof.
  unfold FindMinMaxSamples, size.
  destruct (m_data wav) as [|x xs] eqn:E; [simpl; lia|].
  destruct (Z.leb_spec (2 ^ 32) (Z.of_nat (length (x :: xs)))); [discriminate|lia].
Qed.

Lemma FindMinMaxSamples_returns wav :
  size wav < 2 ^ 32 -> exists p, FindMinMaxSamples wav = Ok p.
Proof.
  unfold FindMinMaxSamples, size. intros Hs.
  destruct (m_data wav) as [|x xs] eqn:E; [eauto|].
  destruct (Z.leb_spec (2 ^ 32) (Z.of_nat (length (x :: xs)))); [lia|eauto].
Qed.

(** Every run that returns went through the main loop with the
    invariant established. *)
Lemma FindSegments_run wav l :
  FindSegmentsInAudioWaveform powf wav = Ok l ->
  exists spc stddev thr s,
    segment_samples_per_chunk wav = Ok spc /\ 0 < spc /\ size wav < 2 ^ 32 /\
    loop_inv stddev thr spc (size wav / spc) (size wav / spc) (l, s).
Proof.
  unfold FindSegmentsInAudioWaveform. intros H.
  inv_ok H. rename a into spc.
  pose proof (cast_unsigned_range _ _ Ha) as Hr.
  destruct (Z.eqb_spec spc 0) as [|Hnz]; [discriminate|].
  inv_ok H. rename a into stddev. inv_ok H. destruct a as [smin smax].
  inv_ok H. destruct a as [l' s]. injection H as <-.
  pose proof (FindMinMaxSamples_size _ _ Ha1) as Hsz.
  assert (Hsz0 : 0 <= size wav) by (unfold size; lia).
  assert (HN : wrap32 (size wav / spc) = size wav / spc).
  { apply wrap32_small. split; [apply Z.div_pos; lia|].
    apply Z.div_lt_upper_bound; nia. }
  rewrite HN in *.
  apply stddev_loop_length in Ha0.
  assert (Hdiv : size wav / spc * spc <= size wav).
  { rewrite Z.mul_comm. apply Z.mul_div_le. lia. }
  assert (HN0 : 0 <= size wav / spc) by (apply Z.div_pos; lia).
  destruct (segment_loop_inv stddev (stddev_threshold_of smin smax) spc (size wav / spc)
              ltac:(lia) ltac:(lia) ltac:(lia)
              (Z.to_nat (size wav / spc)) 0 ([], 0))
    as (st' & Hrun & Hinv); [lia|lia|apply loop_inv_init|].
  rewrite Hrun in Ha2. injection Ha2 as ->.
  exists spc, stddev, (stddev_threshold_of smin smax), s.
  split; [exact Ha|]. split; [lia|]. split; [exact Hsz|]. exact Hinv.
Qed.

(** With a chunk size of at least one and fewer than 2^32 samples the
    segmenter returns. *)
Lemma FindSegments_returns wav spc :
  segment_samples_per_chunk wav = Ok spc -> spc <> 0 -> size wav < 2 ^ 32 ->
  exists l, FindSegmentsInAudioWaveform powf wav = Ok l.
Proof.
  intros Hc Hnz Hsz. unfold FindSegmentsInAudioWaveform. rewrite Hc. cbn [obind].
  pose proof (cast_unsigned_range _ _ Hc) as Hr.
  destruct (Z.eqb_spec spc 0) as [|_]; [contradiction|].
  assert (Hsz0 : 0 <= size wav) by (unfold size; lia).
  assert (HN : wrap32 (size wav / spc) = size wav / spc).
  { apply wrap32_small. split; [apply Z.div_pos; lia|].
    apply Z.div_lt_upper_bound; nia. }
  rewrite HN.
  assert (Hdiv : size wav / spc * spc <= size wav).
  { rewrite Z.mul_comm. apply Z.mul_div_le. lia. }
  assert (HN0 : 0 <= size wav / spc) by (apply Z.div_pos; lia).
  destruct (stddev_loop_returns (m_data wav) spc (Z.to_nat (size wav / spc)) 0)
    as [stddev Hsd]; [lia|lia|unfold size in *; lia|].
  rewrite Hsd. cbn [obind].
  destruct (FindMinMaxSamples_returns wav Hsz) as [[smin smax] ->]. cbn [obind].
  apply stddev_loop_length in Hsd.
  destruct (segment_loop_inv stddev (stddev_threshold_of smin smax) spc (size wav / spc)
              ltac:(lia) ltac:(lia) ltac:(lia)
              (Z.to_nat (size wav / spc)) 0 ([], 0))
    as ([l s] & -> & _); [lia|lia|apply loop_inv_init|].
  cbn [obind]. eauto.
Qed.
End SegmenterRuns.

(** ** The loops of the normalizer *)

Lemma vec_get_lookup {A : Type} (v : list A) (i : Z) (x : A) :
  0 <= i -> v !! Z.to_nat i = Some x -> vec_get v i = Ok x.
Proof.
  intros Hi E. unfold vec_get. destruct (Z.ltb_spec i 0); [lia|]. rewrite E. reflexivity.
Qed.

Lemma vec_get_in_range {A : Type} (v : list A) (i : Z) :
  0 <= i < Z.of_nat (length v) ->
  exists x, v !! Z.to_nat i = Some x /\ vec_get v i = Ok x.
Proof.
  intros Hi. destruct (lookup_lt_is_Some_2 v (Z.to_nat i)) as [x E]; [lia|].
  exists x. split; [exact E|]. apply vec_get_lookup; [lia|exact E].
Qed.

Lemma peak_loop_spec data isample n sub p0 :
  0 <= isample -> 0 <= sub ->
  isample + sub + Z.of_nat n <= Z.of_nat (length data) < 2 ^ 32 ->
  exists p, peak_loop data isample n sub p0 = Ok p /\
    (p = p0 \/ exists i x q, isample + sub <= i < isample + sub + Z.of_nat n
                             /\ data !! Z.to_nat i = Some x /\ p = F32.abs x
                             /\ F32.ltb q p = true).
Proof.
  revert sub p0. induction n as [|n IH]; intros sub p0 Hi Hs Hfit.
  - exists p0. split; [reflexivity|]. left. reflexivity.
  - cbn [peak_loop]. rewrite wrap32_small by lia.
    destruct (vec_get_in_range data (isample + sub)) as (x & Ex & ->); [lia|].
    cbn [obind].
    destruct (IH (sub + 1) (if F32.ltb p0 (F32.abs x) then F32.abs x else p0))
      as (p & -> & Hp); [lia|lia|lia|].
    exists p. split; [reflexivity|].
    destruct Hp as [->|(i & y & q & Hr & Ey & -> & Hq)].
    + destruct (F32.ltb p0 (F32.abs x)) eqn:Elt; [|left; reflexivity].
      right. exists (isample + sub), x, p0.
      split; [lia|]. split; [exact Ex|]. split; [reflexivity|exact Elt].
    + right. exists i, y, q. split; [lia|]. split; [exact Ey|]. split; [reflexivity|exact Hq].
Qed.

Lemma apply_loop_spec gain isample n sub data :
  0 <= isample -> 0 <= sub ->
  isample + sub + Z.of_nat n <= Z.of_nat (length data) ->
  exists data', apply_loop gain isample n sub data = Ok data' /\
    length data' = length data /\
    forall i : nat,
      data' !! i =
        if (isample + sub <=? Z.of_nat i) && (Z.of_nat i <? isample + sub + Z.of_nat n)
        then scaled_by gain <$> data !! i
        else data !! i.
Proof.
  revert sub data. induction n as [|n IH]; intros sub data Hi Hs Hfit.
  - exists data. split; [reflexivity|]. split; [reflexivity|]. intros i.
    destruct (Z.leb_spec (isample + sub) (Z.of_nat i)),
             (Z.ltb_spec (Z.of_nat i) (isample + sub + Z.of_nat 0)); try reflexivity; lia.
  - cbn [apply_loop].
    destruct (vec_get_in_range data (isample + sub)) as (x & Ex & ->); [lia|].
    cbn [obind]. unfold vec_set.
    destruct (Z.leb_spec 0 (isample + sub)); [|lia].
    destruct (Z.ltb_spec (isample + sub) (Z.of_nat (length data))); [|lia].
    cbn [andb obind].
    set (data1 := <[Z.to_nat (isample + sub) := F32.mul x gain]> data).
    assert (Hlen1 : length data1 = length data) by apply length_insert.
    destruct (IH (sub + 1) data1) as (data' & -> & Hlen & Hget); [lia|lia|lia|].
    exists data'. split; [reflexivity|]. split; [lia|]. intros i.
    rewrite Hget. unfold data1.
    destruct (Z.eq_dec (Z.of_nat i) (isample + sub)) as [Heq|Hne].
    + assert (i = Z.to_nat (isample + sub)) as -> by lia.
      rewrite list_lookup_insert_eq by lia. rewrite Ex.
      destruct (Z.leb_spec (isample + (sub + 1)) (Z.of_nat (Z.to_nat (isample + sub)))); [lia|].
      destruct (Z.leb_spec (isample + sub) (Z.of_nat (Z.to_nat (isample + sub)))); [|lia].
      destruct (Z.ltb_spec (Z.of_nat (Z.to_nat (isample + sub)))
                  (isample + sub + Z.of_nat (S n))); [|lia].
      reflexivity.
    + rewrite list_lookup_insert_ne by lia.
      destruct (Z.leb_spec (isample + (sub + 1)) (Z.of_nat i)),
               (Z.ltb_spec (Z.of_nat i) (isample + (sub + 1) + Z.of_nat n)),
               (Z.leb_spec (isample + sub) (Z.of_nat i)),
               (Z.ltb_spec (Z.of_nat i) (isample + sub + Z.of_nat (S n)));
        cbn [andb]; try reflexivity; lia.
Qed.

Lemma chunk_loop_snoc max_vol spc num_chunks n chunk st :
  chunk_loop max_vol spc num_chunks (S n) chunk st
  = do st' <- chunk_loop max_vol spc num_chunks n chunk st;
    chunk_step max_vol spc num_chunks st' (chunk + Z.of_nat n).
Proof.
  revert chunk st. induction n as [|n IH]; intros chunk st.
  - replace (chunk + Z.of_nat 0) with chunk by lia. cbn [chunk_loop obind].
    destruct (chunk_step max_vol spc num_chunks st chunk); reflexivity.
  - change (chunk_loop max_vol spc num_chunks (S (S n)) chunk st)
      with (do st' <- chunk_step max_vol spc num_chunks st chunk;
            chunk_loop max_vol spc num_chunks (S n) (chunk + 1) st').
    change (chunk_loop max_vol spc num_chunks (S n) chunk st)
      with (do st' <- chunk_step max_vol spc num_chunks st chunk;
            chunk_loop max_vol spc num_chunks n (chunk + 1) st').
    destruct (chunk_step max_vol spc num_chunks st chunk) as [st1|f]; [|reflexivity].
    cbn [obind]. rewrite IH.
    replace (chunk + 1 + Z.of_nat n) with (chunk + Z.of_nat (S n)) by lia.
    reflexivity.
Qed.

Lemma apply_loop_length gain isample n sub data data' :
  apply_loop gain isample n sub data = Ok data' -> length data' = length data.
Proof.
  revert sub data. induction n as [|n IH]; intros sub data H.
  - injection H as <-. reflexivity.
  - cbn [apply_loop] in H. inv_ok H. inv_ok H.
    apply IH in H. rewrite H. unfold vec_set in Ha0.
    destruct (_ && _); [|discriminate]. injection Ha0 as <-. apply length_insert.
Qed.

Lemma chunk_step_length max_vol spc num_chunks gain data chunk gain' data' :
  chunk_step max_vol spc num_chunks (gain, data) chunk = Ok (gain', data') ->
  length data' = length data.
Proof.
  unfold chunk_step. intros H. inv_ok H. inv_ok H. inv_ok H.
  injection H as _ <-. eapply apply_loop_length. eassumption.
Qed.

Lemma chunk_loop_length max_vol spc num_chunks n chunk gain data gain' data' :
  chunk_loop max_vol spc num_chunks n chunk (gain, data) = Ok (gain', data') ->
  length data' = length data.
Proof.
  revert chunk gain data. induction n as [|n IH]; intros chunk gain data H.
  - injection H as _ <-. reflexivity.
  - cbn [chunk_loop] in H. inv_ok H. destruct a as [g1 d1].
    apply IH in H. apply chunk_step_length in Ha. lia.
Qed.

Section NormalizerRounds.
Variables (max_vol : float) (samples_per_chunk num_chunks : Z) (data0 : list float).
Hypothesis Hspc : 0 < samples_per_chunk.
Hypothesis Hfit : num_chunks * samples_per_chunk <= Z.of_nat (length data0) < 2 ^ 32.

Lemma chunk_of_inside k i :
  0 <= k < num_chunks ->
  k * samples_per_chunk <= i ->
  (k = num_chunks - 1 \/ i < (k + 1) * samples_per_chunk) ->
  chunk_of samples_per_chunk num_chunks i = k.
Proof.
  intros Hk Hlo Hhi. unfold chunk_of.
  assert (k <= i / samples_per_chunk) by (apply Z.div_le_lower_bound; lia).
  destruct Hhi as [->|Hhi]; [lia|].
  assert (i / samples_per_chunk < k + 1) by (apply Z.div_lt_upper_bound; lia).
  lia.
Qed.

Lemma rounds (k : nat) :
  Z.of_nat k <= num_chunks ->
  exists g d, state_after max_vol samples_per_chunk num_chunks data0 k = Ok (g, d) /\ length d = length data0 /\
    forall i : nat,
      d !! i = if written_after samples_per_chunk num_chunks (Z.of_nat k) (Z.of_nat i)
               then scaled_by (gain_at max_vol samples_per_chunk num_chunks data0 (chunk_of samples_per_chunk num_chunks (Z.of_nat i))) <$> data0 !! i
               else data0 !! i.
Proof.
  induction k as [|k IH]; intros Hk.
  - exists c_1f, data0. split; [reflexivity|]. split; [reflexivity|]. intros i.
    unfold written_after.
    destruct (Z.ltb_spec (Z.of_nat i) (Z.of_nat 0 * samples_per_chunk)); [lia|].
    destruct (Z.eqb_spec (Z.of_nat 0) num_chunks) as [<-|]; reflexivity.
  - destruct IH as (g & d & Hst & Hlen & Hget); [lia|].
    assert (Hk1 : Z.of_nat k < num_chunks) by lia.
    assert (Hsnoc : state_after max_vol samples_per_chunk num_chunks data0 (S k)
                    = chunk_step max_vol samples_per_chunk num_chunks (g, d) (Z.of_nat k)).
    { unfold state_after. rewrite chunk_loop_snoc. fold (state_after max_vol samples_per_chunk num_chunks data0 k). rewrite Hst.
      reflexivity. }
    assert (Hbase : (Z.of_nat k + 1) * samples_per_chunk <= Z.of_nat (length data0)) by nia.
    unfold chunk_step in Hsnoc.
    rewrite (wrap32_small (Z.of_nat k * samples_per_chunk)) in Hsnoc by nia.
    destruct (peak_loop_spec d (Z.of_nat k * samples_per_chunk)
                (Z.to_nat samples_per_chunk) 0 F32.zero) as (p & Hp & _); [nia|lia|lia|].
    rewrite Hp in Hsnoc. cbn [obind] in Hsnoc.
    rewrite (wrap32_small (num_chunks - 1)) in Hsnoc by nia.
    set (g' := update_gain max_vol p g) in *.
    set (count := if Z.of_nat k =? num_chunks - 1
                  then Z.of_nat (length d) - Z.of_nat k * samples_per_chunk
                  else samples_per_chunk).
    assert (Hcount :
      (if Z.of_nat k =? num_chunks - 1
       then if Z.of_nat (length d) <? Z.of_nat k * samples_per_chunk
            then Fault OutOfBounds
            else Ok (Z.of_nat (length d) - Z.of_nat k * samples_per_chunk)
       else Ok samples_per_chunk) = Ok count).
    { unfold count. destruct (Z.of_nat k =? num_chunks - 1); [|reflexivity].
      destruct (Z.ltb_spec (Z.of_nat (length d)) (Z.of_nat k * samples_per_chunk));
        [lia|reflexivity]. }
    rewrite Hcount in Hsnoc. cbn [obind] in Hsnoc.
    assert (Hc : samples_per_chunk <= count
                 /\ Z.of_nat k * samples_per_chunk + count <= Z.of_nat (length d)
                 /\ (Z.of_nat k = num_chunks - 1 ->
                     Z.of_nat k * samples_per_chunk + count = Z.of_nat (length d))
                 /\ (Z.of_nat k <> num_chunks - 1 -> count = samples_per_chunk)).
    { unfold count. destruct (Z.eqb_spec (Z.of_nat k) (num_chunks - 1)); lia. }
    clearbody count.
    destruct (apply_loop_spec g' (Z.of_nat k * samples_per_chunk) (Z.to_nat count) 0 d)
      as (d' & Hap & Hlen' & Hget'); [nia|lia|lia|].
    rewrite Hap in Hsnoc. cbn [obind] in Hsnoc.
    assert (Hgain : gain_at max_vol samples_per_chunk num_chunks data0 (Z.of_nat k) = g').
    { unfold gain_at. rewrite Nat2Z.id, Hsnoc. reflexivity. }
    exists g', d'. split; [exact Hsnoc|]. split; [lia|]. intros i.
    rewrite Hget', Hget. unfold written_after.
    replace (Z.of_nat k * samples_per_chunk + 0 + Z.of_nat (Z.to_nat count))
      with (Z.of_nat k * samples_per_chunk + count) by lia.
    replace (Z.of_nat k * samples_per_chunk + 0)
      with (Z.of_nat k * samples_per_chunk) by lia.
    replace (Z.of_nat (S k)) with (Z.of_nat k + 1) by lia.
    destruct (Z.eqb_spec (Z.of_nat k) num_chunks) as [|_]; [lia|].
    cbn [andb]. rewrite orb_false_r.
    destruct (Z.ltb_spec 0 num_chunks) as [_|]; [|lia]. rewrite andb_true_r.
    destruct (Z.ltb_spec (Z.of_nat i) (Z.of_nat k * samples_per_chunk)) as [Hbefore|Hfrom].
    + (* written in an earlier round *)
      destruct (Z.leb_spec (Z.of_nat k * samples_per_chunk) (Z.of_nat i)); [lia|].
      cbn [andb].
      destruct (Z.ltb_spec (Z.of_nat i) ((Z.of_nat k + 1) * samples_per_chunk)); [|nia].
      reflexivity.
    + destruct (Z.leb_spec (Z.of_nat k * samples_per_chunk) (Z.of_nat i)); [|lia].
      cbn [andb].
      destruct (Z.ltb_spec (Z.of_nat i) (Z.of_nat k * samples_per_chunk + count))
        as [Hin|Hout].
      * (* written in this round *)
        assert (Hck : chunk_of samples_per_chunk num_chunks (Z.of_nat i) = Z.of_nat k).
        { apply chunk_of_inside; [lia|lia|].
          destruct (Z.eq_dec (Z.of_nat k) (num_chunks - 1)) as [|Hne]; [left; lia|].
          right. destruct Hc as (_ & _ & _ & Hc). rewrite (Hc Hne) in Hin. lia. }
        rewrite Hck, Hgain.
        destruct (Z.ltb_spec (Z.of_nat i) ((Z.of_nat k + 1) * samples_per_chunk));
          destruct (Z.eqb_spec (Z.of_nat k + 1) num_chunks); reflexivity || lia.
      * (* not yet written *)
        destruct (Z.ltb_spec (Z.of_nat i) ((Z.of_nat k + 1) * samples_per_chunk)); [lia|].
        destruct (Z.eqb_spec (Z.of_nat k + 1) num_chunks) as [Hlast|]; [|reflexivity].
        cbn [orb].
        assert (data0 !! i = None) as ->; [|reflexivity].
        apply lookup_ge_None. lia.
Qed.
End NormalizerRounds.

(** ** Rounding in binary32 *)

Lemma digits2_pos_spec p :
  2 ^ (Z.pos (digits2_pos p) - 1) <= Z.pos p < 2 ^ Z.pos (digits2_pos p).
Proof.
  induction p as [p IH|p IH|]; cbn [digits2_pos].
  - rewrite Pos2Z.inj_succ. replace (Z.succ (Z.pos (digits2_pos p)) - 1) with (Z.succ (Z.pos (digits2_pos p) - 1)) by lia.
    rewrite !Z.pow_succ_r by lia. lia.
  - rewrite Pos2Z.inj_succ. replace (Z.succ (Z.pos (digits2_pos p)) - 1) with (Z.succ (Z.pos (digits2_pos p) - 1)) by lia.
    rewrite !Z.pow_succ_r by lia. lia.
  - simpl. lia.
Qed.

Lemma Zdigits2_spec m :
  0 < m -> 0 < Zdigits2 m /\ 2 ^ (Zdigits2 m - 1) <= m < 2 ^ Zdigits2 m.
Proof.
  destruct m as [|p|p]; try lia. intros _. cbn [Zdigits2].
  split; [lia|apply digits2_pos_spec].
Qed.

Lemma Zdigits2_le m k : 0 <= m < 2 ^ k -> 0 <= k -> Zdigits2 m <= k.
Proof.
  intros Hm Hk. destruct (Z.eq_dec m 0) as [->|Hnz]; [simpl; lia|].
  destruct (Zdigits2_spec m ltac:(lia)) as (Hd & Hlo & _).
  destruct (Z.le_gt_cases (Zdigits2 m) k) as [|Hgt]; [assumption|].
  assert (2 ^ k <= 2 ^ (Zdigits2 m - 1)) by (apply Z.pow_le_mono_r; lia). lia.
Qed.

Lemma shr_1_m mrs : 0 <= shr_m mrs -> shr_m (shr_1 mrs) = shr_m mrs / 2.
Proof.
  destruct mrs as [m r s]. cbn [shr_m]. intros Hm.
  destruct m as [|[p|p|]|p]; cbn [shr_1 shr_m]; try lia.
  - reflexivity.
  - apply Z.div_unique with (r := 1); lia.
  - apply Z.div_unique with (r := 0); lia.
  - reflexivity.
Qed.

Lemma iter_shr_m p mrs :
  0 <= shr_m mrs -> shr_m (SpecFloat.iter_pos shr_1 p mrs) = shr_m mrs / 2 ^ Z.pos p.
Proof.
  revert mrs. induction p as [p IH|p IH|]; intros mrs Hm; cbn [SpecFloat.iter_pos].
  - assert (H1 : 0 <= shr_m (shr_1 mrs)) by (rewrite shr_1_m by lia; apply Z.div_pos; lia).
    assert (Hp : 0 < 2 ^ Z.pos p) by (apply Z.pow_pos_nonneg; lia).
    assert (H2 : 0 <= shr_m (SpecFloat.iter_pos shr_1 p (shr_1 mrs))).
    { rewrite IH by lia. apply Z.div_pos; lia. }
    rewrite IH by lia. rewrite IH by lia. rewrite shr_1_m by lia.
    rewrite !Z.div_div by lia.
    f_equal.
    replace (Z.pos p~1) with (1 + Z.pos p + Z.pos p) by lia.
    rewrite !Z.pow_add_r by lia. change (2 ^ 1) with 2. lia.
  - assert (Hp : 0 < 2 ^ Z.pos p) by (apply Z.pow_pos_nonneg; lia).
    assert (H2 : 0 <= shr_m (SpecFloat.iter_pos shr_1 p mrs)).
    { rewrite IH by lia. apply Z.div_pos; lia. }
    rewrite IH by lia. rewrite IH by lia.
    rewrite !Z.div_div by lia.
    f_equal.
    replace (Z.pos p~0) with (Z.pos p + Z.pos p) by lia.
    rewrite !Z.pow_add_r by lia. lia.
  - rewrite shr_1_m by lia. reflexivity.
Qed.

Lemma shr_record_of_loc_m m l : shr_m (shr_record_of_loc m l) = m.
Proof. destruct l as [|[| |]]; reflexivity. Qed.

Lemma shr_fexp_spec prec emax m e l :
  0 <= m ->
  exists mrs e', shr_fexp prec emax m e l = (mrs, e')
    /\ e' = Z.max e (fexp prec emax (Zdigits2 m + e))
    /\ shr_m mrs = m / 2 ^ (e' - e).
Proof.
  intros Hm. unfold shr_fexp, shr.
  set (f := fexp prec emax (Zdigits2 m + e)).
  destruct (f - e) as [|n|n] eqn:En.
  - eexists _, _. split; [reflexivity|]. split; [lia|].
    rewrite shr_record_of_loc_m. replace (e - e) with 0 by lia. rewrite Z.div_1_r. reflexivity.
  - eexists _, _. split; [reflexivity|]. split; [lia|].
    rewrite iter_shr_m by (rewrite shr_record_of_loc_m; lia).
    rewrite shr_record_of_loc_m. f_equal. f_equal. lia.
  - eexists _, _. split; [reflexivity|]. split; [lia|].
    rewrite shr_record_of_loc_m. replace (e - e) with 0 by lia. rewrite Z.div_1_r. reflexivity.
Qed.

Lemma round_nearest_even_range m l : m <= round_nearest_even m l <= m + 1.
Proof. destruct l as [|[| |]]; cbn [round_nearest_even]; try lia. destruct (Z.even m); lia. Qed.

Lemma fexp32 e : fexp 24 128 e = Z.max (e - 24) (-149).
Proof. reflexivity. Qed.

Lemma pow2_split a b : 0 <= a -> 0 <= b -> 2 ^ (a + b) = 2 ^ a * 2 ^ b.
Proof. intros. apply Z.pow_add_r; lia. Qed.

Lemma round_below_105 mx ex lx :
  0 <= mx -> ex <= -17 -> mx + 1 <= 105 * 2 ^ (- ex) ->
  gain_ok (binary_round_aux 24 128 false mx ex lx).
Proof.
  intros Hmx Hex Hub. unfold binary_round_aux.
  destruct (shr_fexp_spec 24 128 mx ex lx Hmx) as (mrs1 & e1 & -> & He1 & Hm1).
  set (m1 := shr_m mrs1) in *.
  set (m2 := round_nearest_even m1 (loc_of_shr_record mrs1)).
  pose proof (round_nearest_even_range m1 (loc_of_shr_record mrs1)) as Hm2. fold m2 in Hm2.
  assert (Hp1 : 0 < 2 ^ (e1 - ex)) by (apply Z.pow_pos_nonneg; lia).
  assert (Hm1pos : 0 <= m1) by (rewrite Hm1; apply Z.div_pos; lia).
  destruct (shr_fexp_spec 24 128 m2 e1 loc_Exact ltac:(lia)) as (mrs3 & e3 & -> & He3 & Hm3).
  set (m3 := shr_m mrs3) in *.
  (* the first exponent *)
  assert (Hpex : 0 < 2 ^ (- ex)) by (apply Z.pow_pos_nonneg; lia).
  assert (Hd : Zdigits2 mx + ex <= 7).
  { assert (Zdigits2 mx <= 7 - ex); [|lia].
    apply Zdigits2_le; [|lia]. split; [lia|].
    replace (7 - ex) with (7 + - ex) by lia.
    rewrite pow2_split by lia. change (2 ^ 7) with 128. lia. }
  rewrite fexp32 in He1.
  assert (He1le : e1 <= -17) by lia.
  assert (Hpe1 : 0 < 2 ^ (- e1)) by (apply Z.pow_pos_nonneg; lia).
  assert (Hsplit1 : 2 ^ (- ex) = 2 ^ (- e1) * 2 ^ (e1 - ex)).
  { rewrite <- pow2_split by lia. f_equal. lia. }
  assert (Hm1ub : m1 + 1 <= 105 * 2 ^ (- e1)).
  { pose proof (Z.mul_div_le mx (2 ^ (e1 - ex)) Hp1) as Hlo. rewrite <- Hm1 in Hlo.
    rewrite Hsplit1 in Hub. nia. }
  (* the second exponent *)
  assert (Hd2 : Zdigits2 m2 + e1 <= 7).
  { assert (Zdigits2 m2 <= 7 - e1); [|lia].
    apply Zdigits2_le; [|lia]. split; [lia|].
    replace (7 - e1) with (7 + - e1) by lia.
    rewrite pow2_split by lia. change (2 ^ 7) with 128. lia. }
  rewrite fexp32 in He3.
  assert (He3le : e3 <= -17) by lia.
  assert (Hp3 : 0 < 2 ^ (e3 - e1)) by (apply Z.pow_pos_nonneg; lia).
  assert (Hpe3 : 0 < 2 ^ (- e3)) by (apply Z.pow_pos_nonneg; lia).
  assert (Hsplit3 : 2 ^ (- e1) = 2 ^ (- e3) * 2 ^ (e3 - e1)).
  { rewrite <- pow2_split by lia. f_equal. lia. }
  assert (Hm3pos : 0 <= m3) by (rewrite Hm3; apply Z.div_pos; lia).
  assert (Hm3ub : m3 <= 105 * 2 ^ (- e3)).
  { pose proof (Z.mul_div_le m2 (2 ^ (e3 - e1)) Hp3) as Hlo. rewrite <- Hm3 in Hlo.
    rewrite Hsplit3 in Hm1ub. nia. }
  assert (Hm3lt : m3 < 2 ^ 24).
  { rewrite Hm3. apply Z.div_lt_upper_bound; [lia|].
    destruct (Z.eq_dec m2 0) as [->|Hnz]; [lia|].
    destruct (Zdigits2_spec m2 ltac:(lia)) as (Hdpos & _ & Hlt).
    assert (Hle : 2 ^ Zdigits2 m2 <= 2 ^ (e3 - e1 + 24)) by (apply Z.pow_le_mono_r; lia).
    rewrite pow2_split in Hle by lia. lia. }
  destruct m3 as [|p|p] eqn:Ep; [exact I| |lia].
  destruct (Z.leb_spec e3 (128 - 24)); [|lia].
  cbn [gain_ok]. auto.
Qed.

Lemma compare_cont_Eq_spec m n :
  CompareSpec (Z.pos m = Z.pos n) (Z.pos m < Z.pos n) (Z.pos n < Z.pos m)
    (Pos.compare_cont Eq m n).
Proof.
  change (Pos.compare_cont Eq m n) with (Pos.compare m n).
  destruct (Pos.compare_spec m n); constructor; lia.
Qed.

Lemma gain_ok_leb g : gain_ok g -> SFleb g c_105f = true.
Proof.
  destruct g as [s|s| |[|] m e]; cbn [gain_ok]; try contradiction; [reflexivity|].
  intros (Hm & He & Hv). unfold SFleb, SFcompare, c_105f.
  destruct (Z.compare_spec e (-17)) as [->|Hlt|Hgt]; [|reflexivity|lia].
  change (2 ^ (- -17)) with 131072 in Hv.
  destruct (compare_cont_Eq_spec m 13762560); try reflexivity. lia.
Qed.

Lemma release_below_105 g :
  gain_ok g -> SFltb g c_100f = true -> gain_ok (SFmul 24 128 g c_1_05f).
Proof.
  destruct g as [s|s| |[|] m e]; cbn [gain_ok]; try contradiction; [intros _ _; exact I|].
  intros (Hm & He & Hv) Hlt. unfold SFmul, c_1_05f. cbn [xorb].
  unfold SFltb, SFcompare, c_100f in Hlt.
  apply round_below_105; [lia|lia|].
  rewrite Pos2Z.inj_mul.
  destruct (Z.compare_spec e (-17)) as [->|Hlo|Hhi]; [| |lia].
  - destruct (compare_cont_Eq_spec m 13107200); try discriminate.
    change (2 ^ (- (-17 + -23))) with 1099511627776. lia.
  - assert (Hpow : 2 ^ 41 <= 2 ^ (- (e + -23))) by (apply Z.pow_le_mono_r; lia).
    change (2 ^ 41) with 2199023255552 in Hpow. change (2 ^ 24) with 16777216 in Hm. lia.
Qed.

Lemma canonical_digits m e :
  canonical_mantissa 24 128 m e = true ->
  Z.pos m < 2 ^ 24 /\ (-149 < e -> 2 ^ 23 <= Z.pos m).
Proof.
  unfold canonical_mantissa. rewrite fexp32. intros H. apply Z.eqb_eq in H.
  pose proof (digits2_pos_spec m) as (Hlo & Hhi).
  split.
  - assert (Hle : 2 ^ Z.pos (digits2_pos m) <= 2 ^ 24) by (apply Z.pow_le_mono_r; lia). lia.
  - intros He. assert (Z.pos (digits2_pos m) = 24) as Hd by lia. rewrite Hd in Hlo.
    exact Hlo.
Qed.

Lemma target_ok_intro v :
  valid_binary 24 128 v = true -> SFleb (S754_zero false) v = true -> SFleb v c_1f = true ->
  target_ok v.
Proof.
  destruct v as [s|[|]| |[|] m e]; cbn [valid_binary target_ok]; try discriminate; try (intros; exact I).
  intros Hv _ Hle. unfold bounded in Hv. apply andb_true_iff in Hv. destruct Hv as [Hc _].
  destruct (canonical_digits m e Hc) as (Hm & _).
  unfold SFleb, SFcompare, c_1f in Hle.
  destruct (Z.compare_spec e (-23)) as [->|Hlo|Hhi]; [| |discriminate].
  - split; [lia|]. change (2 ^ (- -23)) with 8388608.
    destruct (compare_cont_Eq_spec m 8388608); try discriminate; lia.
  - split; [lia|].
    assert (Hpow : 2 ^ 24 <= 2 ^ (- e)) by (apply Z.pow_le_mono_r; lia). lia.
Qed.

Lemma divisor_ok_intro p :
  peak_ok p -> SFltb p c_0_02f = false -> divisor_ok p.
Proof.
  destruct p as [[|]|[|]| |[|] m e]; cbn [peak_ok divisor_ok]; try contradiction;
    try discriminate; try (intros; exact I).
  intros Hb Hlt. unfold bounded in Hb. apply andb_true_iff in Hb. destruct Hb as [Hc _].
  destruct (canonical_digits m e Hc) as (Hm & Hn).
  unfold SFltb, SFcompare, c_0_02f in Hlt.
  destruct (Z.compare_spec e (-29)) as [->|Hlo|Hhi]; [|discriminate|].
  - left. split; [reflexivity|].
    destruct (compare_cont_Eq_spec m 10737418); try discriminate; lia.
  - right. split; [lia|]. apply Hn. lia.
Qed.

Lemma div_below_105 v p :
  target_ok v -> divisor_ok p -> gain_ok (SFdiv 24 128 v p).
Proof.
  destruct v as [sv|sv| |[|] mv ev]; cbn [target_ok]; try contradiction;
  destruct p as [sp|[|]| |[|] mp ep]; cbn [divisor_ok]; try contradiction;
    try (intros; exact I).
  intros (Hev & Hv) Hp. unfold SFdiv. cbn [xorb].
  unfold SFdiv_core_binary.
  set (d1 := Zdigits2 (Z.pos mv)). set (d2 := Zdigits2 (Z.pos mp)).
  set (e' := Z.min (fexp 24 128 (d1 + ev - (d2 + ep))) (ev - ep)).
  set (s := ev - ep - e').
  assert (Hs : 0 <= s) by (unfold s, e'; lia).
  set (m' := match s with Z.pos _ => Z.shiftl (Z.pos mv) s | 0 => Z.pos mv | Z.neg _ => 0 end).
  assert (Hm' : m' = Z.pos mv * 2 ^ s).
  { unfold m'. destruct s as [|ps|ps] eqn:Es; [change (2 ^ 0) with 1; lia| |lia].
    apply Z.shiftl_mul_pow2. lia. }
  pose proof (Z.div_eucl_eq m' (Z.pos mp) ltac:(lia)) as Heq.
  pose proof (Z.mod_pos_bound m' (Z.pos mp) ltac:(lia)) as Hr.
  unfold Z.modulo in Hr.
  destruct (Z.div_eucl m' (Z.pos mp)) as [q r] eqn:Ediv.
  (* magnitudes *)
  assert (Hpev : 0 < 2 ^ (- ev)) by (apply Z.pow_pos_nonneg; lia).
  assert (Hd1 : d1 + ev <= 1).
  { destruct (Zdigits2_spec (Z.pos mv) ltac:(lia)) as (Hd1pos & Hlo & _). fold d1 in Hd1pos, Hlo.
    destruct (Z.le_gt_cases (d1 - 1) (- ev)) as [|Hgt]; [lia|].
    assert (2 ^ (- ev + 1) <= 2 ^ (d1 - 1)) by (apply Z.pow_le_mono_r; lia).
    rewrite pow2_split in H by lia. change (2 ^ 1) with 2 in H. lia. }
  assert (Hd2 : -5 <= d2 + ep).
  { destruct (Zdigits2_spec (Z.pos mp) ltac:(lia)) as (Hd2pos & _ & Hhi). fold d2 in Hd2pos, Hhi.
    destruct (Z.le_gt_cases 24 d2) as [|Hlt]; [lia|].
    assert (2 ^ d2 <= 2 ^ 23) by (apply Z.pow_le_mono_r; lia).
    change (2 ^ 23) with 8388608 in *. lia. }
  assert (He' : e' <= -18).
  { unfold e'. rewrite fexp32. lia. }
  apply round_below_105.
  - (* the quotient is not negative *)
    assert (0 <= m') by (rewrite Hm'; apply Z.mul_nonneg_nonneg; [lia|apply Z.pow_nonneg; lia]).
    nia.
  - lia.
  - (* the quotient is below 105 *)
    assert (Hps : 0 < 2 ^ s) by (apply Z.pow_pos_nonneg; lia).
    assert (Hpe' : 2 ^ 18 <= 2 ^ (- e')) by (apply Z.pow_le_mono_r; lia).
    change (2 ^ 18) with 262144 in Hpe'.
    assert (Hnum : m' <= 2 ^ (- ep - e')).
    { rewrite Hm'. replace (- ep - e') with (- ev + s) by (unfold s; lia).
      rewrite pow2_split by lia. nia. }
    assert (Hden : 2 ^ (- ep - e') <= 51 * 2 ^ (- e') * Z.pos mp).
    { destruct Hp as [(-> & Hmp)|(Hep & Hmp)].
      - replace (- -29 - e') with (29 + - e') by lia. rewrite pow2_split by lia.
        change (2 ^ 29) with 536870912. nia.
      - assert (Hle : 2 ^ (- ep - e') <= 2 ^ (28 + - e')) by (apply Z.pow_le_mono_r; lia).
        rewrite pow2_split in Hle by lia. change (2 ^ 28) with 268435456 in Hle.
        change (2 ^ 23) with 8388608 in Hmp. nia. }
    assert (Hq : q <= 51 * 2 ^ (- e')) by nia.
    lia.
Qed.

(** ** Division is antitone in its divisor *)

Lemma new_location_loc A B :
  0 <= A -> 0 < B -> loc_at A B (A / B) (new_location B (A mod B)).
Proof.
  intros HA HB.
  pose proof (Z.div_mod A B ltac:(lia)) as Hdm.
  pose proof (Z.mod_pos_bound A B HB) as Hr.
  set (q := A / B) in *. set (r := A mod B) in *.
  unfold new_location, new_location_even, new_location_odd.
  destruct (Z.even B) eqn:Ev.
  - destruct (Z.eqb_spec r 0) as [Hz|Hnz]; cbn [loc_at]; [lia|].
    split; [nia|].
    destruct (Z.compare_spec (2 * r) B), (Z.compare_spec (2 * A) ((2 * q + 1) * B));
      try reflexivity; nia.
  - destruct (Z.eqb_spec r 0) as [Hz|Hnz]; cbn [loc_at]; [lia|].
    split; [nia|].
    assert (Hodd : 2 * r <> B).
    { intros Heq. rewrite <- Heq in Ev. rewrite Z.even_mul in Ev. discriminate. }
    destruct (Z.compare_spec (2 * r + 1) B), (Z.compare_spec (2 * A) ((2 * q + 1) * B));
      try reflexivity; nia.
Qed.

Lemma loc_of_record_of m l : loc_of_shr_record (shr_record_of_loc m l) = l.
Proof. destruct l as [|[| |]]; reflexivity. Qed.

Lemma shr_1_loc A B mrs :
  0 < B -> 0 <= shr_m mrs ->
  loc_at A B (shr_m mrs) (loc_of_shr_record mrs) ->
  loc_at A (2 * B) (shr_m (shr_1 mrs)) (loc_of_shr_record (shr_1 mrs)).
Proof.
  intros HB Hm. destruct mrs as [m r s]. cbn [shr_m] in *.
  destruct m as [|[p|p|]|p]; [| | | |lia];
    destruct r, s; cbn [shr_1 loc_of_shr_record shr_m orb loc_at];
    intros H;
    repeat match goal with
           | H : _ /\ _ |- _ => destruct H
           | H : (_ ?= _) = Eq |- _ => apply Z.compare_eq_iff in H
           | H : (_ ?= _) = Lt |- _ => apply Z.compare_lt_iff in H
           | H : (_ ?= _) = Gt |- _ => apply Z.compare_gt_iff in H
           end;
    try lia;
    (split; [lia|]);
    first [apply Z.compare_eq_iff; lia | apply Z.compare_lt_iff; lia
          | apply Z.compare_gt_iff; lia].
Qed.

Lemma iter_shr_loc A p : forall B mrs,
  0 < B -> 0 <= shr_m mrs ->
  loc_at A B (shr_m mrs) (loc_of_shr_record mrs) ->
  loc_at A (B * 2 ^ Z.pos p) (shr_m (SpecFloat.iter_pos shr_1 p mrs))
    (loc_of_shr_record (SpecFloat.iter_pos shr_1 p mrs)).
Proof.
  induction p as [p IH|p IH|]; intros B mrs HB Hm H; cbn [SpecFloat.iter_pos].
  - assert (Hp : 0 < 2 ^ Z.pos p) by (apply Z.pow_pos_nonneg; lia).
    pose proof (shr_1_loc A B mrs HB Hm H) as H1.
    assert (Hm1 : 0 <= shr_m (shr_1 mrs)) by (rewrite shr_1_m by lia; apply Z.div_pos; lia).
    pose proof (IH (2 * B) (shr_1 mrs) ltac:(lia) Hm1 H1) as H2.
    assert (Hm2 : 0 <= shr_m (SpecFloat.iter_pos shr_1 p (shr_1 mrs))).
    { rewrite iter_shr_m by lia. apply Z.div_pos; lia. }
    pose proof (IH (2 * B * 2 ^ Z.pos p) _ ltac:(nia) Hm2 H2) as H3.
    replace (B * 2 ^ Z.pos p~1) with (2 * B * 2 ^ Z.pos p * 2 ^ Z.pos p); [exact H3|].
    replace (Z.pos p~1) with (1 + Z.pos p + Z.pos p) by lia.
    rewrite !Z.pow_add_r by lia. change (2 ^ 1) with 2. lia.
  - assert (Hp : 0 < 2 ^ Z.pos p) by (apply Z.pow_pos_nonneg; lia).
    pose proof (IH B mrs HB Hm H) as H2.
    assert (Hm2 : 0 <= shr_m (SpecFloat.iter_pos shr_1 p mrs)).
    { rewrite iter_shr_m by lia. apply Z.div_pos; lia. }
    pose proof (IH (B * 2 ^ Z.pos p) _ ltac:(nia) Hm2 H2) as H3.
    replace (B * 2 ^ Z.pos p~0) with (B * 2 ^ Z.pos p * 2 ^ Z.pos p); [exact H3|].
    replace (Z.pos p~0) with (Z.pos p + Z.pos p) by lia.
    rewrite !Z.pow_add_r by lia. lia.
  - replace (B * 2 ^ 1) with (2 * B) by (change (2 ^ 1) with 2; lia).
    apply shr_1_loc; assumption.
Qed.

(** The first step of the rounding: the shift to the exponent of the
    format keeps the value located. *)
Lemma shr_fexp_loc A B m e l :
  0 < B -> 0 <= m -> loc_at A B m l ->
  exists mrs e', shr_fexp 24 128 m e l = (mrs, e')
    /\ e' = Z.max e (fexp 24 128 (Zdigits2 m + e))
    /\ shr_m mrs = m / 2 ^ (e' - e)
    /\ loc_at A (B * 2 ^ (e' - e)) (shr_m mrs) (loc_of_shr_record mrs).
Proof.
  intros HB Hm H. unfold shr_fexp, shr.
  set (f := fexp 24 128 (Zdigits2 m + e)).
  destruct (f - e) as [|n|n] eqn:En.
  - eexists _, _. split; [reflexivity|]. split; [lia|].
    rewrite shr_record_of_loc_m, loc_of_record_of.
    replace (e - e) with 0 by lia. rewrite Z.div_1_r. change (2 ^ 0) with 1.
    rewrite Z.mul_1_r. split; [reflexivity|exact H].
  - eexists _, _. split; [reflexivity|]. split; [lia|].
    replace (e + Z.pos n - e) with (Z.pos n) by lia.
    split.
    + rewrite iter_shr_m by (rewrite shr_record_of_loc_m; lia).
      rewrite shr_record_of_loc_m. reflexivity.
    + apply iter_shr_loc; [exact HB|rewrite shr_record_of_loc_m; lia|].
      rewrite shr_record_of_loc_m, loc_of_record_of. exact H.
  - eexists _, _. split; [reflexivity|]. split; [lia|].
    rewrite shr_record_of_loc_m, loc_of_record_of.
    replace (e - e) with 0 by lia. rewrite Z.div_1_r. change (2 ^ 0) with 1.
    rewrite Z.mul_1_r. split; [reflexivity|exact H].
Qed.

(** Rounding to nearest even is monotone in the value located. *)
Lemma round_nearest_even_mono A B m l A' B' m' l' :
  0 < B -> 0 < B' ->
  loc_at A B m l -> loc_at A' B' m' l' ->
  A * B' <= A' * B ->
  round_nearest_even m l <= round_nearest_even m' l'.
Proof.
  intros HB HB' H H' Hle.
  pose proof (round_nearest_even_range m l) as Hr.
  pose proof (round_nearest_even_range m' l') as Hr'.
  assert (H1 : m * B <= A) by (destruct l; cbn [loc_at] in H; lia).
  assert (H2 : A' < (m' + 1) * B') by (destruct l'; cbn [loc_at] in H'; lia).
  assert (Hfloor : m <= m').
  { assert (m * (B * B') < (m' + 1) * (B * B')) by nia.
    assert (0 < B * B') by nia. nia. }
  destruct (Z.eq_dec m m') as [<-|Hne]; [|lia].
  destruct l as [|c], l' as [|c']; cbn [loc_at round_nearest_even] in *.
  - lia.
  - lia.
  - destruct H as [Hin _]. exfalso. assert (m * B * B' < A * B') by nia. nia.
  - destruct H as [Hin Hc], H' as [Hin' Hc'].
    destruct (Z.compare_spec (2 * A) ((2 * m + 1) * B)) as [E|E|E];
      destruct (Z.compare_spec (2 * A') ((2 * m + 1) * B')) as [E'|E'|E'];
      subst c c'; try (destruct (Z.even m)); try lia; exfalso; nia.
Qed.

Lemma second_step m2 e1 :
  0 <= m2 <= 2 ^ 24 -> -149 <= e1 ->
  (let '(mrs, e) := shr_fexp 24 128 m2 e1 loc_Exact in
   match shr_m mrs with
   | 0 => S754_zero false
   | Z.pos m => if e <=? 128 - 24 then S754_finite false m e else S754_infinity false
   | Z.neg _ => S754_nan
   end) = norm32 m2 e1.
Proof.
  intros Hm He.
  destruct (shr_fexp_spec 24 128 m2 e1 loc_Exact ltac:(lia)) as (mrs & e & -> & Hex & Hm3).
  rewrite fexp32 in Hex. unfold norm32.
  destruct (Z.eqb_spec m2 0) as [->|Hnz].
  - rewrite Z.div_0_l in Hm3 by (apply Z.pow_nonzero; lia). rewrite Hm3. reflexivity.
  - destruct (Z.ltb_spec m2 (2 ^ 24)) as [Hlt|Hge].
    + assert (Hd : Zdigits2 m2 <= 24) by (apply Zdigits2_le; lia).
      assert (e = e1) as -> by lia.
      replace (e1 - e1) with 0 in Hm3 by lia. rewrite Z.div_1_r in Hm3. rewrite Hm3.
      destruct m2 as [|p|p]; try lia. reflexivity.
    + assert (m2 = 2 ^ 24) as -> by lia.
      change (Zdigits2 (2 ^ 24)) with 25 in Hex.
      assert (e = e1 + 1) as -> by lia.
      replace (e1 + 1 - e1) with 1 in Hm3 by lia. change (2 ^ 24 / 2 ^ 1) with (2 ^ 23) in Hm3.
      rewrite Hm3. reflexivity.
Qed.

(** The rounding of a located value, in two steps. *)
Lemma binary_round_aux_steps A B q e l :
  0 < B -> 0 <= q -> loc_at A B q l ->
  exists m1 l1 e1,
    binary_round_aux 24 128 false q e l = norm32 (round_nearest_even m1 l1) e1
    /\ e1 = Z.max e (fexp 24 128 (Zdigits2 q + e))
    /\ m1 = q / 2 ^ (e1 - e)
    /\ loc_at A (B * 2 ^ (e1 - e)) m1 l1
    /\ 0 <= m1 < 2 ^ 24.
Proof.
  intros HB Hq Hloc. unfold binary_round_aux.
  destruct (shr_fexp_loc A B q e l HB Hq Hloc) as (mrs & e1 & -> & He1 & Hm1 & Hl1).
  exists (shr_m mrs), (loc_of_shr_record mrs), e1.
  assert (Hp : 0 < 2 ^ (e1 - e)) by (apply Z.pow_pos_nonneg; lia).
  assert (Hm1r : 0 <= shr_m mrs < 2 ^ 24).
  { rewrite Hm1. split; [apply Z.div_pos; lia|].
    apply Z.div_lt_upper_bound; [lia|].
    destruct (Z.eq_dec q 0) as [->|Hnz]; [lia|].
    destruct (Zdigits2_spec q ltac:(lia)) as (Hd & _ & Hlt).
    rewrite fexp32 in He1.
    assert (Hle : 2 ^ Zdigits2 q <= 2 ^ (e1 - e + 24)) by (apply Z.pow_le_mono_r; lia).
    rewrite pow2_split in Hle by lia. lia. }
  pose proof (round_nearest_even_range (shr_m mrs) (loc_of_shr_record mrs)) as Hr.
  rewrite fexp32 in He1.
  rewrite second_step by lia.
  split; [reflexivity|]. rewrite fexp32. split; [exact He1|]. split; [exact Hm1|].
  split; [exact Hl1|exact Hm1r].
Qed.

Lemma norm32_mono m2 m2' e1 :
  0 <= m2 <= m2' -> m2' <= 2 ^ 24 ->
  SFleb (norm32 m2 e1) (norm32 m2' e1) = true.
Proof.
  intros Hm Hm'. unfold norm32.
  destruct (Z.eqb_spec m2 0) as [->|Hnz].
  - destruct (Z.eqb_spec m2' 0); [reflexivity|].
    destruct (m2' <? 2 ^ 24); [destruct (e1 <=? 104)|destruct (e1 + 1 <=? 104)]; reflexivity.
  - destruct (Z.eqb_spec m2' 0); [lia|].
    destruct (Z.ltb_spec m2 (2 ^ 24)) as [Hlt|Hge];
      destruct (Z.ltb_spec m2' (2 ^ 24)) as [Hlt'|Hge']; try lia.
    + destruct (Z.leb_spec e1 104); [|reflexivity].
      unfold SFleb, SFcompare. rewrite Z.compare_refl.
      change (Pos.compare_cont Eq (Z.to_pos m2) (Z.to_pos m2'))
        with (Pos.compare (Z.to_pos m2) (Z.to_pos m2')).
      destruct (Pos.compare_spec (Z.to_pos m2) (Z.to_pos m2')); try reflexivity. lia.
    + destruct (Z.leb_spec e1 104), (Z.leb_spec (e1 + 1) 104); try reflexivity; try lia.
      unfold SFleb, SFcompare.
      destruct (Z.compare_spec e1 (e1 + 1)); try reflexivity; lia.
    + destruct (Z.leb_spec (e1 + 1) 104); [|reflexivity].
      unfold SFleb, SFcompare. rewrite Z.compare_refl.
      change (Pos.compare_cont Eq (Z.to_pos (2 ^ 23)) (Z.to_pos (2 ^ 23)))
        with (Pos.compare (Z.to_pos (2 ^ 23)) (Z.to_pos (2 ^ 23))).
      rewrite Pos.compare_refl. reflexivity.
Qed.

Lemma norm32_mono_exp m2 m2' e1 e1' :
  0 <= m2 <= 2 ^ 24 -> 2 ^ 23 <= m2' <= 2 ^ 24 -> e1 < e1' ->
  SFleb (norm32 m2 e1) (norm32 m2' e1') = true.
Proof.
  intros Hm Hm' He. unfold norm32.
  change (2 ^ 23) with 8388608 in *. change (2 ^ 24) with 16777216 in *.
  destruct (Z.eqb_spec m2' 0); [lia|].
  destruct (Z.eqb_spec m2 0) as [->|Hnz].
  - destruct (m2' <? 16777216); [destruct (e1' <=? 104)|destruct (e1' + 1 <=? 104)]; reflexivity.
  - destruct (Z.ltb_spec m2 16777216) as [Hlt|Hge];
      destruct (Z.ltb_spec m2' 16777216) as [Hlt'|Hge'];
      repeat match goal with
             | |- context [?a <=? 104] => destruct (Z.leb_spec a 104)
             end; try reflexivity; try lia;
      unfold SFleb, SFcompare;
      match goal with
      | |- context [?a ?= ?b] => destruct (Z.compare_spec a b)
      end; try reflexivity; try lia.
    subst e1'.
    change (Pos.compare_cont Eq (Z.to_pos 8388608) (Z.to_pos m2'))
      with (Pos.compare (Z.to_pos 8388608) (Z.to_pos m2')).
    destruct (Pos.compare_spec (Z.to_pos 8388608) (Z.to_pos m2')); try reflexivity. lia.
Qed.

(** The division of two positive finite floats: the quotient of the
    aligned mantissas, located, then rounded. *)
Lemma SFdiv_steps mv ev mp ep :
  let X := Zdigits2 (Z.pos mv) + ev - (Zdigits2 (Z.pos mp) + ep) in
  let e' := Z.min (fexp 24 128 X) (ev - ep) in
  let s := ev - ep - e' in
  let A := Z.pos mv * 2 ^ s in
  SFdiv 24 128 (S754_finite false mv ev) (S754_finite false mp ep)
  = binary_round_aux 24 128 false (A / Z.pos mp) e' (new_location (Z.pos mp) (A mod Z.pos mp)).
Proof.
  intros X e' s A. unfold SFdiv, SFdiv_core_binary. cbn [xorb].
  fold X. fold e'. fold s.
  assert (Hs : 0 <= s) by (unfold s, e'; lia).
  assert (Hm' : match s with Z.pos _ => Z.shiftl (Z.pos mv) s | 0 => Z.pos mv | Z.neg _ => 0 end = A).
  { unfold A. destruct s as [|ps|ps] eqn:Es; [change (2 ^ 0) with 1; lia| |lia].
    apply Z.shiftl_mul_pow2. lia. }
  rewrite Hm'. unfold Z.div, Z.modulo.
  destruct (Z.div_eucl A (Z.pos mp)) as [q r]. reflexivity.
Qed.

Lemma quotient_digits mv mp s :
  0 <= s -> Zdigits2 (Z.pos mp) = 24 ->
  Zdigits2 (Z.pos mv) + s - 24 <= Zdigits2 (Z.pos mv * 2 ^ s / Z.pos mp).
Proof.
  intros Hs Hdp.
  destruct (Zdigits2_spec (Z.pos mv) ltac:(lia)) as (Hd1 & Hlo1 & _).
  destruct (Zdigits2_spec (Z.pos mp) ltac:(lia)) as (_ & _ & Hhip). rewrite Hdp in Hhip.
  set (d1 := Zdigits2 (Z.pos mv)) in *.
  set (q := Z.pos mv * 2 ^ s / Z.pos mp).
  assert (Hps : 0 < 2 ^ s) by (apply Z.pow_pos_nonneg; lia).
  assert (Hq0 : 0 <= q) by (apply Z.div_pos; nia).
  destruct (Z.le_gt_cases (d1 + s - 24) 0) as [Hsmall|Hbig].
  - destruct (Z.eq_dec q 0) as [->|Hnz]; [simpl; lia|].
    destruct (Zdigits2_spec q ltac:(lia)) as (Hdq & _). lia.
  - assert (Hqlo : 2 ^ (d1 + s - 25) <= q).
    { apply Z.div_le_lower_bound; [lia|].
      assert (Hsplit : 2 ^ (d1 - 1) * 2 ^ s = 2 ^ (d1 + s - 25) * 2 ^ 24).
      { rewrite <- !pow2_split by lia. f_equal. lia. }
      assert (0 < 2 ^ (d1 + s - 25)) by (apply Z.pow_pos_nonneg; lia).
      nia. }
    assert (Hqpos : 0 < q).
    { assert (0 < 2 ^ (d1 + s - 25)) by (apply Z.pow_pos_nonneg; lia). lia. }
    destruct (Zdigits2_spec q Hqpos) as (Hdq & _ & Hhi).
    destruct (Z.le_gt_cases (d1 + s - 24) (Zdigits2 q)) as [|Hlt]; [assumption|].
    assert (2 ^ Zdigits2 q <= 2 ^ (d1 + s - 25)) by (apply Z.pow_le_mono_r; lia). lia.
Qed.

Lemma fexp32_mono a b : a <= b -> fexp 24 128 a <= fexp 24 128 b.
Proof. rewrite !fexp32. lia. Qed.

(** Division is antitone in a normal divisor. *)
Lemma div_mono_divisor mv ev mp ep mc ec :
  Zdigits2 (Z.pos mp) = 24 -> Zdigits2 (Z.pos mc) = 24 ->
  ec < ep \/ (ec = ep /\ Z.pos mc <= Z.pos mp) ->
  SFleb (SFdiv 24 128 (S754_finite false mv ev) (S754_finite false mp ep))
        (SFdiv 24 128 (S754_finite false mv ev) (S754_finite false mc ec)) = true.
Proof.
  intros Hdp Hdc Hord.
  rewrite !SFdiv_steps. rewrite Hdp, Hdc.
  set (d1 := Zdigits2 (Z.pos mv)).
  set (Xp := d1 + ev - (24 + ep)). set (Xc := d1 + ev - (24 + ec)).
  set (e'p := Z.min (fexp 24 128 Xp) (ev - ep)).
  set (e'c := Z.min (fexp 24 128 Xc) (ev - ec)).
  set (sp := ev - ep - e'p). set (sc := ev - ec - e'c).
  set (Ap := Z.pos mv * 2 ^ sp). set (Ac := Z.pos mv * 2 ^ sc).
  assert (Hsp : 0 <= sp) by (unfold sp, e'p; lia).
  assert (Hsc : 0 <= sc) by (unfold sc, e'c; lia).
  assert (Hpsp : 0 < 2 ^ sp) by (apply Z.pow_pos_nonneg; lia).
  assert (Hpsc : 0 < 2 ^ sc) by (apply Z.pow_pos_nonneg; lia).
  assert (HAp : 0 <= Ap) by (unfold Ap; nia).
  assert (HAc : 0 <= Ac) by (unfold Ac; nia).
  pose proof (fexp32_mono Xp Xc ltac:(unfold Xp, Xc; lia)) as HfX.
  set (j := ep - ec). set (k := e'c - e'p).
  assert (Hj : 0 <= j) by (unfold j; lia).
  assert (Hk : 0 <= k) by (unfold k, e'c, e'p; lia).
  assert (Hpj : 0 < 2 ^ j) by (apply Z.pow_pos_nonneg; lia).
  assert (Hpk : 0 < 2 ^ k) by (apply Z.pow_pos_nonneg; lia).
  (* the divisors, and the two aligned numerators *)
  destruct (Zdigits2_spec (Z.pos mp) ltac:(lia)) as (_ & Hlop & Hhip). rewrite Hdp in Hlop, Hhip.
  destruct (Zdigits2_spec (Z.pos mc) ltac:(lia)) as (_ & Hloc & Hhic). rewrite Hdc in Hloc, Hhic.
  change (2 ^ (24 - 1)) with 8388608 in *. change (2 ^ 24) with 16777216 in *.
  assert (HV : Z.pos mc <= Z.pos mp * 2 ^ j).
  { destruct Hord as [Hlt|(Heq & Hm)].
    - assert (2 ^ 1 <= 2 ^ j) by (apply Z.pow_le_mono_r; unfold j; lia).
      change (2 ^ 1) with 2 in *. nia.
    - replace j with 0 by (unfold j; lia). change (2 ^ 0) with 1. lia. }
  assert (HA : Ap * 2 ^ j = Ac * 2 ^ k).
  { unfold Ap, Ac. rewrite <- !Z.mul_assoc, <- !pow2_split by lia.
    f_equal. f_equal. unfold sp, sc, j, k. lia. }
  assert (HXY : Ap * Z.pos mc <= Ac * 2 ^ k * Z.pos mp) by (rewrite <- HA; nia).
  (* the two roundings *)
  destruct (binary_round_aux_steps Ap (Z.pos mp) (Ap / Z.pos mp) e'p
              (new_location (Z.pos mp) (Ap mod Z.pos mp)))
    as (m1p & l1p & e1p & -> & He1p & Hm1p & Hlp & Hrp);
    [lia|apply Z.div_pos; lia|apply new_location_loc; lia|].
  destruct (binary_round_aux_steps Ac (Z.pos mc) (Ac / Z.pos mc) e'c
              (new_location (Z.pos mc) (Ac mod Z.pos mc)))
    as (m1c & l1c & e1c & -> & He1c & Hm1c & Hlc & Hrc);
    [lia|apply Z.div_pos; lia|apply new_location_loc; lia|].
  set (qp := Ap / Z.pos mp) in *. set (qc := Ac / Z.pos mc) in *.
  assert (Hqp : 0 <= qp) by (apply Z.div_pos; lia).
  assert (Hqc : 0 <= qc) by (apply Z.div_pos; lia).
  pose proof (quotient_digits mv mp sp Hsp Hdp) as Hdqp. fold d1 Ap qp in Hdqp.
  pose proof (quotient_digits mv mc sc Hsc Hdc) as Hdqc. fold d1 Ac qc in Hdqc.
  (* the quotients *)
  assert (Hqlt : qp < (qc + 1) * 2 ^ k).
  { pose proof (Z.mul_div_le Ap (Z.pos mp) ltac:(lia)) as H1. fold qp in H1.
    pose proof (Z.mul_succ_div_gt Ac (Z.pos mc) ltac:(lia)) as H2. fold qc in H2.
    assert (Ha : qp * Z.pos mp * 2 ^ j <= Ap * 2 ^ j).
    { apply Z.mul_le_mono_nonneg_r; lia. }
    assert (Hb : Ac * 2 ^ k < Z.pos mc * (qc + 1) * 2 ^ k).
    { apply Z.mul_lt_mono_pos_r; lia. }
    assert (Hc : Z.pos mc * ((qc + 1) * 2 ^ k) <= Z.pos mp * 2 ^ j * ((qc + 1) * 2 ^ k)).
    { apply Z.mul_le_mono_nonneg_r; [nia|lia]. }
    assert (H3 : qp * (Z.pos mp * 2 ^ j) < (qc + 1) * 2 ^ k * (Z.pos mp * 2 ^ j)) by lia.
    assert (H4 : 0 < Z.pos mp * 2 ^ j) by nia.
    apply Z.mul_lt_mono_pos_r in H3; [exact H3|exact H4]. }
  assert (Hdig : Zdigits2 qp <= Zdigits2 qc + k).
  { apply Zdigits2_le; [|destruct (Z.eq_dec qc 0) as [->|]; [simpl; lia|];
                          destruct (Zdigits2_spec qc ltac:(lia)); lia].
    split; [lia|]. rewrite pow2_split;
      [|destruct (Z.eq_dec qc 0) as [->|]; [simpl; lia|];
        destruct (Zdigits2_spec qc ltac:(lia)); lia|lia].
    destruct (Z.eq_dec qc 0) as [Hz|Hnz].
    - rewrite Hz in *. change (Zdigits2 0) with 0. change (2 ^ 0) with 1. lia.
    - destruct (Zdigits2_spec qc ltac:(lia)) as (_ & _ & Hhi). nia. }
  assert (HfXp : fexp 24 128 Xp <= fexp 24 128 (Zdigits2 qp + e'p)).
  { apply fexp32_mono. unfold Xp, sp in *. lia. }
  assert (HfXc : fexp 24 128 Xc <= fexp 24 128 (Zdigits2 qc + e'c)).
  { apply fexp32_mono. unfold Xc, sc in *. lia. }
  assert (He1p' : e1p = fexp 24 128 (Zdigits2 qp + e'p)) by (unfold e'p in *; lia).
  assert (He1c' : e1c = fexp 24 128 (Zdigits2 qc + e'c)) by (unfold e'c in *; lia).
  assert (Hele : e1p <= e1c).
  { rewrite He1p', He1c'. apply fexp32_mono. unfold k in Hdig. lia. }
  pose proof (round_nearest_even_range m1p l1p) as Hr2p.
  pose proof (round_nearest_even_range m1c l1c) as Hr2c.
  destruct (Z.eq_dec e1p e1c) as [Heq|Hne].
  - (* same exponent: compare the rounded mantissas *)
    rewrite Heq in *.
    apply norm32_mono; [|lia]. split; [lia|].
    assert (Hpnc : 0 < 2 ^ (e1c - e'c)) by (apply Z.pow_pos_nonneg; lia).
    assert (Hpnp : 2 ^ (e1c - e'p) = 2 ^ (e1c - e'c) * 2 ^ k).
    { rewrite <- pow2_split by lia. f_equal. unfold k. lia. }
    apply (round_nearest_even_mono Ap (Z.pos mp * 2 ^ (e1c - e'p)) m1p l1p
             Ac (Z.pos mc * 2 ^ (e1c - e'c)) m1c l1c);
      [rewrite Hpnp; nia|nia|exact Hlp|exact Hlc|].
    rewrite Hpnp. nia.
  - (* the rounding of the larger quotient has the larger exponent *)
    apply norm32_mono_exp; [lia| |lia].
    rewrite fexp32 in He1c', He1p'.
    assert (Hn : e1c - e'c = Zdigits2 qc - 24) by lia.
    assert (Hqcpos : 0 < qc).
    { destruct (Z.eq_dec qc 0) as [Hz|]; [|lia]. rewrite Hz in *.
      change (Zdigits2 0) with 0 in *. unfold e'c in *. lia. }
    destruct (Zdigits2_spec qc Hqcpos) as (_ & Hqlo & _).
    split; [|lia].
    assert (2 ^ 23 <= m1c); [|lia].
    rewrite Hm1c, Hn. apply Z.div_le_lower_bound; [apply Z.pow_pos_nonneg; lia|].
    rewrite Z.mul_comm, <- pow2_split by lia.
    replace (23 + (Zdigits2 qc - 24)) with (Zdigits2 qc - 1) by lia. exact Hqlo.
Qed.

(** * The properties of the design document *)

(** ** Segmenter: order of the segments *)

(** C5, as amended.  The segments a run returns have strictly ascending
    starts, and each one ends at most two chunks after the next one
    starts. *)
Theorem segments_ascending_two_chunk_overlap powf wav spc l :
  FindSegmentsInAudioWaveform powf wav = Ok l ->
  segment_samples_per_chunk wav = Ok spc ->
  adjacent (follows (2 * spc)) l.
Proof.
  intros Hrun Hspc.
  destruct (FindSegments_run powf wav l Hrun) as (spc' & sd & thr & s & Hspc' & _ & _ & Hinv).
  rewrite Hspc in Hspc'. injection Hspc' as <-.
  destruct Hinv as (_ & _ & Hadj & _). exact Hadj.
Qed.

Lemma segments_ascending_two_chunk_overlap_witness :
  FindSegmentsInAudioWaveform powf_exact wav_overlap
    = Ok [ {| m_start := 4; m_count := 20 |}; {| m_start := 20; m_count := 8 |} ]
  /\ segment_samples_per_chunk wav_overlap = Ok 2
  /\ adjacent (follows (2 * 2))
       [ {| m_start := 4; m_count := 20 |}; {| m_start := 20; m_count := 8 |} ].
Proof.
  split; [vm_compute; reflexivity|]. split; [vm_compute; reflexivity|].
  apply (segments_ascending_two_chunk_overlap powf_exact wav_overlap 2);
    vm_compute; reflexivity.
Defined.

(** C5 as stated fails: on [wav_overlap] the first segment covers samples
    4 to 24 and the second one starts at sample 20. *)
Lemma segments_overlap_counterexample :
  FindSegmentsInAudioWaveform powf_exact wav_overlap
    = Ok [ {| m_start := 4; m_count := 20 |}; {| m_start := 20; m_count := 8 |} ]
  /\ ~ adjacent disjoint_ascending
         [ {| m_start := 4; m_count := 20 |}; {| m_start := 20; m_count := 8 |} ].
Proof.
  split; [vm_compute; reflexivity|].
  intros [[_ H] _]. cbn [m_start m_count] in H. lia.
Qed.

(** ** Segmenter: shape of each segment *)

(** C10.  At every tick of the main loop the number of loud chunks
    counted is at most the tick, so [tick - recent_loud] does not wrap;
    and every returned segment is non-empty and lies inside the buffer. *)
Theorem segments_inside_buffer :
  (forall stddev thr tick,
      0 <= tick < Z.of_nat (length stddev) -> tick < 2 ^ 32 ->
      exists recent_quiet recent_loud,
        recent_counts stddev thr tick = Ok (recent_quiet, recent_loud)
        /\ 0 <= recent_loud <= tick
        /\ wrap32 (tick - recent_loud) = tick - recent_loud)
  /\ (forall powf wav l,
      FindSegmentsInAudioWaveform powf wav = Ok l ->
      Forall (fun g => 0 < m_count g /\ m_start g + m_count g <= size wav) l).
Proof.
  split.
  - intros stddev thr tick Ht Ht32.
    exists (recent_quiet_at stddev thr tick), (recent_loud_at stddev thr tick).
    split; [apply recent_counts_eq; lia|].
    pose proof (recent_loud_at_range stddev thr tick ltac:(lia)) as Hl.
    split; [lia|]. apply wrap32_small. lia.
  - intros powf wav l Hrun.
    destruct (FindSegments_run powf wav l Hrun)
      as (spc & sd & thr & s & _ & Hspc & Hsz & Hinv).
    destruct Hinv as (_ & Hall & _ & _).
    assert (Hdiv : size wav / spc * spc <= size wav).
    { rewrite Z.mul_comm. apply Z.mul_div_le. lia. }
    eapply Forall_impl; [exact Hall|].
    intros g (a & b & -> & Ha & Hab & Hb). unfold seg_of; cbn [m_start m_count].
    split; [nia|]. nia.
Qed.

Lemma segments_inside_buffer_witness :
  (exists recent_quiet recent_loud,
      recent_counts [F32.zero; half; half; half] c_0_05f 3 = Ok (recent_quiet, recent_loud)
      /\ 0 <= recent_loud <= 3
      /\ wrap32 (3 - recent_loud) = 3 - recent_loud)
  /\ FindSegmentsInAudioWaveform powf_exact wav_overlap
    = Ok [ {| m_start := 4; m_count := 20 |}; {| m_start := 20; m_count := 8 |} ]
  /\ Forall (fun g => 0 < m_count g /\ m_start g + m_count g <= size wav_overlap)
       [ {| m_start := 4; m_count := 20 |}; {| m_start := 20; m_count := 8 |} ].
Proof.
  split.
  { apply (proj1 segments_inside_buffer [F32.zero; half; half; half] c_0_05f 3);
      [simpl; lia|lia]. }
  split; [vm_compute; reflexivity|].
  apply (proj2 segments_inside_buffer powf_exact wav_overlap).
  vm_compute; reflexivity.
Defined.

(** ** Segmenter: the window convention *)

Lemma louds_from_count stddev thr n j :
  louds_from stddev thr n j
  = count_if (fun j => negb (quiet_position not_after_start stddev thr j)) (positions n j).
Proof.
  revert j. induction n as [|n IH]; intros j; [reflexivity|].
  cbn [louds_from positions count_if]. rewrite IH. f_equal. f_equal.
  unfold loud_at, quiet_position, not_after_start.
  destruct (Z.ltb_spec 0 j), (Z.leb_spec j 0); try lia; reflexivity.
Qed.

Lemma count_if_negb P l : count_if P l + count_if (fun j => negb (P j)) l = Z.of_nat (length l).
Proof.
  induction l as [|j l IH]; [reflexivity|].
  cbn [count_if length]. destruct (P j); cbn [negb Z.b2z]; lia.
Qed.

Lemma positions_length n j : length (positions n j) = n.
Proof. revert j. induction n as [|n IH]; intros j; [reflexivity|]. simpl. f_equal. apply IH. Qed.

(** C4, as amended.  At a tick below 2^31 the ten window positions are
    counted with exactly the positions of index at most zero quiet by
    convention, every position above zero classified by comparing the
    standard deviation of its chunk with the threshold, and the two
    counts add up to ten. *)
Theorem window_convention stddev thr tick :
  0 <= tick < Z.of_nat (length stddev) -> tick < 2 ^ 31 ->
  window_claim not_after_start stddev thr tick.
Proof.
  intros Ht Ht31.
  exists (recent_quiet_at stddev thr tick), (recent_loud_at stddev thr tick).
  split; [apply recent_counts_eq; lia|].
  unfold recent_quiet_at, recent_loud_at, window_counts, window_positions.
  destruct (Z.ltb_spec tick (2 ^ 31)); [|lia].
  rewrite louds_from_count.
  pose proof (count_if_negb (quiet_position not_after_start stddev thr) (positions 10 tick)) as Hsum.
  rewrite positions_length in Hsum.
  split; [|lia]. f_equal. lia.
Qed.

Lemma window_convention_witness :
  window_claim not_after_start [F32.zero; half; half] c_0_05f 2.
Proof.
  apply (window_convention [F32.zero; half; half] c_0_05f 2); [simpl; lia|lia].
Defined.

(** C4 as stated fails: in [wav_loud_first] the chunk at position zero has
    standard deviation 0.5, above the threshold 0.025, and the window at
    tick zero still counts ten quiet positions. *)
Lemma window_convention_counterexample :
  stddev_loop powf_exact (m_data wav_loud_first) 2 2 0 = Ok [half; F32.zero]
  /\ (do '(smin, smax) <- FindMinMaxSamples wav_loud_first;
      Ok (stddev_threshold_of smin smax)) = Ok (S754_finite false 13421773 (-29))
  /\ ~ window_claim before_start [half; F32.zero] (S754_finite false 13421773 (-29)) 0.
Proof.
  split; [vm_compute; reflexivity|]. split; [vm_compute; reflexivity|].
  intros (q & l & Hrun & Hcount & _).
  vm_compute in Hrun. vm_compute in Hcount. congruence.
Qed.

(** ** Segmenter: a silent buffer *)

(** C2 fails on the code: thirteen silent samples at 20 Hz give one
    segment.  The threshold is zero, no standard deviation is below it,
    and every chunk after the first counts as loud. *)
Theorem silent_buffer_gives_a_segment :
  FindSegmentsInAudioWaveform powf_exact wav_silent
  = Ok [ {| m_start := 1; m_count := 11 |} ].
Proof. vm_compute. reflexivity. Qed.

(** ** Degenerate input *)

Lemma segment_samples_per_chunk_zero_rate data :
  segment_samples_per_chunk (wav_zero_rate data) = Ok 0.
Proof. vm_compute. reflexivity. Qed.

Lemma normalize_samples_per_chunk_zero_rate data :
  normalize_samples_per_chunk (wav_zero_rate data) = Ok 0.
Proof. vm_compute. reflexivity. Qed.

(** C3 fails on the code: at a sample rate of zero the chunk size is zero
    and the chunk count divides by it, in the segmenter for every buffer
    (the empty one included) and in the normalizer for every buffer that
    is not empty. *)
Theorem zero_rate_divides_by_zero :
  (forall powf data,
      FindSegmentsInAudioWaveform powf (wav_zero_rate data) = Fault DivisionByZero)
  /\ (forall powf x data db_level,
      NormalizeAudioWaveform powf (wav_zero_rate (x :: data)) db_level
      = Fault DivisionByZero).
Proof.
  split.
  - intros powf data. unfold FindSegmentsInAudioWaveform.
    rewrite segment_samples_per_chunk_zero_rate. reflexivity.
  - intros powf x data db_level. unfold NormalizeAudioWaveform, normalize_to.
    cbn [m_data wav_zero_rate].
    change {| m_frequency := 0; m_data := x :: data |} with (wav_zero_rate (x :: data)).
    rewrite normalize_samples_per_chunk_zero_rate. reflexivity.
Qed.

(** What does hold in the degenerate class: the normalizer leaves an empty
    buffer alone whatever the rate, and the segmenter returns no segment
    for an empty buffer when the chunk size is not zero. *)
Lemma empty_buffer_no_op powf wav :
  m_data wav = [] ->
  (forall db_level, NormalizeAudioWaveform powf wav db_level = Ok wav)
  /\ (forall spc, segment_samples_per_chunk wav = Ok spc -> spc <> 0 ->
      FindSegmentsInAudioWaveform powf wav = Ok []).
Proof.
  intros Hd. split.
  - intros db_level. unfold NormalizeAudioWaveform. rewrite Hd. reflexivity.
  - intros spc Hspc Hnz. unfold FindSegmentsInAudioWaveform. rewrite Hspc. cbn [obind].
    destruct (Z.eqb_spec spc 0); [contradiction|].
    unfold size, FindMinMaxSamples. rewrite Hd. cbn [length Z.of_nat].
    rewrite Z.div_0_l by exact Hnz. reflexivity.
Qed.

(** ** Frame *)

(** C8.  The segmenter leaves the waveform as it was; the normalizer may
    change sample values, but neither the number of samples nor the
    sample rate. *)
Theorem passes_keep_the_frame :
  (forall powf wav l wav',
      by_const_ref (FindSegmentsInAudioWaveform powf) wav = Ok (l, wav') -> wav' = wav)
  /\ (forall powf wav db_level wav',
      NormalizeAudioWaveform powf wav db_level = Ok wav' ->
      length (m_data wav') = length (m_data wav)
      /\ m_frequency wav' = m_frequency wav).
Proof.
  split.
  - intros powf wav l wav' H. unfold by_const_ref in H. inv_ok H.
    injection H as _ <-. reflexivity.
  - intros powf wav db_level wav' H. unfold NormalizeAudioWaveform in H.
    destruct (m_data wav) as [|x xs] eqn:E.
    + injection H as <-. rewrite E. split; reflexivity.
    + unfold normalize_to in H. inv_ok H.
      destruct (a =? 0); [discriminate|]. inv_ok H. destruct a0 as [g d].
      injection H as <-. cbn [m_data m_frequency]. split; [|reflexivity].
      rewrite E in Ha0. apply chunk_loop_length in Ha0. exact Ha0.
Qed.

Lemma passes_keep_the_frame_witness :
  (by_const_ref (FindSegmentsInAudioWaveform powf_exact) wav_overlap
     = Ok ([ {| m_start := 4; m_count := 20 |}; {| m_start := 20; m_count := 8 |} ],
           wav_overlap))
  /\ (NormalizeAudioWaveform powf_exact wav_tail F32.zero
        = Ok {| m_frequency := 200; m_data := [F32.zero; F32.zero; c_1_05f] |}
      /\ length [F32.zero; F32.zero; c_1_05f] = length (m_data wav_tail)
      /\ 200 = m_frequency wav_tail).
Proof.
  split; [vm_compute; reflexivity|]. split; [vm_compute; reflexivity|].
  apply (proj2 passes_keep_the_frame powf_exact wav_tail F32.zero
           {| m_frequency := 200; m_data := [F32.zero; F32.zero; c_1_05f] |}).
  vm_compute. reflexivity.
Defined.

(** ** Normalizer: which samples are adjusted *)

Lemma normalize_to_adjusts max_vol wav spc :
  normalize_samples_per_chunk wav = Ok spc ->
  0 < spc -> spc <= size wav < 2 ^ 32 ->
  exists wav', normalize_to max_vol wav = Ok wav'
               /\ every_sample_adjusted max_vol spc wav wav'.
Proof.
  intros Hc Hspc Hsz. unfold normalize_to. rewrite Hc. cbn [obind].
  destruct (Z.eqb_spec spc 0); [lia|].
  assert (HN : wrap32 (size wav / spc) = size wav / spc).
  { apply wrap32_small. split; [apply Z.div_pos; lia|].
    apply Z.div_lt_upper_bound; nia. }
  unfold every_sample_adjusted. rewrite HN.
  set (N := size wav / spc).
  assert (HN1 : 1 <= N) by (apply Z.div_le_lower_bound; lia).
  assert (Hdiv : N * spc <= size wav).
  { unfold N. rewrite Z.mul_comm. apply Z.mul_div_le. lia. }
  assert (Hfit : N * spc <= Z.of_nat (length (m_data wav)) < 2 ^ 32) by (unfold size in *; lia).
  destruct (rounds max_vol spc N (m_data wav) Hspc Hfit (Z.to_nat N))
    as (g & d & Hst & Hlen & Hget); [lia|].
  unfold state_after in Hst. rewrite Hst. cbn [obind].
  eexists. split; [reflexivity|]. cbn [m_data].
  intros i x Hx. specialize (Hget i). rewrite Hx in Hget.
  unfold written_after in Hget. rewrite Z2Nat.id in Hget by lia.
  rewrite Z.eqb_refl in Hget.
  destruct (Z.ltb_spec 0 N); [|lia].
  rewrite orb_true_r in Hget. cbn [fmap option_fmap option_map] in Hget.
  set (c := chunk_of spc N (Z.of_nat i)) in *.
  assert (Hcr : 0 <= c < N).
  { unfold c, chunk_of. assert (0 <= Z.of_nat i / spc) by (apply Z.div_pos; lia). lia. }
  destruct (rounds max_vol spc N (m_data wav) Hspc Hfit (S (Z.to_nat c)))
    as (gc & dc & Hstc & _ & _); [lia|].
  exists c, gc, dc. split; [exact Hcr|]. split; [reflexivity|]. split; [exact Hstc|].
  rewrite Hget. unfold scaled_by, gain_at. rewrite Hstc. reflexivity.
Qed.

(** C6, as amended.  With fewer than 2^32 samples and at least one full
    chunk, the pass returns and has multiplied every sample of the buffer
    by the gain of a round; the last round reaches the end of the buffer. *)
Theorem every_sample_gain_adjusted powf wav db_level spc :
  normalize_samples_per_chunk wav = Ok spc ->
  0 < spc -> spc <= size wav < 2 ^ 32 ->
  exists wav', NormalizeAudioWaveform powf wav db_level = Ok wav'
               /\ every_sample_adjusted (db_to_linear powf db_level) spc wav wav'.
Proof.
  intros Hc Hspc Hsz. unfold NormalizeAudioWaveform.
  destruct (m_data wav) as [|x xs] eqn:E.
  - unfold size in Hsz. rewrite E in Hsz. simpl in Hsz. lia.
  - apply normalize_to_adjusts; assumption.
Qed.

Lemma every_sample_gain_adjusted_witness :
  exists wav', NormalizeAudioWaveform powf_exact wav_tail F32.zero = Ok wav'
               /\ every_sample_adjusted (db_to_linear powf_exact F32.zero) 2 wav_tail wav'.
Proof.
  apply (every_sample_gain_adjusted powf_exact wav_tail F32.zero 2).
  - vm_compute. reflexivity.
  - lia.
  - vm_compute. split; [discriminate|reflexivity].
Defined.

(** C6 as stated fails: one sample at 200 Hz is a buffer whose length is
    not a multiple of the chunk size (two); the pass returns it as it
    was, and no round of the chunk loop exists that adjusted it. *)
Lemma short_buffer_counterexample :
  normalize_samples_per_chunk wav_short = Ok 2
  /\ size wav_short mod 2 <> 0
  /\ NormalizeAudioWaveform powf_exact wav_short F32.zero = Ok wav_short
  /\ ~ every_sample_adjusted (db_to_linear powf_exact F32.zero) 2 wav_short wav_short.
Proof.
  split; [vm_compute; reflexivity|]. split; [vm_compute; discriminate|].
  split; [vm_compute; reflexivity|].
  intros H. destruct (H O half eq_refl) as (c & g & d & Hc & _).
  change (wrap32 (size wav_short / 2)) with 0 in Hc. lia.
Qed.

(** ** Normalizer: the ceiling *)

(** C1 fails on the code: with chunks of two samples and the buffer
    [0, 0, 1] at 0 dB, the only full chunk is silent, the gain is raised
    to 1.05 and applied to the third sample as well, which ends at 1.05,
    above the ceiling 1.001. *)
Theorem tail_above_ceiling :
  normalize_samples_per_chunk wav_tail = Ok 2
  /\ db_to_linear powf_exact F32.zero = c_1f
  /\ NormalizeAudioWaveform powf_exact wav_tail F32.zero
     = Ok {| m_frequency := 200; m_data := [F32.zero; F32.zero; c_1_05f] |}
  /\ within_ceiling c_1f [F32.zero; F32.zero; c_1_05f] = false.
Proof. repeat split; vm_compute; reflexivity. Qed.

(** ** Encoder: the conversion to 16 bits *)

Lemma trunc_truncation x z : trunc x = Some z -> truncation_of x z.
Proof.
  destruct x as [s|s| |s m e]; cbn [trunc truncation_of]; try discriminate.
  - intros [= <-]. reflexivity.
  - intros [= <-]. destruct (Z.leb_spec 0 e) as [He|He].
    + rewrite (Z.max_l 0 (- e)) by lia. rewrite (Z.max_r 0 e) by lia.
      assert (0 < 2 ^ e) by (apply Z.pow_pos_nonneg; lia).
      change (2 ^ 0) with 1.
      destruct s; (split; [nia|]);
        rewrite ?Z.abs_opp, Z.abs_eq by nia; nia.
    + rewrite (Z.max_r 0 (- e)) by lia. rewrite (Z.max_l 0 e) by lia.
      assert (Hp : 0 < 2 ^ (- e)) by (apply Z.pow_pos_nonneg; lia).
      pose proof (Z.div_pos (Z.pos m) (2 ^ (- e)) ltac:(lia) Hp) as Hq.
      pose proof (Z.mul_div_le (Z.pos m) (2 ^ (- e)) Hp) as Hlo.
      pose proof (Z.mul_succ_div_gt (Z.pos m) (2 ^ (- e)) Hp) as Hhi.
      change (2 ^ 0) with 1.
      destruct s; (split; [lia|]);
        rewrite ?Z.abs_opp, Z.abs_eq by lia; nia.
Qed.

(** C9 as stated fails: the sample 3/65536 is written as 1, and rounding
    its product 1.5 would give 2. *)
Lemma encoder_rounding_counterexample :
  pcm_of_sample sample_one_and_half = Ok 1
  /\ round_half_away (F32.mul sample_one_and_half c_32768f) = Some 2
  /\ ~ converts_by_rounding sample_one_and_half.
Proof.
  split; [vm_compute; reflexivity|]. split; [vm_compute; reflexivity|].
  intros H. specialize (H 1 ltac:(vm_compute; reflexivity)).
  vm_compute in H. discriminate.
Qed.

Lemma pcm_loop_spec data start n i0 pcm :
  pcm_loop data start n i0 = Ok pcm ->
  length pcm = n /\
  forall (k : nat) (z : Z),
    pcm !! k = Some z ->
    exists x, 0 <= start + i0 + Z.of_nat k
              /\ data !! Z.to_nat (start + i0 + Z.of_nat k) = Some x
              /\ pcm_of_sample x = Ok z.
Proof.
  revert i0 pcm. induction n as [|n IH]; intros i0 pcm H.
  - injection H as <-. split; [reflexivity|]. intros k z Hk. discriminate.
  - cbn [pcm_loop] in H. inv_ok H. inv_ok H. inv_ok H. injection H as <-.
    destruct (IH _ _ Ha1) as (Hlen & Hrest). split; [simpl; lia|].
    intros k z Hk. destruct k as [|k].
    + injection Hk as <-. exists a.
      unfold vec_get in Ha. destruct (Z.ltb_spec (start + i0) 0); [discriminate|].
      destruct (data !! Z.to_nat (start + i0)) as [y|] eqn:E; [|discriminate].
      injection Ha as ->.
      replace (start + i0 + Z.of_nat 0) with (start + i0) by lia.
      split; [lia|]. split; [exact E|exact Ha0].
    + cbn in Hk. destruct (Hrest k z Hk) as (x & Hpos & Hx & Hz).
      exists x. replace (start + i0 + Z.of_nat (S k)) with (start + (i0 + 1) + Z.of_nat k) by lia.
      split; [lia|]. split; [exact Hx|exact Hz].
Qed.

(** C9, as amended.  Every 16-bit sample handed to the file writer is the
    product of the float sample with 32768 with its fractional part
    dropped (no rounding to nearest), and it is in the 16-bit range
    because the conversion was defined, not because a value was clamped:
    a product outside the range gives no sample at all. *)
Theorem encoder_truncates :
  (forall wav start_sample num_samples pcm,
      WriteToWAVFile_samples wav start_sample num_samples = Ok (Some pcm) ->
      forall (k : nat) (z : Z),
        pcm !! k = Some z ->
        exists x, m_data wav !! Z.to_nat (start_sample + Z.of_nat k) = Some x
                  /\ truncation_of (F32.mul x c_32768f) z
                  /\ - 32768 <= z <= 32767)
  /\ (forall x z,
      truncation_of (F32.mul x c_32768f) z -> ~ - 32768 <= z <= 32767 ->
      forall z', pcm_of_sample x <> Ok z').
Proof.
  split.
  - intros wav start_sample num_samples pcm H.
    unfold WriteToWAVFile_samples in H.
    destruct (m_data wav) as [|y ys] eqn:E; [discriminate|].
    destruct (size wav <=? start_sample); [discriminate|].
    destruct (size wav <? wrap32 _); [discriminate|].
    inv_ok H. rename a into samples. injection H as <-.
    destruct (pcm_loop_spec _ _ _ _ _ Ha) as (_ & Hspec).
    intros k z Hk. destruct (Hspec k z Hk) as (x & Hpos & Hx & Hz).
    exists x. replace (start_sample + 0 + Z.of_nat k) with (start_sample + Z.of_nat k) in Hx by lia.
    split; [exact Hx|].
    unfold pcm_of_sample, cast_int16 in Hz.
    destruct (trunc (F32.mul x c_32768f)) as [t|] eqn:Et; [|discriminate].
    destruct (Z.leb_spec (- 32768) t), (Z.leb_spec t 32767); try discriminate.
    injection Hz as <-. split; [apply trunc_truncation; exact Et|lia].
  - intros x z Hz Hout z' Hz'.
    unfold pcm_of_sample, cast_int16 in Hz'.
    destruct (trunc (F32.mul x c_32768f)) as [t|] eqn:Et; [|discriminate].
    destruct (Z.leb_spec (- 32768) t), (Z.leb_spec t 32767); try discriminate.
    apply trunc_truncation in Et.
    destruct (F32.mul x c_32768f) as [s|s| |s m e]; cbn [truncation_of] in *; try lia.
    destruct Hz as (Hs1 & Hb1), Et as (Hs2 & Hb2).
    assert (0 < 2 ^ Z.max 0 (- e)) by (apply Z.pow_pos_nonneg; lia).
    assert (Z.abs z = Z.abs t) by nia.
    destruct s; lia.
Qed.

Lemma encoder_truncates_witness :
  WriteToWAVFile_samples
    {| m_frequency := 200; m_data := [half; sample_one_and_half] |} 0 0
    = Ok (Some [16384; 1])
  /\ (exists x, [half; sample_one_and_half] !! Z.to_nat (0 + Z.of_nat 1) = Some x
                /\ truncation_of (F32.mul x c_32768f) 1
                /\ - 32768 <= 1 <= 32767)
  /\ (forall z', pcm_of_sample c_1f <> Ok z').
Proof.
  split; [vm_compute; reflexivity|]. split.
  - apply (proj1 encoder_truncates
             {| m_frequency := 200; m_data := [half; sample_one_and_half] |} 0 0 [16384; 1]).
    + vm_compute. reflexivity.
    + reflexivity.
  - apply (proj2 encoder_truncates c_1f 32768).
    + change (F32.mul c_1f c_32768f) with (S754_finite false 8388608 (-8)).
      cbn [truncation_of]. change (Z.max 0 (- -8)) with 8. change (Z.max 0 (-8)) with 0.
      change (2 ^ 8) with 256. change (2 ^ 0) with 1. lia.
    + lia.
Defined.

(** ** Normalizer: the running gain *)

Lemma peak_ok_abs x q :
  F32.valid x = true -> F32.ltb q (F32.abs x) = true -> peak_ok (F32.abs x).
Proof.
  destruct x as [s|s| |s m e]; cbn [F32.abs SFabs peak_ok]; try (intros; exact I).
  - intros _ H. destruct q; discriminate.
  - intros Hv _. exact Hv.
Qed.

Lemma update_gain_ok max_vol p g :
  target_ok max_vol -> peak_ok p -> gain_ok g -> gain_ok (update_gain max_vol p g).
Proof.
  intros Ht Hp Hg. unfold update_gain.
  assert (Hrel : gain_ok (release max_vol p g)).
  { unfold release. destruct (F32.ltb p max_vol); [|exact Hg]. cbn [andb].
    destruct (F32.ltb g c_100f) eqn:Elt; [|exact Hg].
    apply release_below_105; assumption. }
  unfold attack. destruct (F32.ltb max_vol (F32.mul p (release max_vol p g))); [|exact Hrel].
  destruct (F32.ltb p c_0_02f) eqn:Esmall.
  - apply div_below_105; [exact Ht|]. left. split; [reflexivity|lia].
  - apply div_below_105; [exact Ht|]. apply divisor_ok_intro; assumption.
Qed.

Lemma gain_ok_leb_refl x : gain_ok x -> F32.leb x x = true.
Proof.
  destruct x as [s|s| |[|] m e]; cbn [gain_ok]; try contradiction; [reflexivity|].
  intros _. unfold F32.leb, SFleb, SFcompare. rewrite Z.compare_refl.
  change (Pos.compare_cont Eq m m) with (Pos.compare m m).
  rewrite Pos.compare_refl. reflexivity.
Qed.

Lemma zero_leb_gain_ok s x : gain_ok x -> F32.leb (S754_zero s) x = true.
Proof. destruct x as [s'|s'| |[|] m e]; cbn [gain_ok]; try contradiction; reflexivity. Qed.

Lemma canonical_normal_digits m e :
  canonical_mantissa 24 128 m e = true -> -149 < e -> Zdigits2 (Z.pos m) = 24.
Proof.
  unfold canonical_mantissa. rewrite fexp32. intros H He. apply Z.eqb_eq in H.
  cbn [Zdigits2]. lia.
Qed.

(** The attack step leaves the gain as it is or sets it to at most the
    target divided by 0.02f. *)
Lemma attack_at_most max_vol p g :
  target_ok max_vol -> F32.valid p = true -> F32.leb F32.zero p = true ->
  attack max_vol p g = g
  \/ F32.leb (attack max_vol p g) (F32.div max_vol c_0_02f) = true.
Proof.
  intros Ht Hv Hp. unfold attack.
  destruct (F32.ltb max_vol (F32.mul p g)); [right|left; reflexivity].
  assert (Hc : gain_ok (F32.div max_vol c_0_02f)).
  { apply div_below_105; [exact Ht|]. left. split; [reflexivity|lia]. }
  destruct (F32.ltb p c_0_02f) eqn:Esmall; [apply gain_ok_leb_refl; exact Hc|].
  destruct p as [sp|[|]| |[|] mp ep]; try discriminate.
  - (* an infinite peak: the quotient is zero *)
    destruct max_vol as [sv|sv| |[|] mv ev]; cbn [target_ok] in Ht; try contradiction;
      apply zero_leb_gain_ok; exact Hc.
  - (* a finite peak, not below 0.02f *)
    cbn [F32.valid valid_binary] in Hv. unfold bounded in Hv.
    apply andb_true_iff in Hv. destruct Hv as [Hcan _].
    unfold F32.ltb, SFltb, SFcompare, c_0_02f in Esmall.
    assert (Hord : -29 < ep \/ (-29 = ep /\ 10737418 <= Z.pos mp)).
    { destruct (Z.compare_spec ep (-29)) as [->|Hlo|Hhi]; [|discriminate|left; lia].
      right. split; [reflexivity|].
      destruct (compare_cont_Eq_spec mp 10737418); try discriminate; lia. }
    destruct max_vol as [sv|sv| |[|] mv ev]; cbn [target_ok] in Ht; try contradiction.
    + reflexivity.
    + apply div_mono_divisor; [|reflexivity|exact Hord].
      apply (canonical_normal_digits mp ep Hcan). lia.
Qed.

Section GainInvariant.
Variables (max_vol : float) (samples_per_chunk num_chunks : Z) (data0 : list float).
Hypothesis Hspc : 0 < samples_per_chunk.
Hypothesis Hfit : num_chunks * samples_per_chunk <= Z.of_nat (length data0) < 2 ^ 32.
Hypothesis Htarget : target_ok max_vol.
Hypothesis Hvalid : Forall (fun x => F32.valid x = true) data0.

Lemma gains_ok (k : nat) g d :
  Z.of_nat k <= num_chunks ->
  state_after max_vol samples_per_chunk num_chunks data0 k = Ok (g, d) ->
  gain_ok g.
Proof.
  revert g d. induction k as [|k IH]; intros g d Hk Hst.
  - injection Hst as <- _. cbn. lia.
  - destruct (rounds max_vol samples_per_chunk num_chunks data0 Hspc Hfit k)
      as (g0 & d0 & Hst0 & Hlen0 & Hget0); [lia|].
    specialize (IH g0 d0 ltac:(lia) Hst0).
    unfold state_after in Hst. rewrite chunk_loop_snoc in Hst.
    fold (state_after max_vol samples_per_chunk num_chunks data0 k) in Hst.
    rewrite Hst0 in Hst. cbn [obind] in Hst.
    replace (0 + Z.of_nat k) with (Z.of_nat k) in Hst by lia.
    unfold chunk_step in Hst.
    rewrite (wrap32_small (Z.of_nat k * samples_per_chunk)) in Hst by nia.
    destruct (peak_loop_spec d0 (Z.of_nat k * samples_per_chunk)
                (Z.to_nat samples_per_chunk) 0 F32.zero) as (p & Hp & Hpeak); [nia|lia|nia|].
    rewrite Hp in Hst. cbn [obind] in Hst.
    inv_ok Hst. inv_ok Hst. injection Hst as <- _.
    apply update_gain_ok; [exact Htarget| |exact IH].
    destruct Hpeak as [->|(i & x & q & Hr & Ex & -> & Hq)]; [exact I|].
    apply (peak_ok_abs x q); [|exact Hq].
    specialize (Hget0 (Z.to_nat i)). rewrite Ex in Hget0.
    unfold written_after in Hget0. rewrite Z2Nat.id in Hget0 by nia.
    destruct (Z.ltb_spec i (Z.of_nat k * samples_per_chunk)); [lia|].
    destruct (Z.eqb_spec (Z.of_nat k) num_chunks); [lia|].
    cbn [orb andb] in Hget0.
    rewrite Forall_forall in Hvalid. apply Hvalid.
    eapply list_elem_of_lookup_2. symmetry. exact Hget0.
Qed.
End GainInvariant.

(** C7.  The running gain starts at 1.0; the release step changes it only
    when it is below 100, by the factor 1.05; for a target between zero
    and one the attack step sets it to at most the target divided by
    0.02; and, on a buffer of binary32 samples, the gain after every round
    of the chunk loop is at most 105. *)
Theorem gain_soft_ceiling :
  (forall max_vol spc num_chunks data,
      state_after max_vol spc num_chunks data 0 = Ok (c_1f, data))
  /\ (forall max_vol p g,
      release max_vol p g = g
      \/ (F32.ltb g c_100f = true /\ release max_vol p g = F32.mul g c_1_05f))
  /\ (forall max_vol p g,
      F32.valid max_vol = true ->
      F32.leb F32.zero max_vol = true -> F32.leb max_vol c_1f = true ->
      F32.valid p = true -> F32.leb F32.zero p = true ->
      attack max_vol p g = g
      \/ F32.leb (attack max_vol p g) (F32.div max_vol c_0_02f) = true)
  /\ (forall powf db_level wav spc (k : nat) g d,
      F32.valid (db_to_linear powf db_level) = true ->
      F32.leb F32.zero (db_to_linear powf db_level) = true ->
      F32.leb (db_to_linear powf db_level) c_1f = true ->
      Forall (fun x => F32.valid x = true) (m_data wav) ->
      normalize_samples_per_chunk wav = Ok spc -> 0 < spc -> size wav < 2 ^ 32 ->
      Z.of_nat k <= wrap32 (size wav / spc) ->
      state_after (db_to_linear powf db_level) spc (wrap32 (size wav / spc))
        (m_data wav) k = Ok (g, d) ->
      F32.leb g c_105f = true).
Proof.
  split; [reflexivity|]. split; [|split].
  - intros max_vol p g. unfold release.
    destruct (F32.ltb p max_vol); [|left; reflexivity]. cbn [andb].
    destruct (F32.ltb g c_100f); [right; split; reflexivity|left; reflexivity].
  - intros max_vol p g Hv H0 H1 Hp Hp0.
    apply attack_at_most; [apply target_ok_intro; assumption|exact Hp|exact Hp0].
  - intros powf db_level wav spc k g d Hv H0 H1 Hdata Hc Hspc Hsz Hk Hst.
    assert (Hsz0 : 0 <= size wav) by (unfold size; lia).
    assert (HN : wrap32 (size wav / spc) = size wav / spc).
    { apply wrap32_small. split; [apply Z.div_pos; lia|].
      apply Z.div_lt_upper_bound; nia. }
    rewrite HN in *.
    assert (Hdiv : size wav / spc * spc <= size wav).
    { rewrite Z.mul_comm. apply Z.mul_div_le. lia. }
    apply gain_ok_leb.
    eapply (gains_ok (db_to_linear powf db_level) spc (size wav / spc) (m_data wav));
      [exact Hspc|unfold size in *; lia| |exact Hdata|exact Hk|exact Hst].
    apply target_ok_intro; assumption.
Qed.

Lemma gain_soft_ceiling_witness :
  (attack c_1f c_2f c_1f = c_1f
   \/ F32.leb (attack c_1f c_2f c_1f) (F32.div c_1f c_0_02f) = true)
  /\ state_after (db_to_linear powf_exact F32.zero) 2 (wrap32 (size wav_two_chunks / 2))
       (m_data wav_two_chunks) 2
     = Ok (half, [F32.zero; F32.zero; c_1f; S754_finite false 8388608 (-25)])
  /\ F32.leb half c_105f = true.
Proof.
  split; [|split].
  - apply (proj1 (proj2 (proj2 gain_soft_ceiling)) c_1f c_2f c_1f);
      vm_compute; reflexivity.
  - vm_compute; reflexivity.
  - apply (proj2 (proj2 (proj2 gain_soft_ceiling)) powf_exact F32.zero wav_two_chunks 2 2%nat
             half [F32.zero; F32.zero; c_1f; S754_finite false 8388608 (-25)]);
      try (vm_compute; reflexivity).
    + repeat constructor.
    + vm_compute. discriminate.
Defined.

(** * Further properties of the code *)

(** ** Segmenter: where a segment can lie *)

Lemma FindSegments_grid powf wav spc l :
  FindSegmentsInAudioWaveform powf wav = Ok l ->
  segment_samples_per_chunk wav = Ok spc ->
  0 < spc /\ size wav < 2 ^ 32 /\ Forall (on_chunk_grid spc (size wav / spc)) l.
Proof.
  intros Hrun Hspc.
  destruct (FindSegments_run powf wav l Hrun) as (spc' & sd & thr & s & Hspc' & Hpos & Hsz & Hinv).
  rewrite Hspc in Hspc'. injection Hspc' as <-.
  split; [exact Hpos|]. split; [exact Hsz|].
  destruct Hinv as (_ & Hall & _ & _).
  eapply Forall_impl; [exact Hall|].
  intros g (a & b & -> & Ha & Hab & Hb). exists a, b.
  unfold seg_of; cbn [m_start m_count]. repeat split; lia.
Qed.

(** X1.  Every segment starts and ends on a chunk boundary: it starts at
    chunk 1 or later, spans at least four whole chunks, and ends where the
    last whole chunk begins or earlier.  So the first chunk, the last whole
    chunk and the samples after it belong to no segment. *)
Theorem segments_on_chunk_grid powf wav spc l :
  FindSegmentsInAudioWaveform powf wav = Ok l ->
  segment_samples_per_chunk wav = Ok spc ->
  Forall (on_chunk_grid spc (size wav / spc)) l.
Proof. intros Hrun Hspc. apply (FindSegments_grid powf wav spc l Hrun Hspc). Qed.

Lemma segments_on_chunk_grid_witness :
  Forall (on_chunk_grid 2 (size wav_overlap / 2))
    [ {| m_start := 4; m_count := 20 |}; {| m_start := 20; m_count := 8 |} ].
Proof.
  apply (segments_on_chunk_grid powf_exact wav_overlap 2); vm_compute; reflexivity.
Defined.

(** X2.  A waveform of fewer than six whole chunks (0.3 s) has no
    segment, whatever its samples are. *)
Theorem fewer_than_six_chunks_no_segment powf wav spc :
  segment_samples_per_chunk wav = Ok spc -> spc <> 0 ->
  size wav < 6 * spc -> size wav < 2 ^ 32 ->
  FindSegmentsInAudioWaveform powf wav = Ok [].
Proof.
  intros Hspc Hnz Hshort Hsz.
  destruct (FindSegments_returns powf wav spc Hspc Hnz Hsz) as [l Hrun].
  rewrite Hrun. f_equal.
  destruct (FindSegments_grid powf wav spc l Hrun Hspc) as (Hpos & _ & Hall).
  destruct l as [|g l]; [reflexivity|].
  apply Forall_cons in Hall. destruct Hall as [(a & b & _ & _ & Ha & Hab & Hb) _].
  assert (size wav / spc < 6) by (apply Z.div_lt_upper_bound; lia).
  lia.
Qed.

Lemma fewer_than_six_chunks_no_segment_witness :
  FindSegmentsInAudioWaveform powf_exact wav_loud_first = Ok [].
Proof.
  apply (fewer_than_six_chunks_no_segment powf_exact wav_loud_first 2);
    [vm_compute; reflexivity|lia|vm_compute; reflexivity|vm_compute; reflexivity].
Defined.

(** ** Segmenter: a buffer of one value *)

Lemma SFltb_irrefl x : SFltb x x = false.
Proof.
  destruct x as [s|[|]| |[|] m e]; try reflexivity;
    unfold SFltb, SFcompare; rewrite Z.compare_refl;
    change (Pos.compare_cont Eq m m) with (Pos.compare m m);
    rewrite Pos.compare_refl; reflexivity.
Qed.

Lemma is_finite_below_max x :
  is_finite x = true ->
  (if F32.ltb x F32.FLT_MAX then x else F32.FLT_MAX) = x.
Proof.
  destruct x as [s|s| |[|] m e]; cbn [is_finite]; try discriminate; try reflexivity.
  intros Hb. unfold bounded, canonical_mantissa in Hb. rewrite fexp32 in Hb.
  apply andb_true_iff in Hb. destruct Hb as [Hc He].
  apply Z.eqb_eq in Hc. apply Z.leb_le in He.
  change (F32.emax - F32.prec) with 104 in He.
  change F32.FLT_MAX with (S754_finite false 16777215 104).
  unfold F32.ltb, SFltb, SFcompare.
  destruct (Z.compare_spec e 104) as [->|Hlt|Hgt]; [|reflexivity|lia].
  destruct (compare_cont_Eq_spec m 16777215) as [Heq|Hlt|Hgt]; [|reflexivity|].
  - injection Heq as ->. reflexivity.
  - exfalso. pose proof (digits2_pos_spec m) as Hd.
    assert (Z.pos (digits2_pos m) <= 24) by lia.
    assert (Z.pos m < 2 ^ 24).
    { eapply Z.lt_le_trans; [apply Hd|]. apply Z.pow_le_mono_r; lia. }
    lia.
Qed.

Lemma is_finite_above_min x :
  is_finite x = true ->
  (if F32.ltb (F32.opp F32.FLT_MAX) x then x else F32.opp F32.FLT_MAX) = x.
Proof.
  destruct x as [s|s| |[|] m e]; cbn [is_finite]; try discriminate; try reflexivity.
  intros Hb. unfold bounded, canonical_mantissa in Hb. rewrite fexp32 in Hb.
  apply andb_true_iff in Hb. destruct Hb as [Hc He].
  apply Z.eqb_eq in Hc. apply Z.leb_le in He.
  change (F32.emax - F32.prec) with 104 in He.
  change (F32.opp F32.FLT_MAX) with (S754_finite true 16777215 104).
  unfold F32.ltb, SFltb, SFcompare.
  destruct (Z.compare_spec 104 e) as [<-|Hlt|Hgt]; [|lia|reflexivity].
  destruct (compare_cont_Eq_spec 16777215 m) as [Heq|Hlt|Hgt]; cbn [CompOpp]; [| |reflexivity].
  - injection Heq as <-. reflexivity.
  - exfalso. pose proof (digits2_pos_spec m) as Hd.
    assert (Z.pos (digits2_pos m) <= 24) by lia.
    assert (Z.pos m < 2 ^ 24).
    { eapply Z.lt_le_trans; [apply Hd|]. apply Z.pow_le_mono_r; lia. }
    lia.
Qed.

Lemma minmax_constant x data acc :
  Forall (fun y => y = x) data ->
  acc = (x, x) ->
  fold_left minmax_step data acc = (x, x).
Proof.
  intros Hall ->. induction Hall as [|y data -> _ IH]; [reflexivity|].
  cbn [fold_left minmax_step]. unfold F32.ltb. rewrite SFltb_irrefl. exact IH.
Qed.

Lemma FindMinMaxSamples_constant wav x :
  size wav < 2 ^ 32 -> is_finite x = true ->
  Forall (fun y => y = x) (m_data wav) -> m_data wav <> [] ->
  FindMinMaxSamples wav = Ok (x, x).
Proof.
  intros Hsz Hx Hall Hne. unfold FindMinMaxSamples, size in *.
  destruct (m_data wav) as [|y ys]; [contradiction|].
  destruct (Z.leb_spec (2 ^ 32) (Z.of_nat (length (y :: ys)))); [lia|].
  f_equal. apply Forall_cons in Hall. destruct Hall as [-> Hall].
  cbn [fold_left]. apply minmax_constant; [exact Hall|].
  unfold minmax_step.
  rewrite (is_finite_below_max x Hx), (is_finite_above_min x Hx). reflexivity.
Qed.

Lemma stddev_threshold_constant x :
  is_finite x = true -> stddev_threshold_of x x = F32.zero.
Proof.
  intros Hx. unfold stddev_threshold_of.
  assert (Hsub : F32.sub x x = F32.zero).
  { destruct x as [[|]|s| |s m e]; try discriminate; try reflexivity.
    unfold F32.sub, SFsub. rewrite Z.sub_diag. reflexivity. }
  rewrite Hsub. reflexivity.
Qed.

(** A square root is never below zero. *)
Lemma sqrt_not_below_zero y : F32.ltb (F32.sqrt y) F32.zero = false.
Proof.
  destruct y as [s|[|]| |[|] m e]; try reflexivity.
  unfold F32.sqrt, SFsqrt.
  destruct (SFsqrt_core_binary F32.prec F32.emax (Z.pos m) e) as [[mz ez] lz].
  unfold binary_round_aux.
  destruct (shr_fexp F32.prec F32.emax mz ez lz) as [mrs' e'].
  destruct (shr_fexp F32.prec F32.emax _ e' loc_Exact) as [mrs'' e''].
  destruct (shr_m mrs'') as [|p|p]; try reflexivity.
  destruct (e'' <=? F32.emax - F32.prec); reflexivity.
Qed.

Lemma stddev_loop_not_below powf data spc n i r :
  0 < spc -> stddev_loop powf data spc n i = Ok r ->
  Forall (fun e => F32.ltb e F32.zero = false) r.
Proof.
  intros Hspc. revert i r. induction n as [|n IH]; intros i r H.
  - injection H as <-. constructor.
  - cbn [stddev_loop] in H. inv_ok H. inv_ok H. injection H as <-.
    constructor; [|eapply IH; eassumption].
    unfold standard_deviation in Ha.
    destruct (Z.ltb_spec spc 1); [lia|].
    destruct (Z.of_nat (length _) <? spc); [discriminate|].
    injection Ha as <-. apply sqrt_not_below_zero.
Qed.

Section AllLoud.
Variables (stddev_per_chunk : list float) (samples_per_chunk num_chunks : Z).
Hypothesis Hspc : 0 < samples_per_chunk.
Hypothesis Hfit : num_chunks * samples_per_chunk < 2 ^ 32.
Hypothesis Hticks : num_chunks <= 2 ^ 31.
Hypothesis Hlen : Z.of_nat (length stddev_per_chunk) = num_chunks.
Hypothesis Hloud : Forall (fun e => F32.ltb e F32.zero = false) stddev_per_chunk.

Lemma loud_at_all j : loud_at stddev_per_chunk F32.zero j = (0 <? j).
Proof.
  unfold loud_at. destruct (0 <? j); [|reflexivity]. cbn [andb].
  destruct (nth_in_or_default (Z.to_nat j) stddev_per_chunk F32.zero) as [Hin| ->];
    [|reflexivity].
  rewrite List.Forall_forall in Hloud. rewrite (Hloud _ Hin). reflexivity.
Qed.

Lemma louds_from_all n j :
  louds_from stddev_per_chunk F32.zero n j = Z.min (Z.of_nat n) (Z.max 0 j).
Proof.
  revert j. induction n as [|n IH]; intros j; [simpl; lia|].
  change (louds_from stddev_per_chunk F32.zero (S n) j)
    with (Z.b2z (loud_at stddev_per_chunk F32.zero j)
          + louds_from stddev_per_chunk F32.zero n (j - 1)).
  rewrite IH, loud_at_all. destruct (Z.ltb_spec 0 j); simpl Z.b2z; lia.
Qed.

Lemma all_loud_step t :
  0 <= t < num_chunks ->
  segment_step stddev_per_chunk F32.zero samples_per_chunk num_chunks
    (all_loud_state samples_per_chunk num_chunks t) t
  = Ok (all_loud_state samples_per_chunk num_chunks (t + 1)).
Proof.
  intros Ht. unfold segment_step.
  assert (Hl : recent_loud_at stddev_per_chunk F32.zero t = Z.min 10 t).
  { unfold recent_loud_at. destruct (Z.ltb_spec t (2 ^ 31)); [|lia].
    rewrite louds_from_all. lia. }
  assert (Hq : recent_quiet_at stddev_per_chunk F32.zero t = 10 - Z.min 10 t).
  { unfold recent_quiet_at. destruct (Z.ltb_spec t (2 ^ 31)); [|lia].
    rewrite louds_from_all. lia. }
  unfold all_loud_state.
  destruct (Z.leb_spec t 11) as [Hearly|Hlate].
  - rewrite recent_counts_eq by lia. cbn [obind]. rewrite Hl.
    cbn [Z.eqb andb negb]. unfold louds_to_start.
    destruct (Z.leb_spec 3 (Z.min 10 t)) as [Hstart|Hno].
    + rewrite wrap32_small by lia.
      destruct (Z.leb_spec (t + 1) 11).
      * do 2 f_equal. lia.
      * assert (t = 11) as -> by lia.
        destruct (Z.ltb_spec (11 + 1) num_chunks), (Z.leb_spec num_chunks 12);
          cbn [orb]; try reflexivity; lia.
    + destruct (Z.leb_spec (t + 1) 11); [reflexivity|lia].
  - destruct (Z.ltb_spec t num_chunks); [|lia]. cbn [orb].
    rewrite recent_counts_eq by lia. cbn [obind]. rewrite Hl, Hq.
    cbn [Z.eqb andb negb]. unfold quiets_to_stop.
    destruct (Z.leb_spec 8 (10 - Z.min 10 t)); [lia|]. cbn [orb].
    rewrite (wrap32_small (num_chunks - 1)) by lia.
    destruct (Z.leb_spec (t + 1) 11); [lia|].
    destruct (Z.eqb_spec t (num_chunks - 1)) as [->|Hmid].
    + destruct (Z.ltb_spec (num_chunks - 1 + 1) num_chunks); [lia|].
      destruct (Z.leb_spec num_chunks 12); [lia|]. cbn [orb app].
      rewrite (wrap32_small (num_chunks - 1 - 1)) by lia.
      rewrite !wrap32_small by nia.
      do 4 f_equal; lia.
    + destruct (Z.ltb_spec (t + 1) num_chunks); [|lia]. reflexivity.
Qed.

Lemma all_loud_loop n t :
  0 <= t -> t + Z.of_nat n <= num_chunks ->
  segment_loop stddev_per_chunk F32.zero samples_per_chunk num_chunks n t
    (all_loud_state samples_per_chunk num_chunks t)
  = Ok (all_loud_state samples_per_chunk num_chunks (t + Z.of_nat n)).
Proof.
  revert t. induction n as [|n IH]; intros t Ht Hn.
  - cbn [segment_loop]. do 2 f_equal. lia.
  - cbn [segment_loop]. rewrite all_loud_step by lia. cbn [obind].
    rewrite IH by lia. do 2 f_equal. lia.
Qed.
End AllLoud.

Lemma FindSegments_constant powf wav spc x :
  segment_samples_per_chunk wav = Ok spc -> spc <> 0 -> size wav < 2 ^ 31 ->
  is_finite x = true -> Forall (fun y => y = x) (m_data wav) ->
  FindSegmentsInAudioWaveform powf wav
  = Ok (if 13 <=? size wav / spc
        then [ {| m_start := spc; m_count := (size wav / spc - 2) * spc |} ]
        else []).
Proof.
  intros Hc Hnz Hsz Hx Hall.
  pose proof (cast_unsigned_range _ _ Hc) as Hr.
  assert (Hsz0 : 0 <= size wav) by (unfold size; lia).
  assert (Hdiv : size wav / spc * spc <= size wav).
  { rewrite Z.mul_comm. apply Z.mul_div_le. lia. }
  assert (HN0 : 0 <= size wav / spc) by (apply Z.div_pos; lia).
  assert (HNle : size wav / spc <= size wav) by nia.
  unfold FindSegmentsInAudioWaveform. rewrite Hc. cbn [obind].
  destruct (Z.eqb_spec spc 0) as [|_]; [contradiction|].
  rewrite (wrap32_small (size wav / spc)) by lia.
  set (N := size wav / spc) in *.
  destruct (stddev_loop_returns powf (m_data wav) spc (Z.to_nat N) 0)
    as [stddev Hsd]; [lia|lia|unfold size in *; lia|].
  rewrite Hsd. cbn [obind].
  assert (Hthr : exists smin smax, FindMinMaxSamples wav = Ok (smin, smax)
                                   /\ stddev_threshold_of smin smax = F32.zero).
  { destruct (m_data wav) as [|y ys] eqn:E.
    - exists F32.zero, F32.zero. unfold FindMinMaxSamples. rewrite E.
      split; reflexivity.
    - exists x, x. split; [|apply stddev_threshold_constant; exact Hx].
      apply FindMinMaxSamples_constant; [lia|exact Hx|rewrite E; exact Hall|].
      rewrite E. discriminate. }
  destruct Hthr as (smin & smax & -> & Hthr). cbn [obind]. cbv zeta. rewrite Hthr.
  pose proof (stddev_loop_not_below powf (m_data wav) spc (Z.to_nat N) 0 stddev
                ltac:(lia) Hsd) as Hloud.
  apply stddev_loop_length in Hsd.
  change ([], 0) with (all_loud_state spc N 0) at 1.
  rewrite (all_loud_loop stddev spc N ltac:(lia) ltac:(lia) ltac:(lia) ltac:(lia) Hloud)
    by lia.
  cbn [obind]. unfold all_loud_state.
  replace (0 + Z.of_nat (Z.to_nat N)) with N by lia.
  destruct (Z.ltb_spec N N); [lia|].
  destruct (Z.leb_spec N 11), (Z.leb_spec 13 N), (Z.leb_spec N 12);
    cbn [orb]; try reflexivity; lia.
Qed.

(** X3.  A buffer whose samples all have the same finite value, digital
    silence included, gets a threshold of zero, so every chunk after the
    first counts as loud: with thirteen whole chunks or more the result is
    the one segment from chunk 1 to the last whole chunk, with twelve or
    fewer it is empty.  The values [powf] returns play no part. *)
Theorem constant_buffer_segments powf wav spc x :
  segment_samples_per_chunk wav = Ok spc -> spc <> 0 -> size wav < 2 ^ 31 ->
  is_finite x = true -> Forall (fun y => y = x) (m_data wav) ->
  FindSegmentsInAudioWaveform powf wav
  = Ok (if 13 <=? size wav / spc
        then [ {| m_start := spc; m_count := (size wav / spc - 2) * spc |} ]
        else []).
Proof. apply FindSegments_constant. Qed.

Lemma constant_buffer_segments_witness :
  FindSegmentsInAudioWaveform powf_exact
    {| m_frequency := 40; m_data := replicate 30 half |}
  = Ok [ {| m_start := 2; m_count := 26 |} ].
Proof.
  apply (constant_buffer_segments powf_exact
           {| m_frequency := 40; m_data := replicate 30 half |} 2 half);
    [vm_compute; reflexivity|lia|vm_compute; reflexivity|vm_compute; reflexivity|].
  apply Forall_forall. intros y Hy. apply elem_of_replicate in Hy. apply Hy.
Defined.

(** ** Normalizer: a buffer shorter than one chunk *)

Lemma normalize_short_unchanged powf wav db_level spc :
  normalize_samples_per_chunk wav = Ok spc -> size wav < spc ->
  NormalizeAudioWaveform powf wav db_level = Ok wav.
Proof.
  intros Hc Hshort. unfold NormalizeAudioWaveform.
  destruct (m_data wav) as [|x xs] eqn:E; [reflexivity|].
  unfold normalize_to. rewrite Hc. cbn [obind].
  assert (Hsz0 : 0 <= size wav) by (unfold size; lia).
  destruct (Z.eqb_spec spc 0); [lia|].
  rewrite (Z.div_small (size wav) spc) by lia.
  change (wrap32 0) with 0. cbn [Z.to_nat chunk_loop obind].
  destruct wav; reflexivity.
Qed.

(** X4.  A buffer with fewer samples than one chunk of the normalizer
    (10 ms) has no whole chunk: it comes back as it was, at any level. *)
Theorem shorter_than_a_chunk_unchanged powf wav db_level spc :
  normalize_samples_per_chunk wav = Ok spc -> size wav < spc ->
  NormalizeAudioWaveform powf wav db_level = Ok wav.
Proof. apply normalize_short_unchanged. Qed.

Lemma shorter_than_a_chunk_unchanged_witness :
  NormalizeAudioWaveform powf_exact wav_short F32.zero = Ok wav_short.
Proof.
  apply (shorter_than_a_chunk_unchanged powf_exact wav_short F32.zero 2);
    vm_compute; reflexivity.
Defined.

(** ** The extreme samples *)

Lemma SFltb_trans x y z : SFltb x y = true -> SFltb y z = true -> SFltb x z = true.
Proof.
  unfold SFltb, SFcompare.
  destruct x as [sx|[|]| |[|] mx ex], y as [sy|[|]| |[|] my ey],
           z as [sz|[|]| |[|] mz ez];
    try reflexivity; try discriminate;
    destruct (Z.compare_spec ex ey), (Z.compare_spec ey ez), (Z.compare_spec ex ez);
    try reflexivity; try discriminate; try lia;
    destruct (compare_cont_Eq_spec mx my), (compare_cont_Eq_spec my mz),
             (compare_cont_Eq_spec mx mz);
    cbn [CompOpp]; try reflexivity; try discriminate; lia.
Qed.

Lemma minmax_fold_bounds data : forall smin smax smin' smax',
  fold_left minmax_step data (smin, smax) = (smin', smax') ->
  (forall x, F32.ltb x smin' = true -> F32.ltb x smin = true)
  /\ (forall x, F32.ltb smax' x = true -> F32.ltb smax x = true)
  /\ (smin' = smin \/ In smin' data)
  /\ (smax' = smax \/ In smax' data)
  /\ Forall (fun x => F32.ltb x smin' = false /\ F32.ltb smax' x = false) data.
Proof.
  induction data as [|y data IH]; intros smin smax smin' smax' H.
  - injection H as <- <-. repeat split; auto.
  - cbn [fold_left minmax_step] in H.
    specialize (IH _ _ _ _ H). destruct IH as (Hlo & Hhi & Hmin & Hmax & Hall).
    assert (Hlo1 : forall x, F32.ltb x (if F32.ltb y smin then y else smin) = true ->
                     F32.ltb x smin = true).
    { intros x Hx. destruct (F32.ltb y smin) eqn:E; [|exact Hx].
      exact (SFltb_trans x y smin Hx E). }
    assert (Hhi1 : forall x, F32.ltb (if F32.ltb smax y then y else smax) x = true ->
                     F32.ltb smax x = true).
    { intros x Hx. destruct (F32.ltb smax y) eqn:E; [|exact Hx].
      exact (SFltb_trans smax y x E Hx). }
    split; [intros x Hx; apply Hlo1, Hlo, Hx|].
    split; [intros x Hx; apply Hhi1, Hhi, Hx|].
    split; [|split; [|constructor; [split|exact Hall]]].
    + destruct Hmin as [->|Hin]; [|right; right; exact Hin].
      destruct (F32.ltb y smin); [right; left; reflexivity|left; reflexivity].
    + destruct Hmax as [->|Hin]; [|right; right; exact Hin].
      destruct (F32.ltb smax y); [right; left; reflexivity|left; reflexivity].
    + destruct (F32.ltb y smin') eqn:E; [|reflexivity].
      apply Hlo in E. destruct (F32.ltb y smin) eqn:E1.
      * unfold F32.ltb in E. rewrite SFltb_irrefl in E. discriminate.
      * rewrite E1 in E. discriminate.
    + destruct (F32.ltb smax' y) eqn:E; [|reflexivity].
      apply Hhi in E. destruct (F32.ltb smax y) eqn:E1.
      * unfold F32.ltb in E. rewrite SFltb_irrefl in E. discriminate.
      * rewrite E1 in E. discriminate.
Qed.

(** X5.  The extremes [FindMinMaxSamples] returns bound the buffer: no
    sample compares below the minimum or above the maximum (a NaN compares
    with nothing), and each extreme is a sample of the buffer or still the
    value the search started from, [FLT_MAX] and [-FLT_MAX]. *)
Theorem extremes_bound_the_samples wav smin smax :
  m_data wav <> [] ->
  FindMinMaxSamples wav = Ok (smin, smax) ->
  Forall (fun x => F32.ltb x smin = false /\ F32.ltb smax x = false) (m_data wav)
  /\ (smin = F32.FLT_MAX \/ In smin (m_data wav))
  /\ (smax = F32.opp F32.FLT_MAX \/ In smax (m_data wav)).
Proof.
  intros Hne H. unfold FindMinMaxSamples in H.
  destruct (m_data wav) as [|y ys] eqn:E; [contradiction|].
  destruct (2 ^ 32 <=? size wav); [discriminate|].
  assert (H' : fold_left minmax_step (y :: ys) (F32.FLT_MAX, F32.opp F32.FLT_MAX)
               = (smin, smax)) by congruence.
  destruct (minmax_fold_bounds _ _ _ _ _ H') as (_ & _ & Hmin & Hmax & Hall).
  split; [exact Hall|]. split; assumption.
Qed.

Lemma extremes_bound_the_samples_witness :
  Forall (fun x => F32.ltb x (F32.opp half) = false /\ F32.ltb half x = false)
    (m_data wav_loud_first)
  /\ (F32.opp half = F32.FLT_MAX \/ In (F32.opp half) (m_data wav_loud_first))
  /\ (half = F32.opp F32.FLT_MAX \/ In half (m_data wav_loud_first)).
Proof.
  apply (extremes_bound_the_samples wav_loud_first (F32.opp half) half);
    [discriminate|vm_compute; reflexivity].
Defined.

(** ** The range checks of the writer *)

Lemma pcm_loop_inside data start n pcm :
  0 <= start -> pcm_loop data start n 0 = Ok pcm ->
  length pcm = n /\ (n <> O -> start + Z.of_nat n <= Z.of_nat (length data)).
Proof.
  intros Hs H. destruct (pcm_loop_spec _ _ _ _ _ H) as (Hlen & Hspec).
  split; [exact Hlen|]. intros Hn.
  destruct (pcm !! (n - 1)%nat) as [z|] eqn:E.
  - destruct (Hspec _ _ E) as (x & _ & Hx & _).
    apply lookup_lt_Some in Hx. lia.
  - apply lookup_ge_None in E. lia.
Qed.

(** X6.  Samples leave [WriteToWAVFile] only from inside the buffer: when
    it hands samples to the file writer, the start lies in the buffer,
    there is at least one sample, their number is the one asked for (or,
    for a request of zero, all that follow the start), and the range ends
    inside the buffer. *)
Theorem written_range_inside_buffer wav start_sample num_samples pcm :
  0 <= start_sample < 2 ^ 32 -> 0 <= num_samples < 2 ^ 32 -> size wav < 2 ^ 32 ->
  WriteToWAVFile_samples wav start_sample num_samples = Ok (Some pcm) ->
  start_sample < size wav
  /\ Z.of_nat (length pcm)
     = (if num_samples =? 0 then size wav - start_sample else num_samples)
  /\ 0 < Z.of_nat (length pcm)
  /\ start_sample + Z.of_nat (length pcm) <= size wav.
Proof.
  intros Hs Hn Hsz H. unfold WriteToWAVFile_samples in H.
  destruct (m_data wav) as [|y ys] eqn:E; [discriminate|].
  destruct (Z.leb_spec (size wav) start_sample); [discriminate|].
  destruct (size wav <? wrap32 _); [discriminate|].
  inv_ok H. injection H as <-. rewrite <- E in Ha.
  apply pcm_loop_inside in Ha; [|lia]. destruct Ha as (Hlen & Hin).
  split; [lia|]. rewrite Hlen. fold (size wav) in Hin.
  destruct (Z.eqb_spec num_samples 0) as [->|Hnz].
  - rewrite wrap32_small in * by lia. lia.
  - lia.
Qed.

Lemma written_range_inside_buffer_witness :
  0 < size {| m_frequency := 200; m_data := [half; sample_one_and_half] |}
  /\ Z.of_nat (length [16384; 1])
     = size {| m_frequency := 200; m_data := [half; sample_one_and_half] |} - 0
  /\ 0 < Z.of_nat (length [16384; 1])
  /\ 0 + Z.of_nat (length [16384; 1])
     <= size {| m_frequency := 200; m_data := [half; sample_one_and_half] |}.
Proof.
  apply (written_range_inside_buffer
           {| m_frequency := 200; m_data := [half; sample_one_and_half] |} 0 0 [16384; 1]);
    [lia|lia|vm_compute; reflexivity|vm_compute; reflexivity].
Defined.

(** X7.  The check [start_sample + num_samples > m_data.size()] is made
    on a sum of two [unsigned] values.  When the sum passes 2^32 it wraps
    to less than the start, the check lets the request through, and the
    conversion loop leaves the buffer: the call has no defined result. *)
Theorem wrapped_request_faults wav start_sample num_samples :
  0 <= start_sample < size wav -> size wav < 2 ^ 32 -> 0 <= num_samples < 2 ^ 32 ->
  2 ^ 32 <= start_sample + num_samples ->
  exists f, WriteToWAVFile_samples wav start_sample num_samples = Fault f.
Proof.
  intros Hs Hsz Hn Hwrap. unfold WriteToWAVFile_samples.
  destruct (m_data wav) as [|y ys] eqn:E; [unfold size in Hs; rewrite E in Hs; simpl in Hs; lia|].
  destruct (Z.leb_spec (size wav) start_sample); [lia|].
  destruct (Z.eqb_spec num_samples 0); [lia|].
  assert (Hw : wrap32 (start_sample + num_samples) = start_sample + num_samples - 2 ^ 32).
  { unfold wrap32. symmetry. apply Z.mod_unique with (q := 1); lia. }
  rewrite Hw. destruct (Z.ltb_spec (size wav) (start_sample + num_samples - 2 ^ 32)); [lia|].
  rewrite <- E.
  destruct (pcm_loop (m_data wav) start_sample (Z.to_nat num_samples) 0) as [pcm|f] eqn:Ep.
  - apply pcm_loop_inside in Ep; [|lia]. destruct Ep as (_ & Hin).
    fold (size wav) in Hin. lia.
  - exists f. reflexivity.
Qed.

Lemma wrapped_request_faults_witness :
  exists f, WriteToWAVFile_samples wav_tail 1 4294967295 = Fault f.
Proof.
  apply (wrapped_request_faults wav_tail 1 4294967295);
    [unfold size; simpl; lia|vm_compute; reflexivity|lia|lia].
Defined.

(** ** Loading and writing back *)

Lemma check_range_spec f k lo :
  check_range f k lo = true -> forall v, lo <= v < lo + 2 ^ Z.of_nat k -> f v = true.
Proof.
  revert lo. induction k as [|k IH]; intros lo H v Hv.
  - cbn [check_range] in H. change (2 ^ Z.of_nat 0) with 1 in Hv.
    replace v with lo by lia. exact H.
  - cbn [check_range] in H. apply andb_true_iff in H. destruct H as [H1 H2].
    rewrite Nat2Z.inj_succ, Z.pow_succ_r in Hv by lia.
    destruct (Z.lt_ge_cases v (lo + 2 ^ Z.of_nat k)).
    + apply (IH lo H1). lia.
    + apply (IH _ H2). lia.
Qed.

Lemma written_as_16 v :
  - 32768 <= v <= 32767 -> written_as of_int16 (fun z => z) v = true.
Proof.
  intros Hv. apply (check_range_spec (written_as of_int16 (fun z => z)) 16 (- 32768)).
  - vm_compute. reflexivity.
  - change (2 ^ Z.of_nat 16) with 65536. lia.
Qed.

Lemma written_as_8 b :
  0 <= b <= 255 -> written_as of_uint8 widened_8 b = true.
Proof.
  intros Hb. apply (check_range_spec (written_as of_uint8 widened_8) 8 0).
  - vm_compute. reflexivity.
  - change (2 ^ Z.of_nat 8) with 256. lia.
Qed.

Lemma written_as_Ok {T : Type} (conv : T -> float) g v :
  written_as conv g v = true -> pcm_of_sample (mono_sample conv v) = Ok (g v).
Proof.
  unfold written_as. destruct (pcm_of_sample _) as [z|f]; [|discriminate].
  intros H. apply Z.eqb_eq in H. congruence.
Qed.

Lemma vec_get_app_middle {A : Type} (pre : list A) x post :
  vec_get (pre ++ x :: post) (Z.of_nat (length pre)) = Ok x.
Proof.
  unfold vec_get. destruct (Z.ltb_spec (Z.of_nat (length pre)) 0); [lia|].
  rewrite Nat2Z.id. rewrite list_lookup_middle by reflexivity. reflexivity.
Qed.

(** One channel: the loop over the samples is a map over the values. *)
Lemma sample_loop_mono {T : Type} (conv : T -> float) (l pre : list T) :
  sample_loop conv (pre ++ l) 1 (length l) (Z.of_nat (length pre))
  = Ok (map (mono_sample conv) l).
Proof.
  revert pre. induction l as [|v l IH]; intros pre; [reflexivity|].
  cbn [length sample_loop]. change (Z.to_nat 1) with 1%nat. cbn [channel_loop].
  rewrite vec_get_app_middle. cbn [obind].
  replace (pre ++ v :: l) with ((pre ++ [v]) ++ l) by (rewrite <- app_assoc; reflexivity).
  replace (Z.of_nat (length pre) + 1) with (Z.of_nat (length (pre ++ [v])))
    by (rewrite length_app; simpl; lia).
  rewrite IH. reflexivity.
Qed.

Lemma pcm_loop_map {T : Type} (conv : T -> float) g (l : list T) (pre : list float) :
  Forall (fun v => written_as conv g v = true) l ->
  pcm_loop (pre ++ map (mono_sample conv) l) 0 (length l) (Z.of_nat (length pre))
  = Ok (map g l).
Proof.
  intros Hall. revert pre. induction Hall as [|v l Hv _ IH]; intros pre; [reflexivity|].
  cbn [length pcm_loop map]. rewrite Z.add_0_l.
  rewrite vec_get_app_middle. cbn [obind].
  rewrite (written_as_Ok conv g v Hv). cbn [obind].
  replace (pre ++ mono_sample conv v :: map (mono_sample conv) l)
    with ((pre ++ [mono_sample conv v]) ++ map (mono_sample conv) l)
    by (rewrite <- app_assoc; reflexivity).
  replace (Z.of_nat (length pre) + 1)
    with (Z.of_nat (length (pre ++ [mono_sample conv v])))
    by (rewrite length_app; simpl; lia).
  rewrite IH. reflexivity.
Qed.

Lemma write_all_of_map {T : Type} (conv : T -> float) g (l : list T) rate :
  l <> [] -> Z.of_nat (length l) < 2 ^ 32 ->
  Forall (fun v => written_as conv g v = true) l ->
  WriteToWAVFile_samples {| m_frequency := rate; m_data := map (mono_sample conv) l |} 0 0
  = Ok (Some (map g l)).
Proof.
  intros Hne Hlen Hall. unfold WriteToWAVFile_samples, size. cbn [m_data].
  destruct (map (mono_sample conv) l) as [|y ys] eqn:E.
  { destruct l; [contradiction|discriminate]. }
  rewrite <- E. rewrite length_map.
  destruct (Z.leb_spec (Z.of_nat (length l)) 0).
  { destruct l; [contradiction|simpl in *; lia]. }
  cbn [Z.eqb]. rewrite Z.sub_0_r, Z.add_0_l.
  rewrite !(wrap32_small (Z.of_nat (length l))) by lia.
  rewrite Z.ltb_irrefl. rewrite Nat2Z.id.
  pose proof (pcm_loop_map conv g l [] Hall) as Hrun.
  change (pcm_loop (map (mono_sample conv) l) 0 (length l) 0 = Ok (map g l)) in Hrun.
  rewrite Hrun. reflexivity.
Qed.

(** X8.  A mono file of 16-bit samples that is loaded and written back
    gives the samples it had: dividing by 32768 and multiplying by 32768
    again is exact for each of the 65536 values, so the truncation of the
    writer drops nothing. *)
Theorem sixteen_bit_round_trip wav0 rate samples :
  samples <> [] -> Z.of_nat (length samples) < 2 ^ 32 ->
  Forall (fun v => - 32768 <= v <= 32767) samples ->
  exists wav,
    LoadFromWAVFile_data wav0 (mono16 rate samples) (raw16 samples) = Ok wav
    /\ m_frequency wav = rate
    /\ length (m_data wav) = length samples
    /\ WriteToWAVFile_samples wav 0 0 = Ok (Some samples).
Proof.
  intros Hne Hlen Hall.
  exists {| m_frequency := rate; m_data := map (mono_sample of_int16) samples |}.
  split; [|split; [reflexivity|split; [apply length_map|]]].
  - unfold LoadFromWAVFile_data, mono16, raw16.
    cbn [m_is_float m_bits m_channels m_sample_count m_rate as_int16 andb Z.eqb].
    rewrite Nat2Z.id.
    pose proof (sample_loop_mono of_int16 samples []) as Hrun.
    change (sample_loop of_int16 samples 1 (length samples) 0
            = Ok (map (mono_sample of_int16) samples)) in Hrun.
    rewrite Hrun. reflexivity.
  - rewrite (write_all_of_map of_int16 (fun z => z) samples rate Hne Hlen).
    + rewrite map_id. reflexivity.
    + eapply Forall_impl; [exact Hall|]. intros v Hv. apply written_as_16. exact Hv.
Qed.

Lemma sixteen_bit_round_trip_witness :
  exists wav,
    LoadFromWAVFile_data Waveform_default (mono16 8000 [- 32768; 0; 1; 32767])
      (raw16 [- 32768; 0; 1; 32767]) = Ok wav
    /\ m_frequency wav = 8000
    /\ length (m_data wav) = length [- 32768; 0; 1; 32767]
    /\ WriteToWAVFile_samples wav 0 0 = Ok (Some [- 32768; 0; 1; 32767]).
Proof.
  apply (sixteen_bit_round_trip Waveform_default 8000 [- 32768; 0; 1; 32767]).
  - discriminate.
  - simpl. lia.
  - repeat constructor; lia.
Defined.

(** X9.  A mono file of 8-bit samples is written back in 16 bits with
    each value [b] turned into [(b - 128) * 256]: 128 (the silence of the
    8-bit format) becomes 0, 0 becomes -32768 and 255 becomes 32512. *)
Theorem eight_bit_widening wav0 rate samples :
  samples <> [] -> Z.of_nat (length samples) < 2 ^ 32 ->
  Forall (fun b => 0 <= b <= 255) samples ->
  exists wav,
    LoadFromWAVFile_data wav0 (mono8 rate samples) (raw8 samples) = Ok wav
    /\ WriteToWAVFile_samples wav 0 0 = Ok (Some (map widened_8 samples)).
Proof.
  intros Hne Hlen Hall.
  exists {| m_frequency := rate; m_data := map (mono_sample of_uint8) samples |}.
  split.
  - unfold LoadFromWAVFile_data, mono8, raw8.
    cbn [m_is_float m_bits m_channels m_sample_count m_rate as_uint8 andb Z.eqb].
    rewrite Nat2Z.id.
    pose proof (sample_loop_mono of_uint8 samples []) as Hrun.
    change (sample_loop of_uint8 samples 1 (length samples) 0
            = Ok (map (mono_sample of_uint8) samples)) in Hrun.
    rewrite Hrun. reflexivity.
  - apply (write_all_of_map of_uint8 widened_8 samples rate Hne Hlen).
    eapply Forall_impl; [exact Hall|]. intros v Hv. apply written_as_8. exact Hv.
Qed.

Lemma eight_bit_widening_witness :
  exists wav,
    LoadFromWAVFile_data Waveform_default (mono8 8000 [0; 128; 255]) (raw8 [0; 128; 255])
      = Ok wav
    /\ WriteToWAVFile_samples wav 0 0 = Ok (Some [- 32768; 0; 32512]).
Proof.
  apply (eight_bit_widening Waveform_default 8000 [0; 128; 255]).
  - discriminate.
  - simpl. lia.
  - repeat constructor; lia.
Defined.

Lemma sample_loop_length {T : Type} (conv : T -> float) input channels n pos r :
  sample_loop conv input channels n pos = Ok r -> length r = n.
Proof.
  revert pos r. induction n as [|n IH]; intros pos r H.
  - injection H as <-. reflexivity.
  - cbn [sample_loop] in H. inv_ok H. destruct a as [sample pos'].
    inv_ok H. injection H as <-. simpl. f_equal. eapply IH. eassumption.
Qed.

(** X10.  Whatever the format and the number of channels, a load that
    returns leaves the waveform with the rate of the header and with as
    many samples as the header counts; the rate is taken as it is, zero
    included. *)
Theorem load_sets_rate_and_count wav0 header raw wav :
  LoadFromWAVFile_data wav0 header raw = Ok wav ->
  m_frequency wav = m_rate header
  /\ length (m_data wav) = Z.to_nat (m_sample_count header).
Proof.
  unfold LoadFromWAVFile_data. intros H. inv_ok H. injection H as <-.
  cbn [m_frequency m_data]. split; [reflexivity|].
  destruct (m_is_float header && (m_bits header =? 32));
    [eapply sample_loop_length; eassumption|].
  destruct (m_bits header =? 16); [eapply sample_loop_length; eassumption|].
  destruct (m_bits header =? 8); [eapply sample_loop_length; eassumption|].
  injection Ha as <-. apply length_resize.
Qed.

Lemma load_sets_rate_and_count_witness :
  m_frequency {| m_frequency := 8000; m_data := map (mono_sample of_uint8) [0; 128; 255] |}
    = m_rate (mono8 8000 [0; 128; 255])
  /\ length (m_data {| m_frequency := 8000;
                       m_data := map (mono_sample of_uint8) [0; 128; 255] |})
     = Z.to_nat (m_sample_count (mono8 8000 [0; 128; 255])).
Proof.
  apply (load_sets_rate_and_count Waveform_default (mono8 8000 [0; 128; 255])
           (raw8 [0; 128; 255])).
  vm_compute. reflexivity.
Defined.



(** ** From the segmenter to the writer *)

Lemma pcm_of_sample_cases x :
  (exists z, pcm_of_sample x = Ok z) \/ pcm_of_sample x = Fault UndefinedConversion.
Proof.
  unfold pcm_of_sample, cast_int16.
  destruct (trunc _) as [z|]; [|right; reflexivity].
  destruct ((- 32768 <=? z) && (z <=? 32767)); [left; eauto|right; reflexivity].
Qed.

Lemma pcm_loop_cases data start n i :
  0 <= start + i -> start + i + Z.of_nat n <= Z.of_nat (length data) ->
  (exists pcm, pcm_loop data start n i = Ok pcm /\ length pcm = n)
  \/ pcm_loop data start n i = Fault UndefinedConversion.
Proof.
  revert i. induction n as [|n IH]; intros i Hi Hn.
  - left. exists []. split; reflexivity.
  - cbn [pcm_loop].
    destruct (vec_get_in_range data (start + i)) as (x & _ & ->); [lia|]. cbn [obind].
    destruct (pcm_of_sample_cases x) as [[z ->]| ->]; [|right; reflexivity].
    cbn [obind].
    destruct (IH (i + 1)) as [(pcm & -> & Hlen)| ->]; [lia|lia| |right; reflexivity].
    left. exists (z :: pcm). split; [reflexivity|]. simpl. lia.
Qed.

(** The writer on a segment of the grid, for a buffer of the size the
    segmenter saw. *)
Lemma grid_segment_samples spc wav' g sz :
  0 < spc -> size wav' = sz -> sz < 2 ^ 32 -> on_chunk_grid spc (sz / spc) g ->
  (exists pcm,
     pcm_loop (m_data wav') (m_start g) (Z.to_nat (m_count g)) 0 = Ok pcm
     /\ Z.of_nat (length pcm) = m_count g
     /\ WriteToWAVFile_samples wav' (wrap32 (m_start g)) (wrap32 (m_count g))
        = Ok (Some pcm))
  \/ (pcm_loop (m_data wav') (m_start g) (Z.to_nat (m_count g)) 0
        = Fault UndefinedConversion
      /\ WriteToWAVFile_samples wav' (wrap32 (m_start g)) (wrap32 (m_count g))
         = Fault UndefinedConversion).
Proof.
  intros Hspc Hsize Hsz (a & b & Hstart & Hcount & Ha & Hab & Hb).
  assert (Hdiv : sz / spc * spc <= sz).
  { rewrite Z.mul_comm. apply Z.mul_div_le. lia. }
  assert (Hs : 0 < m_start g) by nia.
  assert (Hc : 0 < m_count g) by nia.
  assert (Hend : m_start g + m_count g <= sz) by nia.
  unfold WriteToWAVFile_samples.
  rewrite (wrap32_small (m_start g)), (wrap32_small (m_count g)) by lia.
  destruct (m_data wav') as [|y ys] eqn:E.
  { unfold size in Hsize. rewrite E in Hsize. simpl in Hsize. lia. }
  rewrite <- E. rewrite Hsize.
  destruct (Z.leb_spec sz (m_start g)); [lia|].
  destruct (Z.eqb_spec (m_count g) 0); [lia|].
  rewrite (wrap32_small (m_start g + m_count g)) by lia.
  destruct (Z.ltb_spec sz (m_start g + m_count g)); [lia|].
  destruct (pcm_loop_cases (m_data wav') (m_start g) (Z.to_nat (m_count g)) 0)
    as [(pcm & Hrun & Hlen)|Hrun]; [lia|unfold size in Hsize; lia| |].
  - left. exists pcm. rewrite Hrun. split; [reflexivity|]. split; [lia|reflexivity].
  - right. rewrite Hrun. split; reflexivity.
Qed.

Lemma pipeline_grid powf wav db_level l wav' :
  FindSegmentsInAudioWaveform powf wav = Ok l ->
  NormalizeAudioWaveform powf wav db_level = Ok wav' ->
  exists spc, 0 < spc /\ size wav' = size wav /\ size wav < 2 ^ 32
              /\ m_frequency wav' = m_frequency wav
              /\ Forall (on_chunk_grid spc (size wav / spc)) l.
Proof.
  intros Hseg Hnorm.
  destruct (FindSegments_run powf wav l Hseg) as (spc & _ & _ & _ & Hspc & _ & _ & _).
  destruct (FindSegments_grid powf wav spc l Hseg Hspc) as (Hpos & Hsz & Hall).
  exists spc. split; [exact Hpos|].
  assert (Hframe : length (m_data wav') = length (m_data wav)
                   /\ m_frequency wav' = m_frequency wav).
  { unfold NormalizeAudioWaveform in Hnorm.
    destruct (m_data wav) as [|x xs] eqn:E.
    - injection Hnorm as <-. rewrite E. split; reflexivity.
    - unfold normalize_to in Hnorm. inv_ok Hnorm.
      destruct (a =? 0); [discriminate|]. inv_ok Hnorm. destruct a0 as [g d].
      injection Hnorm as <-. cbn [m_data m_frequency]. split; [|reflexivity].
      rewrite E in Ha0. apply chunk_loop_length in Ha0. exact Ha0. }
  destruct Hframe as [Hlen Hfreq].
  split; [unfold size; rewrite Hlen; reflexivity|].
  split; [exact Hsz|]. split; [exact Hfreq|exact Hall].
Qed.

(** X12.  Every segment the segmenter reports passes the range checks of
    the writer on the normalized waveform: the writer hands over exactly
    [m_count] samples, taken from [m_start] on, unless the conversion of
    one of them to 16 bits is undefined.  It never refuses a segment and
    never reads outside the buffer. *)
Theorem reported_segments_are_writable powf wav db_level l wav' g :
  FindSegmentsInAudioWaveform powf wav = Ok l ->
  NormalizeAudioWaveform powf wav db_level = Ok wav' ->
  In g l ->
  (exists pcm,
     WriteToWAVFile_samples wav' (wrap32 (m_start g)) (wrap32 (m_count g)) = Ok (Some pcm)
     /\ Z.of_nat (length pcm) = m_count g
     /\ forall (k : nat) (z : Z), pcm !! k = Some z ->
          exists x, m_data wav' !! Z.to_nat (m_start g + Z.of_nat k) = Some x
                    /\ pcm_of_sample x = Ok z)
  \/ WriteToWAVFile_samples wav' (wrap32 (m_start g)) (wrap32 (m_count g))
     = Fault UndefinedConversion.
Proof.
  intros Hseg Hnorm Hin.
  destruct (pipeline_grid powf wav db_level l wav' Hseg Hnorm)
    as (spc & Hspc & Hsize & Hsz & _ & Hall).
  rewrite List.Forall_forall in Hall. specialize (Hall g Hin).
  destruct (grid_segment_samples spc wav' g (size wav) Hspc Hsize Hsz Hall)
    as [(pcm & Hrun & Hlen & Hw)|(_ & Hw)]; [left|right; exact Hw].
  exists pcm. split; [exact Hw|]. split; [exact Hlen|].
  intros k z Hk. destruct (pcm_loop_spec _ _ _ _ _ Hrun) as (_ & Hspec).
  destruct (Hspec k z Hk) as (x & _ & Hx & Hz). exists x.
  replace (m_start g + 0 + Z.of_nat k) with (m_start g + Z.of_nat k) in Hx by lia.
  split; assumption.
Qed.

Lemma reported_segments_are_writable_witness :
  (exists pcm,
     WriteToWAVFile_samples
       {| m_frequency := 100; m_data := replicate 65 F32.zero |} (wrap32 5) (wrap32 55)
       = Ok (Some pcm)
     /\ Z.of_nat (length pcm) = 55
     /\ forall (k : nat) (z : Z), pcm !! k = Some z ->
          exists x, replicate 65 F32.zero !! Z.to_nat (5 + Z.of_nat k) = Some x
                    /\ pcm_of_sample x = Ok z)
  \/ WriteToWAVFile_samples
       {| m_frequency := 100; m_data := replicate 65 F32.zero |} (wrap32 5) (wrap32 55)
     = Fault UndefinedConversion.
Proof.
  apply (reported_segments_are_writable powf_exact
           {| m_frequency := 100; m_data := replicate 65 F32.zero |} F32.zero
           [ {| m_start := 5; m_count := 55 |} ]
           {| m_frequency := 100; m_data := replicate 65 F32.zero |}
           {| m_start := 5; m_count := 55 |});
    [vm_compute; reflexivity|vm_compute; reflexivity|left; reflexivity].
Defined.

Section WriteAll.
Variable file_written : Z -> WAVInfo -> list Z -> bool.
Variables (wav' : Waveform) (spc sz rate : Z).
Hypothesis Hspc : 0 < spc.
Hypothesis Hsize : size wav' = sz.
Hypothesis Hsz : sz < 2 ^ 32.
Hypothesis Hrate : m_frequency wav' = rate.
Hypothesis Haccepts : forall seg_num samples,
  file_written seg_num
    {| m_rate := rate; m_channels := 1; m_bits := 16; m_is_float := false;
       m_sample_count := Z.of_nat (length samples) |} samples = true.

Lemma grid_segment_written g seg_num :
  on_chunk_grid spc (sz / spc) g ->
  WriteToWAVFile file_written wav' seg_num (wrap32 (m_start g)) (wrap32 (m_count g))
    = Ok true
  \/ WriteToWAVFile file_written wav' seg_num (wrap32 (m_start g)) (wrap32 (m_count g))
     = Fault UndefinedConversion.
Proof.
  intros Hg.
  assert (Hcall :
    WriteToWAVFile file_written wav' seg_num (wrap32 (m_start g)) (wrap32 (m_count g))
    = do samples <- pcm_loop (m_data wav') (m_start g) (Z.to_nat (m_count g)) 0;
      Ok (WAVFileWrite file_written seg_num
            {| m_rate := rate; m_channels := 1; m_bits := 16; m_is_float := false;
               m_sample_count := m_count g |} samples)).
  { destruct Hg as (a & b & Hstart & Hcount & Ha & Hab & Hb).
    assert (Hdiv : sz / spc * spc <= sz).
    { rewrite Z.mul_comm. apply Z.mul_div_le. lia. }
    assert (Hs : 0 < m_start g) by nia.
    assert (Hc : 0 < m_count g) by nia.
    assert (Hend : m_start g + m_count g <= sz) by nia.
    unfold WriteToWAVFile.
    rewrite (wrap32_small (m_start g)), (wrap32_small (m_count g)) by lia.
    rewrite Hsize, Hrate.
    destruct (m_data wav') as [|y ys] eqn:E.
    { unfold size in Hsize. rewrite E in Hsize. simpl in Hsize. lia. }
    destruct (Z.leb_spec sz (m_start g)); [lia|].
    destruct (Z.eqb_spec (m_count g) 0); [lia|].
    rewrite (wrap32_small (m_start g + m_count g)) by lia.
    destruct (Z.ltb_spec sz (m_start g + m_count g)); [lia|]. reflexivity. }
  rewrite Hcall.
  destruct (grid_segment_samples spc wav' g sz Hspc Hsize Hsz Hg)
    as [(pcm & Hrun & Hlen & _)|(Hrun & _)]; rewrite Hrun; [left|right; reflexivity].
  cbn [obind]. f_equal. unfold WAVFileWrite. cbn [m_sample_count m_bits].
  destruct (Z.eqb_spec (m_count g) 0) as [Hz|_].
  - destruct Hg as (a & b & Hstart & Hcount & Ha & Hab & Hb). nia.
  - cbn [Z.eqb negb andb]. rewrite <- Hlen. apply Haccepts.
Qed.

Lemma write_loop_grid l seg_num :
  Forall (on_chunk_grid spc (sz / spc)) l ->
  write_loop file_written wav' l seg_num = Ok true
  \/ write_loop file_written wav' l seg_num = Fault UndefinedConversion.
Proof.
  intros Hall. revert seg_num. induction Hall as [|g l Hg _ IH]; intros seg_num.
  - left. reflexivity.
  - cbn [write_loop].
    destruct (grid_segment_written g (wrap32 (seg_num + 1)) Hg) as [-> | ->];
      [|right; reflexivity].
    cbn [obind]. apply IH.
Qed.
End WriteAll.

(** X13.  When the file system accepts every file of 16-bit mono samples
    at the rate of the waveform whose header counts the samples handed
    over, [write_audio_segments_to_wav_files] writes all the segments the
    segmenter reported for the waveform, normalized: it returns true,
    unless the conversion of a sample to 16 bits is undefined.  None of
    its own checks, nor those of [WriteToWAVFile] and [WAVFileWrite],
    stops it. *)
Theorem reported_segments_are_all_written powf file_written wav db_level l wav' :
  FindSegmentsInAudioWaveform powf wav = Ok l -> l <> [] ->
  NormalizeAudioWaveform powf wav db_level = Ok wav' ->
  (forall seg_num samples,
      file_written seg_num
        {| m_rate := m_frequency wav; m_channels := 1; m_bits := 16;
           m_is_float := false; m_sample_count := Z.of_nat (length samples) |}
        samples = true) ->
  write_audio_segments_to_wav_files file_written wav' l = Ok true
  \/ write_audio_segments_to_wav_files file_written wav' l = Fault UndefinedConversion.
Proof.
  intros Hseg Hne Hnorm Hfs.
  destruct (pipeline_grid powf wav db_level l wav' Hseg Hnorm)
    as (spc & Hspc & Hsize & Hsz & Hrate & Hall).
  unfold write_audio_segments_to_wav_files.
  destruct (m_data wav') as [|y ys] eqn:E.
  { exfalso.
    assert (Hz : size wav = 0) by (rewrite <- Hsize; unfold size; rewrite E; reflexivity).
    destruct l as [|g l]; [contradiction|].
    apply Forall_cons in Hall. destruct Hall as [(a & b & _ & _ & Ha & Hab & Hb) _].
    rewrite Hz in Hb. rewrite Z.div_0_l in Hb by lia. lia. }
  destruct l as [|g l]; [contradiction|].
  apply (write_loop_grid file_written wav' spc (size wav) (m_frequency wav)
           Hspc Hsize Hsz Hrate Hfs (g :: l) 0 Hall).
Qed.

Lemma reported_segments_are_all_written_witness :
  write_audio_segments_to_wav_files (fun _ _ _ => true)
    {| m_frequency := 100; m_data := replicate 65 F32.zero |}
    [ {| m_start := 5; m_count := 55 |} ] = Ok true
  \/ write_audio_segments_to_wav_files (fun _ _ _ => true)
       {| m_frequency := 100; m_data := replicate 65 F32.zero |}
       [ {| m_start := 5; m_count := 55 |} ] = Fault UndefinedConversion.
Proof.
  apply (reported_segments_are_all_written powf_exact (fun _ _ _ => true)
           {| m_frequency := 100; m_data := replicate 65 F32.zero |} F32.zero
           [ {| m_start := 5; m_count := 55 |} ]
           {| m_frequency := 100; m_data := replicate 65 F32.zero |});
    [vm_compute; reflexivity|discriminate|vm_compute; reflexivity|reflexivity].
Defined.

(** ** Normalizer: polarity *)

Lemma binary_round_aux_sign prec emax s m e l :
  match binary_round_aux prec emax s m e l with
  | S754_zero s' | S754_infinity s' | S754_finite s' _ _ => s' = s
  | S754_nan => True
  end.
Proof.
  unfold binary_round_aux.
  destruct (shr_fexp prec emax m e l) as [mrs' e'].
  destruct (shr_fexp prec emax _ e' loc_Exact) as [mrs'' e''].
  destruct (shr_m mrs'') as [|p|p]; try reflexivity.
  destruct (e'' <=? emax - prec); reflexivity.
Qed.

Lemma mul_gain_polarity x g :
  gain_ok g ->
  (F32.ltb x F32.zero = false -> F32.ltb (F32.mul x g) F32.zero = false)
  /\ (F32.ltb F32.zero x = false -> F32.ltb F32.zero (F32.mul x g) = false)
  /\ (forall s, x = S754_zero s -> exists s', F32.mul x g = S754_zero s').
Proof.
  intros Hg.
  destruct g as [sg|sg| |[|] mg eg]; cbn [gain_ok] in Hg; try contradiction.
  - (* a gain of zero *)
    destruct x as [sx|sx| |sx mx ex]; cbn [F32.mul SFmul];
      (split; [|split]); try reflexivity; try discriminate; eauto;
      intros s Hs; discriminate.
  - (* a positive gain *)
    destruct x as [sx|sx| |sx mx ex].
    + cbn [F32.mul SFmul]. split; [reflexivity|]. split; [reflexivity|]. eauto.
    + unfold F32.mul, SFmul. rewrite xorb_false_r.
      split; [intros H; exact H|]. split; [intros H; exact H|]. intros s Hs; discriminate.
    + split; [reflexivity|]. split; [reflexivity|]. intros s Hs; discriminate.
    + unfold F32.mul, SFmul. rewrite xorb_false_r.
      pose proof (binary_round_aux_sign 24 128 sx (Z.pos (mx * mg)) (ex + eg) loc_Exact)
        as Hsign.
      change F32.prec with 24. change F32.emax with 128.
      destruct (binary_round_aux 24 128 sx (Z.pos (mx * mg)) (ex + eg) loc_Exact)
        as [s'|s'| |s' m' e'];
        try subst s';
        (split; [|split]); try reflexivity; try (intros s Hs; discriminate);
        destruct sx; try reflexivity; try discriminate.
Qed.

Lemma normalize_polarity powf wav db_level spc wav' :
  target_ok (db_to_linear powf db_level) ->
  Forall (fun x => F32.valid x = true) (m_data wav) ->
  normalize_samples_per_chunk wav = Ok spc -> 0 < spc -> size wav < 2 ^ 32 ->
  NormalizeAudioWaveform powf wav db_level = Ok wav' ->
  forall (i : nat) (x : float),
    m_data wav !! i = Some x ->
    exists y, m_data wav' !! i = Some y
      /\ (F32.ltb x F32.zero = false -> F32.ltb y F32.zero = false)
      /\ (F32.ltb F32.zero x = false -> F32.ltb F32.zero y = false)
      /\ (forall s, x = S754_zero s -> exists s', y = S754_zero s').
Proof.
  intros Ht Hvalid Hc Hspc Hsz Hrun i x Hx.
  destruct (Z.lt_ge_cases (size wav) spc) as [Hshort|Hlong].
  - rewrite (normalize_short_unchanged powf wav db_level spc Hc Hshort) in Hrun.
    injection Hrun as <-. exists x. split; [exact Hx|]. split; [auto|]. split; [auto|].
    intros s ->. eauto.
  - assert (Hrun' : normalize_to (db_to_linear powf db_level) wav = Ok wav').
    { unfold NormalizeAudioWaveform in Hrun.
      destruct (m_data wav) as [|y ys] eqn:E; [discriminate|]. exact Hrun. }
    destruct (normalize_to_adjusts (db_to_linear powf db_level) wav spc Hc Hspc
                ltac:(lia)) as (wav2 & Hrun2 & Hadj).
    rewrite Hrun' in Hrun2. injection Hrun2 as <-.
    destruct (Hadj i x Hx) as (c & g & d & Hcr & _ & Hst & Hy).
    assert (Hsz0 : 0 <= size wav) by (unfold size; lia).
    assert (HN : wrap32 (size wav / spc) = size wav / spc).
    { apply wrap32_small. split; [apply Z.div_pos; lia|].
      apply Z.div_lt_upper_bound; nia. }
    rewrite HN in *.
    assert (Hdiv : size wav / spc * spc <= size wav).
    { rewrite Z.mul_comm. apply Z.mul_div_le. lia. }
    assert (Hg : gain_ok g).
    { eapply (gains_ok (db_to_linear powf db_level) spc (size wav / spc) (m_data wav));
        [exact Hspc|unfold size in *; lia|exact Ht|exact Hvalid| |exact Hst]. lia. }
    exists (F32.mul x g). split; [exact Hy|]. apply mul_gain_polarity. exact Hg.
Qed.

(** X14.  For a target between zero and one and a buffer of binary32
    samples, the normalizer keeps the polarity of every sample: a sample
    that is not below zero does not come out below zero, one that is not
    above zero does not come out above zero, and a zero comes out as a
    zero. *)
Theorem normalizer_keeps_polarity powf wav db_level spc wav' :
  F32.valid (db_to_linear powf db_level) = true ->
  F32.leb F32.zero (db_to_linear powf db_level) = true ->
  F32.leb (db_to_linear powf db_level) c_1f = true ->
  Forall (fun x => F32.valid x = true) (m_data wav) ->
  normalize_samples_per_chunk wav = Ok spc -> 0 < spc -> size wav < 2 ^ 32 ->
  NormalizeAudioWaveform powf wav db_level = Ok wav' ->
  forall (i : nat) (x : float),
    m_data wav !! i = Some x ->
    exists y, m_data wav' !! i = Some y
      /\ (F32.ltb x F32.zero = false -> F32.ltb y F32.zero = false)
      /\ (F32.ltb F32.zero x = false -> F32.ltb F32.zero y = false)
      /\ (forall s, x = S754_zero s -> exists s', y = S754_zero s').
Proof.
  intros Hv H0 H1. apply normalize_polarity. apply target_ok_intro; assumption.
Qed.

Lemma normalizer_keeps_polarity_witness :
  exists y, [F32.zero; F32.zero; c_1_05f] !! 2%nat = Some y
    /\ (F32.ltb c_1f F32.zero = false -> F32.ltb y F32.zero = false)
    /\ (F32.ltb F32.zero c_1f = false -> F32.ltb F32.zero y = false)
    /\ (forall s, c_1f = S754_zero s -> exists s', y = S754_zero s').
Proof.
  apply (normalizer_keeps_polarity powf_exact wav_tail F32.zero 2
           {| m_frequency := 200; m_data := [F32.zero; F32.zero; c_1_05f] |});
    try (vm_compute; reflexivity).
  repeat constructor.
Defined.

(** ** The chunk sizes: which rates give a chunk of at least one sample *)

Lemma Zdigits2_unique m k : 0 < k -> 2 ^ (k - 1) <= m < 2 ^ k -> Zdigits2 m = k.
Proof.
  intros Hk Hm.
  assert (Hpos : 0 < m).
  { assert (0 < 2 ^ (k - 1)) by (apply Z.pow_pos_nonneg; lia). lia. }
  destruct (Zdigits2_spec m Hpos) as (Hd & Hlo & Hhi).
  assert (Hle : Zdigits2 m <= k) by (apply Zdigits2_le; lia).
  destruct (Z.lt_ge_cases (Zdigits2 m) k) as [Hlt|]; [|lia].
  assert (2 ^ Zdigits2 m <= 2 ^ (k - 1)) by (apply Z.pow_le_mono_r; lia). lia.
Qed.

Lemma iter_xO_pow m p : Z.pos (Pos.iter xO m p) = Z.pos m * 2 ^ Z.pos p.
Proof.
  induction p as [|p IH] using Pos.peano_ind.
  - cbn [Pos.iter]. change (2 ^ 1) with 2. lia.
  - rewrite Pos.iter_succ, Pos2Z.inj_xO, IH, Pos2Z.inj_succ, Z.pow_succ_r by lia. lia.
Qed.

Section RoundingWindow.
Variables prec emax : Z.
Hypothesis Hprec : 0 < prec.

(** In the normal range a rounding gives a number with a full mantissa,
    at the exponent the digits of the input call for or one above. *)
Lemma round_aux_window s m e l :
  0 < m -> e <= Zdigits2 m + e - prec ->
  3 - emax - prec <= Zdigits2 m + e - prec ->
  Zdigits2 m + e - prec + 1 <= emax - prec ->
  exists m2 e2,
    binary_round_aux prec emax s m e l = S754_finite s m2 e2
    /\ 2 ^ (prec - 1) <= Z.pos m2 < 2 ^ prec
    /\ Zdigits2 m + e - prec <= e2 <= Zdigits2 m + e - prec + 1.
Proof.
  intros Hm He Hmin Hmax. set (E := Zdigits2 m + e - prec) in *.
  destruct (Zdigits2_spec m Hm) as (Hd & Hlo & Hhi).
  unfold binary_round_aux.
  destruct (shr_fexp_spec prec emax m e l ltac:(lia)) as (mrs1 & e1 & -> & He1 & Hm1).
  unfold fexp, emin in He1.
  assert (e1 = E) as -> by lia.
  set (m1 := shr_m mrs1) in *.
  assert (Hp : 0 < 2 ^ (E - e)) by (apply Z.pow_pos_nonneg; lia).
  assert (Hsplit : 2 ^ Zdigits2 m = 2 ^ (E - e) * 2 ^ prec).
  { rewrite <- Z.pow_add_r by lia. f_equal. lia. }
  assert (Hsplit1 : 2 ^ (Zdigits2 m - 1) = 2 ^ (E - e) * 2 ^ (prec - 1)).
  { rewrite <- Z.pow_add_r by lia. f_equal. lia. }
  assert (Hm1r : 2 ^ (prec - 1) <= m1 < 2 ^ prec).
  { rewrite Hm1. split.
    - apply Z.div_le_lower_bound; lia.
    - apply Z.div_lt_upper_bound; lia. }
  set (r := round_nearest_even m1 (loc_of_shr_record mrs1)).
  pose proof (round_nearest_even_range m1 (loc_of_shr_record mrs1)) as Hr. fold r in Hr.
  assert (Hpp : 0 < 2 ^ (prec - 1)) by (apply Z.pow_pos_nonneg; lia).
  assert (Hpow : 2 ^ prec = 2 * 2 ^ (prec - 1)).
  { rewrite <- Z.pow_succ_r by lia. f_equal. lia. }
  destruct (shr_fexp_spec prec emax r E loc_Exact ltac:(lia)) as (mrs2 & e2 & -> & He2 & Hm2).
  unfold fexp, emin in He2.
  destruct (Z.lt_ge_cases r (2 ^ prec)) as [Hlt|Hge].
  - assert (Hdr : Zdigits2 r = prec) by (apply Zdigits2_unique; lia).
    rewrite Hdr in He2. assert (e2 = E) as -> by lia.
    rewrite Z.sub_diag, Z.div_1_r in Hm2. rewrite Hm2.
    destruct r as [|p|p]; try lia.
    destruct (Z.leb_spec E (emax - prec)); [|lia].
    exists p, E. split; [reflexivity|]. split; lia.
  - assert (r = 2 ^ prec) as Hreq by lia.
    assert (Hdr : Zdigits2 r = prec + 1).
    { apply Zdigits2_unique; [lia|]. replace (prec + 1 - 1) with prec by lia.
      replace (2 ^ (prec + 1)) with (2 * 2 ^ prec)
        by (rewrite <- Z.pow_succ_r by lia; f_equal; lia).
      lia. }
    rewrite Hdr in He2. assert (e2 = E + 1) as -> by lia.
    replace (E + 1 - E) with 1 in Hm2 by lia. change (2 ^ 1) with 2 in Hm2.
    rewrite Hreq, Hpow in Hm2. rewrite Z.mul_comm, Z.div_mul in Hm2 by lia.
    rewrite Hm2.
    destruct (2 ^ (prec - 1)) as [|p|p] eqn:Ep; try lia.
    destruct (Z.leb_spec (E + 1) (emax - prec)); [|lia].
    exists p, (E + 1). split; [reflexivity|]. split; lia.
Qed.

Lemma binary_round_window s m e :
  3 - emax - prec <= Z.pos (digits2_pos m) + e - prec ->
  Z.pos (digits2_pos m) + e - prec + 1 <= emax - prec ->
  exists m2 e2,
    binary_round prec emax s m e = S754_finite s m2 e2
    /\ 2 ^ (prec - 1) <= Z.pos m2 < 2 ^ prec
    /\ Z.pos (digits2_pos m) + e - prec <= e2 <= Z.pos (digits2_pos m) + e - prec + 1.
Proof.
  intros Hmin Hmax. set (E := Z.pos (digits2_pos m) + e - prec) in *.
  unfold binary_round, shl_align.
  assert (Hf : fexp prec emax (Z.pos (digits2_pos m) + e) = E).
  { unfold fexp, emin. lia. }
  rewrite Hf.
  pose proof (digits2_pos_spec m) as Hdm.
  destruct (E - e) as [|p|p] eqn:Ep.
  - destruct (round_aux_window s (Z.pos m) e loc_Exact) as (m2 & e2 & H & Hr & He2);
      cbn [Zdigits2]; try lia.
    exists m2, e2. split; [exact H|]. split; [exact Hr|]. cbn [Zdigits2] in He2. lia.
  - destruct (round_aux_window s (Z.pos m) e loc_Exact) as (m2 & e2 & H & Hr & He2);
      cbn [Zdigits2]; try lia.
    exists m2, e2. split; [exact H|]. split; [exact Hr|]. cbn [Zdigits2] in He2. lia.
  - assert (Hd : Zdigits2 (Z.pos (Pos.iter xO m p)) = prec).
    { apply Zdigits2_unique; [lia|]. rewrite iter_xO_pow.
      assert (Hp : 0 < 2 ^ Z.pos p) by (apply Z.pow_pos_nonneg; lia).
      assert (H1 : 2 ^ (prec - 1) = 2 ^ (Z.pos (digits2_pos m) - 1) * 2 ^ Z.pos p).
      { rewrite <- Z.pow_add_r by lia. f_equal. lia. }
      assert (H2 : 2 ^ prec = 2 ^ Z.pos (digits2_pos m) * 2 ^ Z.pos p).
      { rewrite <- Z.pow_add_r by lia. f_equal. lia. }
      rewrite H1, H2. split.
      - apply Z.mul_le_mono_nonneg_r; lia.
      - apply Z.mul_lt_mono_pos_r; lia. }
    destruct (round_aux_window s (Z.pos (Pos.iter xO m p)) E loc_Exact)
      as (m2 & e2 & H & Hr & He2); rewrite ?Hd; try lia.
    exists m2, e2. split; [exact H|]. split; [exact Hr|]. rewrite Hd in He2. lia.
Qed.

Lemma mul_window sx mx ex sy my ey :
  2 ^ (prec - 1) <= Z.pos mx < 2 ^ prec -> 2 ^ (prec - 1) <= Z.pos my < 2 ^ prec ->
  3 - emax - prec <= ex + ey + prec - 1 -> ex + ey + prec + 1 <= emax - prec ->
  exists m2 e2,
    SFmul prec emax (S754_finite sx mx ex) (S754_finite sy my ey)
      = S754_finite (xorb sx sy) m2 e2
    /\ 2 ^ (prec - 1) <= Z.pos m2 < 2 ^ prec
    /\ ex + ey + prec - 1 <= e2 <= ex + ey + prec + 1.
Proof.
  intros Hx Hy Hmin Hmax. cbn [SFmul].
  assert (Hpp : 0 < 2 ^ (prec - 1)) by (apply Z.pow_pos_nonneg; lia).
  assert (Hpow : 2 ^ prec = 2 * 2 ^ (prec - 1)).
  { rewrite <- Z.pow_succ_r by lia. f_equal. lia. }
  assert (Hlo : 2 ^ (2 * prec - 1 - 1) <= Z.pos (mx * my)).
  { replace (2 * prec - 1 - 1) with ((prec - 1) + (prec - 1)) by lia.
    rewrite Z.pow_add_r by lia. rewrite Pos2Z.inj_mul.
    apply Z.mul_le_mono_nonneg; lia. }
  assert (Hhi : Z.pos (mx * my) < 2 ^ (2 * prec)).
  { replace (2 * prec) with (prec + prec) by lia.
    rewrite Z.pow_add_r by lia. rewrite Pos2Z.inj_mul.
    apply Z.mul_lt_mono_nonneg; lia. }
  assert (Hd : 2 * prec - 1 <= Zdigits2 (Z.pos (mx * my)) <= 2 * prec).
  { split.
    - destruct (Zdigits2_spec (Z.pos (mx * my)) ltac:(lia)) as (Hd0 & _ & Hlt).
      destruct (Z.lt_ge_cases (Zdigits2 (Z.pos (mx * my))) (2 * prec - 1)); [|lia].
      assert (2 ^ Zdigits2 (Z.pos (mx * my)) <= 2 ^ (2 * prec - 1 - 1))
        by (apply Z.pow_le_mono_r; lia).
      lia.
    - apply Zdigits2_le; lia. }
  destruct (round_aux_window (xorb sx sy) (Z.pos (mx * my)) (ex + ey) loc_Exact)
    as (m2 & e2 & H & Hr & He2); try lia.
  exists m2, e2. split; [exact H|]. split; [exact Hr|]. lia.
Qed.
End RoundingWindow.

Lemma of_Z_window prec emax z :
  0 < prec -> 0 < z ->
  3 - emax - prec <= Zdigits2 z - prec -> Zdigits2 z - prec + 1 <= emax - prec ->
  exists m e,
    binary_normalize prec emax z 0 false = S754_finite false m e
    /\ 2 ^ (prec - 1) <= Z.pos m < 2 ^ prec
    /\ Zdigits2 z - prec <= e <= Zdigits2 z - prec + 1.
Proof.
  intros Hprec Hz Hmin Hmax. destruct z as [|p|p]; try lia.
  cbn [binary_normalize Zdigits2] in *.
  destruct (binary_round_window prec emax Hprec false p 0) as (m & e & H & Hm & He);
    try lia.
  exists m, e. split; [exact H|]. split; [exact Hm|lia].
Qed.

Lemma pow2_le a b : 0 <= a <= b -> 2 ^ a <= 2 ^ b.
Proof. intros H. apply Z.pow_le_mono_r; lia. Qed.

(** The truncation of a number with a full binary64 or binary32 mantissa
    at a moderate exponent. *)
Lemma cast_unsigned_window prec m e :
  0 < prec <= 53 -> 2 ^ (prec - 1) <= Z.pos m < 2 ^ prec ->
  1 - prec <= e -> prec + e <= 31 ->
  exists z, cast_unsigned (S754_finite false m e) = Ok z /\ 1 <= z.
Proof.
  intros Hprec Hm Hlo Hhi. unfold cast_unsigned. cbn [trunc].
  assert (Hpp : 0 < 2 ^ (prec - 1)) by (apply Z.pow_pos_nonneg; lia).
  assert (H31 : 2 ^ 31 < 2 ^ 32) by reflexivity.
  destruct (Z.leb_spec 0 e) as [He|He].
  - assert (Hpe : 0 < 2 ^ e) by (apply Z.pow_pos_nonneg; lia).
    assert (Hub : Z.pos m * 2 ^ e < 2 ^ 31).
    { eapply Z.lt_le_trans; [apply Z.mul_lt_mono_pos_r; [exact Hpe|apply Hm]|].
      rewrite <- Z.pow_add_r by lia. apply pow2_le. lia. }
    destruct (Z.leb_spec 0 (Z.pos m * 2 ^ e)); [|nia].
    destruct (Z.ltb_spec (Z.pos m * 2 ^ e) (2 ^ 32)); [|lia].
    cbn [andb]. eexists. split; [reflexivity|]. nia.
  - assert (Hpe : 0 < 2 ^ (- e)) by (apply Z.pow_pos_nonneg; lia).
    assert (Hle : 2 ^ (- e) <= 2 ^ (prec - 1)) by (apply pow2_le; lia).
    assert (Hq1 : 1 <= Z.pos m / 2 ^ (- e)).
    { apply Z.div_le_lower_bound; lia. }
    assert (Hq2 : Z.pos m / 2 ^ (- e) < 2 ^ 31).
    { apply Z.div_lt_upper_bound; [lia|].
      eapply Z.lt_le_trans; [apply Hm|].
      rewrite <- Z.pow_add_r by lia. apply pow2_le. lia. }
    destruct (Z.leb_spec 0 (Z.pos m / 2 ^ (- e))); [|lia].
    destruct (Z.ltb_spec (Z.pos m / 2 ^ (- e)) (2 ^ 32)); [|lia].
    cbn [andb]. eexists. split; [reflexivity|]. lia.
Qed.

Lemma Zdigits2_window z lo hi :
  0 < lo -> 0 <= hi -> 2 ^ (lo - 1) <= z < 2 ^ hi -> lo <= Zdigits2 z <= hi.
Proof.
  intros Hlo Hhi Hz.
  assert (Hpos : 0 < z).
  { assert (0 < 2 ^ (lo - 1)) by (apply Z.pow_pos_nonneg; lia). lia. }
  destruct (Zdigits2_spec z Hpos) as (Hd & Hdlo & Hdhi).
  split.
  - destruct (Z.lt_ge_cases (Zdigits2 z) lo); [|lia].
    assert (2 ^ Zdigits2 z <= 2 ^ (lo - 1)) by (apply pow2_le; lia). lia.
  - destruct (Z.le_gt_cases (Zdigits2 z) hi); [assumption|].
    assert (2 ^ hi <= 2 ^ (Zdigits2 z - 1)) by (apply pow2_le; lia). lia.
Qed.

(** The chunk size of the segmenter, [rate * 0.05] in double. *)
Lemma segment_chunk_low f :
  0 <= f < 20 -> cast_unsigned (F64.mul (F64.of_Z f) c_0_05) = Ok 0.
Proof.
  intros Hf.
  set (chk := fun f => match cast_unsigned (F64.mul (F64.of_Z f) c_0_05) with
                        | Ok z => z =? 0
                        | Fault _ => false
                        end).
  assert (H : chk f = true).
  { destruct (Z.lt_ge_cases f 16).
    - apply (check_range_spec chk 4 0); [vm_compute; reflexivity|].
      change (2 ^ Z.of_nat 4) with 16. lia.
    - apply (check_range_spec chk 2 16); [vm_compute; reflexivity|].
      change (2 ^ Z.of_nat 2) with 4. lia. }
  unfold chk in H. destruct (cast_unsigned _) as [z|]; [|discriminate].
  apply Z.eqb_eq in H. congruence.
Qed.

Lemma segment_chunk_high f :
  20 <= f < 2 ^ 32 ->
  exists z, cast_unsigned (F64.mul (F64.of_Z f) c_0_05) = Ok z /\ 1 <= z.
Proof.
  intros Hf. destruct (Z.lt_ge_cases f 32) as [Hmid|Hhigh].
  - set (chk := fun f => match cast_unsigned (F64.mul (F64.of_Z f) c_0_05) with
                          | Ok z => 1 <=? z
                          | Fault _ => false
                          end).
    assert (H : chk f = true).
    { destruct (Z.lt_ge_cases f 24).
      - apply (check_range_spec chk 2 20); [vm_compute; reflexivity|].
        change (2 ^ Z.of_nat 2) with 4. lia.
      - apply (check_range_spec chk 3 24); [vm_compute; reflexivity|].
        change (2 ^ Z.of_nat 3) with 8. lia. }
    unfold chk in H. destruct (cast_unsigned _) as [z|]; [|discriminate].
    apply Z.leb_le in H. eauto.
  - assert (Hd : 6 <= Zdigits2 f <= 32).
    { apply Zdigits2_window; [lia|lia|]. change (2 ^ (6 - 1)) with 32. lia. }
    unfold F64.of_Z, F64.mul, F64.prec, F64.emax.
    destruct (of_Z_window 53 1024 f) as (mf & ef & -> & Hmf & Hef); try lia.
    unfold c_0_05.
    destruct (mul_window 53 1024 ltac:(lia) false mf ef false 7205759403792794 (-57))
      as (m2 & e2 & -> & Hm2 & He2); try lia.
    cbn [xorb].
    apply (cast_unsigned_window 53 m2 e2); lia.
Qed.

(** The chunk size of the normalizer, [rate * 0.01f] in float. *)
Lemma normalize_chunk_low f :
  0 <= f < 100 -> cast_unsigned (F32.mul (F32.of_Z f) c_0_01f) = Ok 0.
Proof.
  intros Hf.
  set (chk := fun f => match cast_unsigned (F32.mul (F32.of_Z f) c_0_01f) with
                        | Ok z => z =? 0
                        | Fault _ => false
                        end).
  assert (H : chk f = true).
  { destruct (Z.lt_ge_cases f 64); [|destruct (Z.lt_ge_cases f 96)].
    - apply (check_range_spec chk 6 0); [vm_compute; reflexivity|].
      change (2 ^ Z.of_nat 6) with 64. lia.
    - apply (check_range_spec chk 5 64); [vm_compute; reflexivity|].
      change (2 ^ Z.of_nat 5) with 32. lia.
    - apply (check_range_spec chk 2 96); [vm_compute; reflexivity|].
      change (2 ^ Z.of_nat 2) with 4. lia. }
  unfold chk in H. destruct (cast_unsigned _) as [z|]; [|discriminate].
  apply Z.eqb_eq in H. congruence.
Qed.

Lemma normalize_chunk_high f :
  100 <= f < 2 ^ 32 ->
  exists z, cast_unsigned (F32.mul (F32.of_Z f) c_0_01f) = Ok z /\ 1 <= z.
Proof.
  intros Hf. destruct (Z.lt_ge_cases f 128) as [Hmid|Hhigh].
  - set (chk := fun f => match cast_unsigned (F32.mul (F32.of_Z f) c_0_01f) with
                          | Ok z => 1 <=? z
                          | Fault _ => false
                          end).
    assert (H : chk f = true).
    { destruct (Z.lt_ge_cases f 104); [|destruct (Z.lt_ge_cases f 112)].
      - apply (check_range_spec chk 2 100); [vm_compute; reflexivity|].
        change (2 ^ Z.of_nat 2) with 4. lia.
      - apply (check_range_spec chk 3 104); [vm_compute; reflexivity|].
        change (2 ^ Z.of_nat 3) with 8. lia.
      - apply (check_range_spec chk 4 112); [vm_compute; reflexivity|].
        change (2 ^ Z.of_nat 4) with 16. lia. }
    unfold chk in H. destruct (cast_unsigned _) as [z|]; [|discriminate].
    apply Z.leb_le in H. eauto.
  - assert (Hd : 8 <= Zdigits2 f <= 32).
    { apply Zdigits2_window; [lia|lia|]. change (2 ^ (8 - 1)) with 128. lia. }
    unfold F32.of_Z, F32.mul, F32.prec, F32.emax.
    destruct (of_Z_window 24 128 f) as (mf & ef & -> & Hmf & Hef); try lia.
    unfold c_0_01f.
    destruct (mul_window 24 128 ltac:(lia) false mf ef false 10737418 (-30))
      as (m2 & e2 & -> & Hm2 & He2); try lia.
    cbn [xorb].
    apply (cast_unsigned_window 24 m2 e2); lia.
Qed.

(** X15.  With a rate below 2^32 and fewer than 2^32 samples, the
    segmenter returns a list exactly when the rate is at least 20 Hz:
    from 20 Hz on a chunk has at least one sample, and below 20 Hz the
    chunk size is zero and the chunk count is a division by zero,
    whatever the buffer holds. *)
Theorem segmenter_needs_20_hertz powf wav :
  0 <= m_frequency wav < 2 ^ 32 -> size wav < 2 ^ 32 ->
  (m_frequency wav < 20 -> FindSegmentsInAudioWaveform powf wav = Fault DivisionByZero)
  /\ (20 <= m_frequency wav -> exists l, FindSegmentsInAudioWaveform powf wav = Ok l).
Proof.
  intros Hf Hsz. split; intros Hrate.
  - unfold FindSegmentsInAudioWaveform, segment_samples_per_chunk.
    rewrite segment_chunk_low by lia. reflexivity.
  - destruct (segment_chunk_high (m_frequency wav) ltac:(lia)) as (spc & Hspc & Hpos).
    apply (FindSegments_returns powf wav spc); [exact Hspc|lia|exact Hsz].
Qed.

Lemma segmenter_needs_20_hertz_witness :
  (m_frequency wav_silent < 20 ->
   FindSegmentsInAudioWaveform powf_exact wav_silent = Fault DivisionByZero)
  /\ (20 <= m_frequency wav_silent ->
      exists l, FindSegmentsInAudioWaveform powf_exact wav_silent = Ok l).
Proof.
  apply (segmenter_needs_20_hertz powf_exact wav_silent);
    [cbn [m_frequency wav_silent]; lia|vm_compute; reflexivity].
Defined.

Lemma normalize_returns powf wav db_level spc :
  normalize_samples_per_chunk wav = Ok spc -> 0 < spc -> size wav < 2 ^ 32 ->
  exists wav', NormalizeAudioWaveform powf wav db_level = Ok wav'.
Proof.
  intros Hc Hspc Hsz.
  destruct (Z.lt_ge_cases (size wav) spc) as [Hshort|Hlong].
  - exists wav. apply (normalize_short_unchanged powf wav db_level spc Hc Hshort).
  - unfold NormalizeAudioWaveform.
    destruct (m_data wav) as [|y ys] eqn:E; [eauto|].
    destruct (normalize_to_adjusts (db_to_linear powf db_level) wav spc Hc Hspc
                ltac:(lia)) as (wav' & Hrun & _).
    eauto.
Qed.

(** X16.  With a rate below 2^32 and a buffer that is not empty and has
    fewer than 2^32 samples, the normalizer returns a waveform exactly
    when the rate is at least 100 Hz; below 100 Hz its chunk size is zero
    and the chunk count is a division by zero. *)
Theorem normalizer_needs_100_hertz powf wav db_level :
  0 <= m_frequency wav < 2 ^ 32 -> m_data wav <> [] -> size wav < 2 ^ 32 ->
  (m_frequency wav < 100 ->
   NormalizeAudioWaveform powf wav db_level = Fault DivisionByZero)
  /\ (100 <= m_frequency wav ->
      exists wav', NormalizeAudioWaveform powf wav db_level = Ok wav').
Proof.
  intros Hf Hne Hsz. split; intros Hrate.
  - unfold NormalizeAudioWaveform.
    destruct (m_data wav) as [|y ys] eqn:E; [contradiction|].
    unfold normalize_to, normalize_samples_per_chunk.
    rewrite normalize_chunk_low by lia. reflexivity.
  - destruct (normalize_chunk_high (m_frequency wav) ltac:(lia)) as (spc & Hspc & Hpos).
    apply (normalize_returns powf wav db_level spc); [exact Hspc|lia|exact Hsz].
Qed.

Lemma normalizer_needs_100_hertz_witness :
  (m_frequency wav_tail < 100 ->
   NormalizeAudioWaveform powf_exact wav_tail F32.zero = Fault DivisionByZero)
  /\ (100 <= m_frequency wav_tail ->
      exists wav', NormalizeAudioWaveform powf_exact wav_tail F32.zero = Ok wav').
Proof.
  apply (normalizer_needs_100_hertz powf_exact wav_tail F32.zero);
    [cbn [m_frequency wav_tail]; lia|discriminate|vm_compute; reflexivity].
Defined.

(** ** The range of the encoder *)

Lemma binary_round_aux_opp prec emax m e l :
  binary_round_aux prec emax true m e l = SFopp (binary_round_aux prec emax false m e l).
Proof.
  unfold binary_round_aux.
  destruct (shr_fexp prec emax m e l) as [mrs' e'].
  destruct (shr_fexp prec emax _ e' loc_Exact) as [mrs'' e''].
  destruct (shr_m mrs'') as [|p|p]; try reflexivity.
  destruct (e'' <=? emax - prec); reflexivity.
Qed.

Lemma trunc_opp x : trunc (SFopp x) = option_map Z.opp (trunc x).
Proof.
  destruct x as [s|s| |s m e]; cbn [SFopp trunc option_map]; try reflexivity.
  destruct s; cbn [negb]; [rewrite Z.opp_involutive|]; reflexivity.
Qed.

(** The product of a positive binary32 number with 32768: the same
    mantissa fifteen exponents up when the number is normal, and less
    than one when it is subnormal. *)
Lemma mul_32768_positive m e :
  bounded 24 128 m e = true ->
  (-149 < e ->
   F32.mul (S754_finite false m e) c_32768f
   = if e + 15 <=? 104 then S754_finite false m (e + 15) else S754_infinity false)
  /\ (e = -149 -> trunc (F32.mul (S754_finite false m e) c_32768f) = Some 0).
Proof.
  intros Hb. unfold bounded in Hb. apply andb_true_iff in Hb. destruct Hb as [Hcan Hle].
  apply Z.leb_le in Hle.
  destruct (canonical_digits m e Hcan) as (Hlt & Hnormal).
  unfold canonical_mantissa in Hcan. rewrite fexp32 in Hcan. apply Z.eqb_eq in Hcan.
  pose proof (digits2_pos_spec m) as (Hdlo & Hdhi).
  unfold F32.mul, c_32768f. cbn [SFmul xorb].
  change F32.prec with 24. change F32.emax with 128.
  rewrite Pos2Z.inj_mul. change (Z.pos 8388608) with (2 ^ 23).
  set (q := Z.pos m * 2 ^ 23).
  assert (Hq : 0 < q) by (unfold q; lia).
  assert (Hdq : Zdigits2 q = Z.pos (digits2_pos m) + 23).
  { apply Zdigits2_unique; [lia|]. unfold q.
    replace (Z.pos (digits2_pos m) + 23 - 1) with (Z.pos (digits2_pos m) - 1 + 23) by lia.
    rewrite !Z.pow_add_r by lia. lia. }
  destruct (binary_round_aux_steps q 1 q (e + -8) loc_Exact ltac:(lia) ltac:(lia))
    as (m1 & l1 & e1 & -> & He1 & Hm1 & Hloc & Hm1r).
  { cbn [loc_at]. lia. }
  rewrite fexp32, Hdq in He1.
  split.
  - intros He. specialize (Hnormal He).
    assert (Hd : Z.pos (digits2_pos m) = 24) by lia.
    assert (e1 = e + 15) as -> by lia.
    replace (e + 15 - (e + -8)) with 23 in * by lia.
    assert (m1 = Z.pos m) as ->.
    { rewrite Hm1. unfold q. apply Z.div_mul. lia. }
    assert (l1 = loc_Exact) as ->.
    { destruct l1 as [|c]; [reflexivity|]. cbn [loc_at] in Hloc. unfold q in Hloc. lia. }
    cbn [round_nearest_even]. unfold norm32.
    destruct (Z.eqb_spec (Z.pos m) 0); [lia|].
    destruct (Z.ltb_spec (Z.pos m) (2 ^ 24)); [|lia].
    reflexivity.
  - intros ->.
    assert (He1le : e1 <= -134) by lia.
    set (r := round_nearest_even m1 l1).
    pose proof (round_nearest_even_range m1 l1) as Hr. fold r in Hr.
    assert (Hbig : 2 ^ 24 < 2 ^ 134) by reflexivity.
    assert (Hp : 2 ^ 134 <= 2 ^ (- e1)) by (apply pow2_le; lia).
    assert (Hbig1 : 2 ^ 24 < 2 ^ 133) by reflexivity.
    assert (Hp1 : 2 ^ 133 <= 2 ^ (- (e1 + 1))) by (apply pow2_le; lia).
    unfold norm32.
    destruct (Z.eqb_spec r 0); [reflexivity|].
    destruct (Z.ltb_spec r (2 ^ 24)).
    + destruct (Z.leb_spec e1 104); [|lia]. cbn [trunc].
      destruct (Z.leb_spec 0 e1); [lia|].
      rewrite Z2Pos.id by lia. rewrite Z.div_small by lia. reflexivity.
    + destruct (Z.leb_spec (e1 + 1) 104); [|lia]. cbn [trunc].
      destruct (Z.leb_spec 0 (e1 + 1)); [lia|].
      rewrite Z2Pos.id by lia. rewrite Z.div_small; [reflexivity|].
      change (2 ^ 23) with 8388608. lia.
Qed.

Lemma trunc_mul_32768 s m e :
  bounded 24 128 m e = true ->
  trunc (F32.mul (S754_finite s m e) c_32768f)
  = if e =? -149 then Some 0
    else if 104 <? e + 15 then None
    else Some (let a := if 0 <=? e + 15 then Z.pos m * 2 ^ (e + 15)
                        else Z.pos m / 2 ^ (- (e + 15)) in
               if s then - a else a).
Proof.
  intros Hb.
  assert (Hpos : trunc (F32.mul (S754_finite false m e) c_32768f)
                 = if e =? -149 then Some 0
                   else if 104 <? e + 15 then None
                   else Some (if 0 <=? e + 15 then Z.pos m * 2 ^ (e + 15)
                              else Z.pos m / 2 ^ (- (e + 15)))).
  { destruct (mul_32768_positive m e Hb) as (Hnormal & Hsub).
    destruct (Z.eqb_spec e (-149)) as [He|He]; [exact (Hsub He)|].
    assert (He' : -149 < e).
    { unfold bounded, canonical_mantissa in Hb. rewrite fexp32 in Hb.
      apply andb_true_iff in Hb. destruct Hb as [Hc _]. apply Z.eqb_eq in Hc. lia. }
    rewrite (Hnormal He').
    destruct (Z.leb_spec (e + 15) 104), (Z.ltb_spec 104 (e + 15)); try lia; reflexivity. }
  destruct s; [|exact Hpos].
  assert (Hopp : F32.mul (S754_finite true m e) c_32768f
                 = SFopp (F32.mul (S754_finite false m e) c_32768f)).
  { unfold F32.mul, c_32768f. cbn [SFmul xorb]. apply binary_round_aux_opp. }
  rewrite Hopp, trunc_opp, Hpos.
  destruct (e =? -149); [reflexivity|]. destruct (104 <? e + 15); reflexivity.
Qed.

Lemma encoder_domain_finite s m e :
  bounded 24 128 m e = true ->
  (exists z, pcm_of_sample (S754_finite s m e) = Ok z)
  <-> F32.ltb (S754_finite s m e) c_1f = true
      /\ F32.ltb below_minus_one (S754_finite s m e) = true.
Proof.
  intros Hb. unfold pcm_of_sample, cast_int16. rewrite (trunc_mul_32768 s m e Hb).
  unfold bounded in Hb. apply andb_true_iff in Hb. destruct Hb as [Hcan Hle].
  destruct (canonical_digits m e Hcan) as (Hlt & Hnormal).
  unfold canonical_mantissa in Hcan. rewrite fexp32 in Hcan. apply Z.eqb_eq in Hcan.
  change (2 ^ 24) with 16777216 in Hlt. change (2 ^ 23) with 8388608 in Hnormal.
  unfold F32.ltb, SFltb, SFcompare, c_1f, below_minus_one.
  destruct (Z.eqb_spec e (-149)) as [->|He].
  - (* the lowest exponent *)
    change (- 32768 <=? 0) with true. change (0 <=? 32767) with true. cbn [andb].
    destruct s; cbn [Z.compare]; split; eauto.
  - assert (He' : -149 < e) by lia. specialize (Hnormal He').
    destruct (Z.ltb_spec 104 (e + 15)) as [Hinf|Hfin].
    { (* the product is infinite *)
      destruct s; (split; [intros [z Hz]; discriminate|]);
        destruct (Z.compare_spec e (-23)), (Z.compare_spec (-23) e); try lia;
        intros [H1 H2]; discriminate. }
    cbv zeta.
    destruct (Z.leb_spec 0 (e + 15)) as [Hup|Hdown].
    + (* an integer of at least 2^23 *)
      assert (Hpe : 1 <= 2 ^ (e + 15)).
      { change 1 with (2 ^ 0). apply pow2_le. lia. }
      assert (Hbig : 8388608 <= Z.pos m * 2 ^ (e + 15)) by nia.
      destruct s.
      * destruct (Z.leb_spec (- 32768) (- (Z.pos m * 2 ^ (e + 15)))); [lia|].
        cbn [andb]. split; [intros [z Hz]; discriminate|].
        destruct (Z.compare_spec (-23) e); try lia; intros [_ H2]; discriminate.
      * destruct (Z.leb_spec (Z.pos m * 2 ^ (e + 15)) 32767); [lia|].
        rewrite andb_false_r. split; [intros [z Hz]; discriminate|].
        destruct (Z.compare_spec e (-23)); try lia; intros [H1 _]; discriminate.
    + (* a quotient *)
      set (k := - (e + 15)) in *.
      assert (Hpk : 0 < 2 ^ k) by (apply Z.pow_pos_nonneg; lia).
      pose proof (Z.mul_div_le (Z.pos m) (2 ^ k) Hpk) as Hqlo.
      pose proof (Z.mul_succ_div_gt (Z.pos m) (2 ^ k) Hpk) as Hqhi.
      set (t := Z.pos m / 2 ^ k) in *.
      destruct (Z.compare_spec e (-23)) as [He23|He23|He23].
      * (* exponent -23: the mantissa decides *)
        assert (k = 8) as Hk by lia. rewrite Hk in *. change (2 ^ 8) with 256 in *.
        destruct (Z.compare_spec (-23) e); try lia.
        destruct s.
        -- destruct (compare_cont_Eq_spec 8388864 m) as [Hm|Hm|Hm]; cbn [CompOpp].
           ++ injection Hm as <-.
              split; [|intros [_ H2]; discriminate].
              intros [z Hz]. exfalso.
              destruct (Z.leb_spec (- 32768) (- t)); [lia|discriminate].
           ++ split; [|intros [_ H2]; discriminate].
              intros [z Hz]. exfalso.
              destruct (Z.leb_spec (- 32768) (- t)); [lia|discriminate].
           ++ split; [intros _; split; reflexivity|]. intros _.
              destruct (Z.leb_spec (- 32768) (- t)); [|lia].
              destruct (Z.leb_spec (- t) 32767); [|lia]. eauto.
        -- destruct (compare_cont_Eq_spec m 8388608) as [Hm|Hm|Hm]; try lia.
           ++ split; [|intros [H1 _]; discriminate].
              intros [z Hz]. exfalso.
              destruct (Z.leb_spec t 32767); [lia|].
              rewrite andb_false_r in Hz. discriminate.
           ++ split; [|intros [H1 _]; discriminate].
              intros [z Hz]. exfalso.
              destruct (Z.leb_spec t 32767); [lia|].
              rewrite andb_false_r in Hz. discriminate.
      * (* below exponent -23: inside the range *)
        assert (H9 : 2 ^ 9 <= 2 ^ k) by (apply pow2_le; lia).
        change (2 ^ 9) with 512 in H9.
        assert (Ht : 0 <= t <= 32767) by nia.
        destruct (Z.compare_spec (-23) e); try lia.
        destruct s.
        -- destruct (Z.leb_spec (- 32768) (- t)); [|lia].
           destruct (Z.leb_spec (- t) 32767); [|lia].
           split; [intros _; split; reflexivity|eauto].
        -- destruct (Z.leb_spec (- 32768) t); [|lia].
           destruct (Z.leb_spec t 32767); [|lia].
           split; [intros _; split; reflexivity|eauto].
      * (* above exponent -23: outside the range *)
        assert (H7 : 2 ^ k <= 2 ^ 7) by (apply pow2_le; lia).
        change (2 ^ 7) with 128 in H7.
        assert (Ht : 65536 <= t) by nia.
        destruct (Z.compare_spec (-23) e); try lia.
        destruct s.
        -- destruct (Z.leb_spec (- 32768) (- t)); [lia|].
           split; [intros [z Hz]; discriminate|intros [_ H2]; discriminate].
        -- destruct (Z.leb_spec t 32767); [lia|]. rewrite andb_false_r.
           split; [intros [z Hz]; discriminate|intros [H1 _]; discriminate].
Qed.

(** X17.  The conversion to 16 bits is defined exactly for the samples
    strictly between -(1 + 2^-15) and 1.  The value 1.0 itself, the top of
    the range waveform.h gives for the samples, has no 16-bit value: its
    product with 32768 is 32768, outside [int16_t]; -1.0 gives -32768. *)
Theorem encoder_defined_below_one x :
  F32.valid x = true ->
  (exists z, pcm_of_sample x = Ok z)
  <-> F32.ltb x c_1f = true /\ F32.ltb below_minus_one x = true.
Proof.
  intros Hv. destruct x as [s|s| |s m e].
  - split; [intros _; destruct s; split; reflexivity|intros _; exists 0; destruct s; reflexivity].
  - split; [intros [z Hz]; destruct s; discriminate|].
    intros [H1 H2]. destruct s; discriminate.
  - split; [intros [z Hz]; discriminate|intros [H1 _]; discriminate].
  - apply encoder_domain_finite. exact Hv.
Qed.

Lemma encoder_defined_below_one_witness :
  ((exists z, pcm_of_sample c_1f = Ok z)
   <-> F32.ltb c_1f c_1f = true /\ F32.ltb below_minus_one c_1f = true)
  /\ ((exists z, pcm_of_sample (F32.opp c_1f) = Ok z)
      <-> F32.ltb (F32.opp c_1f) c_1f = true
          /\ F32.ltb below_minus_one (F32.opp c_1f) = true).
Proof.
  split.
  - apply (encoder_defined_below_one c_1f). vm_compute. reflexivity.
  - apply (encoder_defined_below_one (F32.opp c_1f)). vm_compute. reflexivity.
Defined.

(** ** Loading float samples *)






(** ** Values in units of the smallest number *)

Section Units.
Variables prec emax : Z.
Hypothesis Hprec : 1 < prec.
Hypothesis Hemax : prec < emax.

(** A rounding in units: the result is the floor of the input at the
    exponent of the rounding, or one more. *)
Lemma round_aux_units s q e l :
  0 <= q ->
  e <= fexp prec emax (Zdigits2 q + e) ->
  fexp prec emax (Zdigits2 q + e) + 1 <= emax - prec ->
  exists r',
    q / 2 ^ (fexp prec emax (Zdigits2 q + e) - e) <= r'
      <= q / 2 ^ (fexp prec emax (Zdigits2 q + e) - e) + 1
    /\ units (emin prec emax) (binary_round_aux prec emax s q e l)
       = r' * 2 ^ (fexp prec emax (Zdigits2 q + e) - emin prec emax)
    /\ valid_binary prec emax (binary_round_aux prec emax s q e l) = true
    /\ match binary_round_aux prec emax s q e l with
       | S754_zero s' | S754_finite s' _ _ => s' = s
       | _ => False
       end.
Proof.
  intros Hq He Hmax. set (e1 := fexp prec emax (Zdigits2 q + e)) in *.
  assert (Hemin : emin prec emax <= e1) by (unfold e1, fexp; lia).
  unfold binary_round_aux.
  destruct (shr_fexp_spec prec emax q e l Hq) as (mrs1 & e1' & -> & He1 & Hm1).
  fold e1 in He1. assert (e1' = e1) as -> by lia.
  set (m1 := shr_m mrs1) in *.
  assert (Hp : 0 < 2 ^ (e1 - e)) by (apply Z.pow_pos_nonneg; lia).
  assert (Hm1pos : 0 <= m1) by (rewrite Hm1; apply Z.div_pos; lia).
  assert (Hpp : 0 < 2 ^ (prec - 1)) by (apply Z.pow_pos_nonneg; lia).
  assert (Hpow : 2 ^ prec = 2 * 2 ^ (prec - 1)).
  { rewrite <- Z.pow_succ_r by lia. f_equal. lia. }
  (* the floor has at most [prec] digits, and all of them above [emin] *)
  assert (Hm1r : m1 < 2 ^ prec /\ (emin prec emax < e1 -> 2 ^ (prec - 1) <= m1)).
  { destruct (Z.eq_dec q 0) as [Hz|Hnz].
    - rewrite Hm1, Hz, Z.div_0_l by lia. split; [lia|].
      intros Hn. unfold e1, fexp in Hn, He. rewrite Hz in Hn, He.
      change (Zdigits2 0) with 0 in Hn, He. lia.
    - destruct (Zdigits2_spec q ltac:(lia)) as (Hd & Hlo & Hhi).
      split.
      + rewrite Hm1. apply Z.div_lt_upper_bound; [lia|].
        eapply Z.lt_le_trans; [exact Hhi|].
        rewrite <- Z.pow_add_r by lia. apply pow2_le. unfold e1, fexp. lia.
      + intros Hn. assert (Hsh : e1 - e = Zdigits2 q - prec) by (unfold e1, fexp in *; lia).
        rewrite Hm1, Hsh. apply Z.div_le_lower_bound; [apply Z.pow_pos_nonneg; lia|].
        rewrite <- Z.pow_add_r by lia.
        replace (Zdigits2 q - prec + (prec - 1)) with (Zdigits2 q - 1) by lia. exact Hlo. }
  destruct Hm1r as (Hm1lt & Hm1normal).
  set (r := round_nearest_even m1 (loc_of_shr_record mrs1)).
  pose proof (round_nearest_even_range m1 (loc_of_shr_record mrs1)) as Hr. fold r in Hr.
  exists r. rewrite <- Hm1. split; [exact Hr|].
  destruct (shr_fexp_spec prec emax r e1 loc_Exact ltac:(lia)) as (mrs2 & e2 & -> & He2 & Hm2).
  destruct (Z.eq_dec r 0) as [Hz|Hnz].
  { (* the result is a zero *)
    rewrite Hz in Hm2. rewrite Z.div_0_l in Hm2
      by (apply Z.pow_nonzero; [lia|]; lia).
    rewrite Hm2, Hz. cbn [units valid_binary]. repeat split; lia. }
  destruct (Z.lt_ge_cases r (2 ^ prec)) as [Hlt|Hge].
  - (* the rounded mantissa fits *)
    assert (Hdr : fexp prec emax (Zdigits2 r + e1) = e1).
    { destruct (Z.eq_dec e1 (emin prec emax)) as [Hsub|Hnorm].
      - assert (Zdigits2 r <= prec) by (apply Zdigits2_le; lia).
        unfold fexp. lia.
      - assert (Zdigits2 r = prec) as -> by (apply Zdigits2_unique; lia).
        unfold fexp. lia. }
    rewrite Hdr in He2. assert (e2 = e1) as -> by lia.
    rewrite Z.sub_diag, Z.div_1_r in Hm2. rewrite Hm2.
    destruct r as [|p|p] eqn:Er; try lia.
    destruct (Z.leb_spec e1 (emax - prec)); [|lia].
    cbn [units valid_binary]. split; [reflexivity|]. split; [|reflexivity].
    unfold bounded, canonical_mantissa. cbn [Zdigits2] in Hdr. rewrite Hdr.
    rewrite Z.eqb_refl. apply Z.leb_le. lia.
  - (* the rounding carried into the next binade *)
    assert (Hreq : r = 2 ^ prec) by lia.
    assert (Hd : Zdigits2 r = prec + 1).
    { apply Zdigits2_unique; [lia|]. replace (prec + 1 - 1) with prec by lia.
      replace (2 ^ (prec + 1)) with (2 * 2 ^ prec)
        by (rewrite <- Z.pow_succ_r by lia; f_equal; lia).
      lia. }
    assert (Hf : fexp prec emax (Zdigits2 r + e1) = e1 + 1).
    { rewrite Hd. unfold fexp. lia. }
    rewrite Hf in He2. assert (e2 = e1 + 1) as -> by lia.
    replace (e1 + 1 - e1) with 1 in Hm2 by lia. change (2 ^ 1) with 2 in Hm2.
    rewrite Hreq, Hpow in Hm2. rewrite Z.mul_comm, Z.div_mul in Hm2 by lia.
    rewrite Hm2.
    destruct (2 ^ (prec - 1)) as [|p|p] eqn:Ep; try lia.
    destruct (Z.leb_spec (e1 + 1) (emax - prec)); [|lia].
    cbn [units valid_binary]. split; [|split; [|reflexivity]].
    + rewrite Hreq, Hpow.
      replace (e1 + 1 - emin prec emax) with (Z.succ (e1 - emin prec emax)) by lia.
      rewrite Z.pow_succ_r by lia. lia.
    + unfold bounded, canonical_mantissa.
      assert (Hdp : Z.pos (digits2_pos p) = prec).
      { change (Z.pos (digits2_pos p)) with (Zdigits2 (Z.pos p)).
        apply Zdigits2_unique; lia. }
      rewrite Hdp. unfold fexp.
      apply andb_true_iff. split; [apply Z.eqb_eq; lia|apply Z.leb_le; lia].
Qed.

Lemma bounded_range m e :
  bounded prec emax m e = true ->
  emin prec emax <= e <= emax - prec
  /\ Z.pos m < 2 ^ prec /\ (emin prec emax < e -> 2 ^ (prec - 1) <= Z.pos m).
Proof.
  unfold bounded, canonical_mantissa, fexp. intros Hb.
  apply andb_true_iff in Hb. destruct Hb as [Hc Hle].
  apply Z.eqb_eq in Hc. apply Z.leb_le in Hle.
  pose proof (digits2_pos_spec m) as (Hlo & Hhi).
  split; [lia|]. split.
  - eapply Z.lt_le_trans; [exact Hhi|]. apply pow2_le. lia.
  - intros He. assert (Z.pos (digits2_pos m) = prec) as Hd by lia.
    rewrite Hd in Hlo. exact Hlo.
Qed.

(** Numbers that are not negative compare as their values do. *)
Lemma nonneg_compare a b :
  nonneg prec emax a = true -> nonneg prec emax b = true ->
  SFcompare a b = Some (units (emin prec emax) a ?= units (emin prec emax) b).
Proof.
  intros Ha Hb.
  destruct a as [sa|sa| |[|] ma ea]; try discriminate;
    destruct b as [sb|sb| |[|] mb eb]; try discriminate;
    cbn [nonneg] in Ha, Hb; cbn [SFcompare units].
  - reflexivity.
  - destruct (bounded_range mb eb Hb) as (He & _).
    assert (0 < 2 ^ (eb - emin prec emax)) by (apply Z.pow_pos_nonneg; lia).
    symmetry. f_equal. apply Z.compare_lt_iff. nia.
  - destruct (bounded_range ma ea Ha) as (He & _).
    assert (0 < 2 ^ (ea - emin prec emax)) by (apply Z.pow_pos_nonneg; lia).
    symmetry. f_equal. apply Z.compare_gt_iff. nia.
  - destruct (bounded_range ma ea Ha) as (Hea & Hma & Hna).
    destruct (bounded_range mb eb Hb) as (Heb & Hmb & Hnb).
    assert (Hpa : 0 < 2 ^ (ea - emin prec emax)) by (apply Z.pow_pos_nonneg; lia).
    assert (Hpb : 0 < 2 ^ (eb - emin prec emax)) by (apply Z.pow_pos_nonneg; lia).
    assert (Hpow : 2 ^ prec = 2 * 2 ^ (prec - 1)).
    { rewrite <- Z.pow_succ_r by lia. f_equal. lia. }
    f_equal. symmetry.
    destruct (Z.compare_spec ea eb) as [->|Hlt|Hgt].
    + destruct (compare_cont_Eq_spec ma mb) as [Hm|Hm|Hm].
      * apply Z.compare_eq_iff. injection Hm as ->. reflexivity.
      * apply Z.compare_lt_iff. apply Z.mul_lt_mono_pos_r; assumption.
      * apply Z.compare_gt_iff. apply Z.mul_lt_mono_pos_r; assumption.
    + apply Z.compare_lt_iff.
      assert (Hstep : 2 * 2 ^ (ea - emin prec emax) <= 2 ^ (eb - emin prec emax)).
      { rewrite <- Z.pow_succ_r by lia. apply pow2_le. lia. }
      specialize (Hnb ltac:(lia)). nia.
    + apply Z.compare_gt_iff.
      assert (Hstep : 2 * 2 ^ (eb - emin prec emax) <= 2 ^ (ea - emin prec emax)).
      { rewrite <- Z.pow_succ_r by lia. apply pow2_le. lia. }
      specialize (Hna ltac:(lia)). nia.
Qed.

Lemma nonneg_ltb a b :
  nonneg prec emax a = true -> nonneg prec emax b = true ->
  SFltb a b = (units (emin prec emax) a <? units (emin prec emax) b).
Proof.
  intros Ha Hb. unfold SFltb, Z.ltb. rewrite (nonneg_compare a b Ha Hb). reflexivity.
Qed.

Lemma nonneg_leb a b :
  nonneg prec emax a = true -> nonneg prec emax b = true ->
  SFleb a b = (units (emin prec emax) a <=? units (emin prec emax) b).
Proof.
  intros Ha Hb. unfold SFleb, Z.leb. rewrite (nonneg_compare a b Ha Hb).
  destruct (_ ?= _); reflexivity.
Qed.

(** A number of the format written where it stands. *)
Lemma round_aux_exact s m e :
  bounded prec emax m e = true ->
  binary_round_aux prec emax s (Z.pos m) e loc_Exact = S754_finite s m e.
Proof.
  intros Hb. unfold bounded, canonical_mantissa in Hb.
  apply andb_true_iff in Hb. destruct Hb as [Hc Hle].
  apply Z.eqb_eq in Hc.
  unfold binary_round_aux, shr_fexp. cbn [Zdigits2]. rewrite Hc, Z.sub_diag.
  cbn [shr shr_record_of_loc shr_m loc_of_shr_record round_nearest_even Zdigits2].
  rewrite Hc, Z.sub_diag. cbn [shr shr_m]. rewrite Hle. reflexivity.
Qed.

(** A product in units: the exact product, up to one part in
    [2 ^ (prec - 1)] and one unit. *)
Lemma mul_units a b k :
  nonneg prec emax a = true -> nonneg prec emax b = true ->
  0 <= k -> k + 2 <= emax ->
  units (emin prec emax) a * units (emin prec emax) b
    <= 2 ^ k * (2 ^ (- emin prec emax) * 2 ^ (- emin prec emax)) ->
  nonneg prec emax (SFmul prec emax a b) = true
  /\ units (emin prec emax) (SFmul prec emax a b) * 2 ^ (- emin prec emax) * 2 ^ (prec - 1)
     <= units (emin prec emax) a * units (emin prec emax) b * (2 ^ (prec - 1) + 1)
        + 2 ^ (- emin prec emax) * 2 ^ (prec - 1)
  /\ units (emin prec emax) a * units (emin prec emax) b * (2 ^ (prec - 1) - 1)
     <= (units (emin prec emax) (SFmul prec emax a b) + 1)
        * 2 ^ (- emin prec emax) * 2 ^ (prec - 1).
Proof.
  intros Ha Hb Hk0 Hk Hsmall.
  assert (Hneg : emin prec emax < 0) by (unfold emin; lia).
  assert (HU : 0 < 2 ^ (- emin prec emax)) by (apply Z.pow_pos_nonneg; lia).
  assert (HP : 0 < 2 ^ (prec - 1)) by (apply Z.pow_pos_nonneg; lia).
  destruct a as [sa|sa| |[|] ma ea]; try discriminate;
    destruct b as [sb|sb| |[|] mb eb]; try discriminate;
    cbn [nonneg] in Ha, Hb;
    try (cbn [SFmul units nonneg]; split; [reflexivity|]; split; nia).
  destruct (bounded_range ma ea Ha) as (Hea & Hma & Hna).
  destruct (bounded_range mb eb Hb) as (Heb & Hmb & Hnb).
  cbn [SFmul xorb units] in *.
  set (q := Z.pos (ma * mb)). set (e := ea + eb).
  assert (Hq : 0 < q) by (unfold q; lia).
  destruct (Zdigits2_spec q Hq) as (Hd & Hdlo & Hdhi).
  pose proof (digits2_pos_spec ma) as (Halo & Hahi).
  pose proof (digits2_pos_spec mb) as (Hblo & Hbhi).
  assert (Hpow : 2 ^ prec = 2 * 2 ^ (prec - 1)).
  { rewrite <- Z.pow_succ_r by lia. f_equal. lia. }
  (* the digits of the product *)
  assert (Hdq : Z.pos (digits2_pos ma) + Z.pos (digits2_pos mb) - 1 <= Zdigits2 q).
  { destruct (Z.lt_ge_cases (Zdigits2 q)
                (Z.pos (digits2_pos ma) + Z.pos (digits2_pos mb) - 1)); [|lia].
    assert (Hle : 2 ^ Zdigits2 q
                  <= 2 ^ (Z.pos (digits2_pos ma) - 1 + (Z.pos (digits2_pos mb) - 1)))
      by (apply pow2_le; lia).
    rewrite Z.pow_add_r in Hle by lia.
    assert (Hprod : 2 ^ (Z.pos (digits2_pos ma) - 1) * 2 ^ (Z.pos (digits2_pos mb) - 1)
                    <= q).
    { unfold q. rewrite Pos2Z.inj_mul. apply Z.mul_le_mono_nonneg; lia. }
    lia. }
  assert (Hda : emin prec emax < ea -> Z.pos (digits2_pos ma) = prec).
  { intros Hn. unfold bounded, canonical_mantissa, fexp in Ha.
    apply andb_true_iff in Ha. destruct Ha as [Hc _]. apply Z.eqb_eq in Hc. lia. }
  assert (Hdb : emin prec emax < eb -> Z.pos (digits2_pos mb) = prec).
  { intros Hn. unfold bounded, canonical_mantissa, fexp in Hb.
    apply andb_true_iff in Hb. destruct Hb as [Hc _]. apply Z.eqb_eq in Hc. lia. }
  assert (He : e <= fexp prec emax (Zdigits2 q + e)).
  { unfold fexp, e.
    destruct (Z.eq_dec ea (emin prec emax)), (Z.eq_dec eb (emin prec emax));
      [lia|specialize (Hdb ltac:(lia)); lia|specialize (Hda ltac:(lia)); lia
      |specialize (Hda ltac:(lia)); lia]. }
  (* no overflow *)
  assert (HUe : 0 <= e - 2 * emin prec emax) by (unfold e; lia).
  assert (HAB : Z.pos ma * 2 ^ (ea - emin prec emax) * (Z.pos mb * 2 ^ (eb - emin prec emax))
                = q * 2 ^ (e - 2 * emin prec emax)).
  { unfold q, e. rewrite Pos2Z.inj_mul.
    replace (ea + eb - 2 * emin prec emax)
      with ((ea - emin prec emax) + (eb - emin prec emax)) by lia.
    rewrite Z.pow_add_r by lia. ring. }
  rewrite HAB in *.
  assert (HUU : 2 ^ (- emin prec emax) * 2 ^ (- emin prec emax)
                = 2 ^ (- 2 * emin prec emax)).
  { rewrite <- Z.pow_add_r by lia. f_equal. lia. }
  assert (Hde : Zdigits2 q + e <= k + 1).
  { destruct (Z.le_gt_cases (Zdigits2 q + e) (k + 1)); [assumption|exfalso].
    rewrite HUU, <- Z.pow_add_r in Hsmall by lia.
    assert (Hlow : 2 ^ (Zdigits2 q - 1) * 2 ^ (e - 2 * emin prec emax)
                   <= q * 2 ^ (e - 2 * emin prec emax)).
    { apply Z.mul_le_mono_nonneg_r; [apply Z.pow_nonneg; lia|exact Hdlo]. }
    rewrite <- Z.pow_add_r in Hlow by lia.
    assert (Hlt : 2 ^ (k + - 2 * emin prec emax)
                  < 2 ^ (Zdigits2 q - 1 + (e - 2 * emin prec emax))).
    { apply Z.pow_lt_mono_r; lia. }
    lia. }
  assert (Hmax : fexp prec emax (Zdigits2 q + e) + 1 <= emax - prec).
  { unfold fexp, emin. lia. }
  destruct (round_aux_units false q e loc_Exact ltac:(lia) He Hmax)
    as (r' & Hr' & Hunits & Hvalid & Hclass).
  set (e1 := fexp prec emax (Zdigits2 q + e)) in *.
  set (r := binary_round_aux prec emax false q e loc_Exact) in *.
  assert (Hnonneg : nonneg prec emax r = true).
  { destruct r as [s|s| |s m' e']; try contradiction; [reflexivity|].
    subst s. exact Hvalid. }
  split; [exact Hnonneg|].
  rewrite Hunits.
  assert (Hemin1 : emin prec emax <= e1) by (unfold e1, fexp; lia).
  set (E1 := 2 ^ (e1 - e)) in *. set (Ue := 2 ^ (e - 2 * emin prec emax)) in *.
  assert (HE1 : 0 < E1) by (apply Z.pow_pos_nonneg; lia).
  assert (HUe0 : 0 < Ue) by (apply Z.pow_pos_nonneg; lia).
  assert (Hsplit : 2 ^ (e1 - emin prec emax) * 2 ^ (- emin prec emax) = E1 * Ue).
  { unfold E1, Ue. rewrite <- !Z.pow_add_r by lia. f_equal. lia. }
  pose proof (Z.mul_div_le q E1 HE1) as Hflo.
  pose proof (Z.mul_succ_div_gt q E1 HE1) as Hfhi.
  set (m1 := q / E1) in *.
  assert (Herr : E1 * Ue * 2 ^ (prec - 1)
                 <= q * Ue + 2 ^ (- emin prec emax) * 2 ^ (prec - 1)).
  { destruct (Z.eq_dec e1 (emin prec emax)) as [Hsub|Hnorm].
    - assert (E1 * Ue = 2 ^ (- emin prec emax)) as ->.
      { unfold E1, Ue. rewrite <- Z.pow_add_r by lia. f_equal. lia. }
      nia.
    - assert (Hsh : e1 - e = Zdigits2 q - prec) by (unfold e1, fexp in *; lia).
      assert (E1 * 2 ^ (prec - 1) <= q).
      { unfold E1. rewrite Hsh, <- Z.pow_add_r by lia.
        replace (Zdigits2 q - prec + (prec - 1)) with (Zdigits2 q - 1) by lia.
        exact Hdlo. }
      nia. }
  assert (Hm1 : 0 <= m1) by (apply Z.div_pos; lia).
  set (P1 := 2 ^ (prec - 1)) in *. set (U := 2 ^ (- emin prec emax)) in *.
  assert (HEU : 0 < E1 * Ue) by nia.
  assert (HEUP : 0 < E1 * Ue * P1) by nia.
  split.
  - replace (r' * 2 ^ (e1 - emin prec emax) * U)
      with (r' * (E1 * Ue)) by (rewrite <- Hsplit; ring).
    assert (H1 : r' * (E1 * Ue * P1) <= (m1 + 1) * (E1 * Ue * P1))
      by (apply Z.mul_le_mono_nonneg_r; lia).
    assert (H2 : E1 * m1 * (Ue * P1) <= q * (Ue * P1))
      by (apply Z.mul_le_mono_nonneg_r; nia).
    lia.
  - replace ((r' * 2 ^ (e1 - emin prec emax) + 1) * U)
      with (r' * (E1 * Ue) + U) by (rewrite <- Hsplit; ring).
    assert (H3 : q * (Ue * P1) <= E1 * Z.succ m1 * (Ue * P1))
      by (apply Z.mul_le_mono_nonneg_r; nia).
    assert (H4 : m1 * (E1 * Ue * P1) <= r' * (E1 * Ue * P1))
      by (apply Z.mul_le_mono_nonneg_r; lia).
    lia.
Qed.
End Units.

(** A quotient of binary32 numbers in units: at most the exact
    quotient, plus one part in 2^23 and one unit. *)
Lemma div_units v mp ep k :
  nonneg 24 128 v = true -> bounded 24 128 mp ep = true ->
  Zdigits2 (Z.pos mp) = 24 ->
  0 <= k -> k + 2 <= 128 ->
  units (-149) v <= 2 ^ k * units (-149) (S754_finite false mp ep) ->
  nonneg 24 128 (F32.div v (S754_finite false mp ep)) = true
  /\ units (-149) (F32.div v (S754_finite false mp ep))
       * units (-149) (S754_finite false mp ep) * 2 ^ 23
     <= units (-149) v * 2 ^ 149 * (2 ^ 23 + 1)
        + units (-149) (S754_finite false mp ep) * 2 ^ 23.
Proof.
  intros Hv Hp Hdp Hk0 Hk Hsmall.
  assert (H24 : (1 < 24)) by lia. assert (H128 : 24 < 128) by lia.
  destruct (bounded_range 24 128 mp ep Hp) as (Hep & Hmp & _).
  change (emin 24 128) with (-149) in Hep.
  assert (HPpos : 0 < units (-149) (S754_finite false mp ep)).
  { cbn [units]. assert (0 < 2 ^ (ep - -149)) by (apply Z.pow_pos_nonneg; lia). nia. }
  destruct v as [sv|sv| |[|] mv ev]; try discriminate; cbn [nonneg] in Hv.
  { unfold F32.div. cbn [SFdiv units nonneg]. split; [reflexivity|]. nia. }
  destruct (bounded_range 24 128 mv ev Hv) as (Hev & Hmv & _).
  change (emin 24 128) with (-149) in Hev.
  unfold F32.div. change F32.prec with 24. change F32.emax with 128.
  rewrite SFdiv_steps. cbv zeta. rewrite Hdp.
  set (dv := Zdigits2 (Z.pos mv)).
  set (X := dv + ev - (24 + ep)).
  set (e' := Z.min (fexp 24 128 X) (ev - ep)).
  set (s := ev - ep - e').
  assert (Hs : 0 <= s) by (unfold s, e'; lia).
  set (A := Z.pos mv * 2 ^ s).
  assert (Hps : 0 < 2 ^ s) by (apply Z.pow_pos_nonneg; lia).
  assert (HA : 0 < A) by (unfold A; nia).
  set (q := A / Z.pos mp).
  assert (Hq : 0 <= q) by (apply Z.div_pos; lia).
  pose proof (Z.mul_div_le A (Z.pos mp) ltac:(lia)) as Hqlo. fold q in Hqlo.
  pose proof (quotient_digits mv mp s Hs Hdp) as Hdq. fold dv A q in Hdq.
  assert (He' : e' <= fexp 24 128 (Zdigits2 q + e')).
  { assert (fexp 24 128 X <= fexp 24 128 (Zdigits2 q + e'))
      by (apply fexp32_mono; unfold X, s in *; lia).
    unfold e' in *. lia. }
  (* the common scale of the two sides *)
  assert (HG0 : 0 <= e' + ep + 298) by (unfold e'; rewrite fexp32; lia).
  set (G := 2 ^ (e' + ep + 298)).
  assert (HG : 0 < G) by (apply Z.pow_pos_nonneg; lia).
  cbn [units] in *.
  assert (HVU : A * G = Z.pos mv * 2 ^ (ev - -149) * 2 ^ 149).
  { unfold A, G. rewrite <- !Z.mul_assoc, <- !Z.pow_add_r by lia.
    f_equal. f_equal. unfold s. lia. }
  assert (HP : Z.pos mp * G * 2 ^ (- e') = Z.pos mp * 2 ^ (ep - -149) * 2 ^ 149
               \/ True) by (right; exact I).
  clear HP.
  (* no overflow *)
  destruct (Zdigits2_spec (Z.pos mv) ltac:(lia)) as (Hdv0 & Hvlo & Hvhi).
  fold dv in Hdv0, Hvlo, Hvhi.
  destruct (Zdigits2_spec (Z.pos mp) ltac:(lia)) as (_ & Hplo & Hphi).
  rewrite Hdp in Hplo, Hphi.
  assert (HX : X <= k).
  { destruct (Z.le_gt_cases X k); [assumption|exfalso].
    assert (H1 : 2 ^ (dv - 1) * 2 ^ (ev - -149) <= Z.pos mv * 2 ^ (ev - -149))
      by (apply Z.mul_le_mono_nonneg_r; [apply Z.pow_nonneg|]; lia).
    rewrite <- Z.pow_add_r in H1 by lia.
    assert (H2 : 2 ^ k * (Z.pos mp * 2 ^ (ep - -149)) < 2 ^ k * (2 ^ 24 * 2 ^ (ep - -149))).
    { apply Z.mul_lt_mono_pos_l; [apply Z.pow_pos_nonneg; lia|].
      apply Z.mul_lt_mono_pos_r; [apply Z.pow_pos_nonneg; lia|lia]. }
    rewrite <- !Z.pow_add_r in H2 by lia.
    assert (H3 : 2 ^ (k + (24 + (ep - -149))) <= 2 ^ (dv - 1 + (ev - -149)))
      by (apply pow2_le; unfold X in *; lia).
    lia. }
  assert (Hdq2 : Zdigits2 q <= Z.max 0 (dv + s - 23)).
  { apply Zdigits2_le; [|lia]. split; [lia|].
    apply Z.div_lt_upper_bound; [lia|].
    assert (H1 : A < 2 ^ dv * 2 ^ s) by (apply Z.mul_lt_mono_pos_r; lia).
    rewrite <- Z.pow_add_r in H1 by lia.
    destruct (Z.le_gt_cases (dv + s - 23) 0).
    - rewrite Z.max_l by lia. change (2 ^ 0) with 1.
      assert (2 ^ (dv + s) <= 2 ^ 23) by (apply pow2_le; lia).
      change (2 ^ (24 - 1)) with (2 ^ 23) in Hplo. lia.
    - rewrite Z.max_r by lia.
      assert (H2 : 2 ^ (24 - 1) * 2 ^ (dv + s - 23) <= Z.pos mp * 2 ^ (dv + s - 23))
        by (apply Z.mul_le_mono_nonneg_r; [apply Z.pow_nonneg|]; lia).
      rewrite <- Z.pow_add_r in H2 by lia.
      replace (24 - 1 + (dv + s - 23)) with (dv + s) in H2 by lia. lia. }
  assert (Hde : Zdigits2 q + e' <= k + 1).
  { assert (e' <= fexp 24 128 X) by (unfold e'; lia).
    rewrite fexp32 in *. unfold s, X in *. lia. }
  assert (Hmax : fexp 24 128 (Zdigits2 q + e') + 1 <= 128 - 24).
  { rewrite fexp32. lia. }
  destruct (round_aux_units 24 128 H24 false q e'
              (new_location (Z.pos mp) (A mod Z.pos mp)) Hq He' Hmax)
    as (r' & Hr' & Hunits & Hvalid & Hclass).
  set (e1 := fexp 24 128 (Zdigits2 q + e')) in *.
  set (r := binary_round_aux 24 128 false q e'
              (new_location (Z.pos mp) (A mod Z.pos mp))) in *.
  assert (Hnonneg : nonneg 24 128 r = true).
  { destruct r as [s0|s0| |s0 m0 e0]; try contradiction; [reflexivity|].
    subst s0. exact Hvalid. }
  split; [exact Hnonneg|].
  change (emin 24 128) with (-149) in Hunits. rewrite Hunits.
  assert (Hemin1 : -149 <= e1) by (unfold e1; rewrite fexp32; lia).
  set (E1 := 2 ^ (e1 - e')) in *.
  assert (HE1 : 0 < E1) by (apply Z.pow_pos_nonneg; lia).
  assert (Hsplit : 2 ^ (e1 - -149) * 2 ^ (ep - -149) = E1 * G).
  { unfold E1, G. rewrite <- !Z.pow_add_r by lia. f_equal. lia. }
  pose proof (Z.mul_div_le q E1 HE1) as Hflo.
  set (m1 := q / E1) in *.
  assert (Hm1 : 0 <= m1) by (apply Z.div_pos; lia).
  (* the error of the rounding *)
  assert (Herr : Z.pos mp * (E1 * G) * 2 ^ 23
                 <= A * G + Z.pos mp * 2 ^ (ep - -149) * 2 ^ 23).
  { destruct (Z.eq_dec e1 (-149)) as [Hsub|Hnorm].
    - assert (E1 * G = 2 ^ (ep - -149)) as ->.
      { unfold E1, G. rewrite <- Z.pow_add_r by lia. f_equal. lia. }
      nia.
    - assert (Hsh : e1 - e' = Zdigits2 q - 24) by (unfold e1 in *; rewrite fexp32 in *; lia).
      assert (Hqpos : 0 < q).
      { destruct (Z.eq_dec q 0) as [Hz|]; [|lia]. rewrite Hz in *.
        change (Zdigits2 0) with 0 in *. lia. }
      destruct (Zdigits2_spec q Hqpos) as (_ & Hlo & _).
      assert (HE : E1 * 2 ^ 23 <= q).
      { unfold E1. rewrite Hsh, <- Z.pow_add_r by lia.
        replace (Zdigits2 q - 24 + 23) with (Zdigits2 q - 1) by lia. exact Hlo. }
      assert (H1 : E1 * 2 ^ 23 * (Z.pos mp * G) <= q * (Z.pos mp * G))
        by (apply Z.mul_le_mono_nonneg_r; nia).
      assert (H2 : q * Z.pos mp * G <= A * G) by (apply Z.mul_le_mono_nonneg_r; lia).
      assert (0 <= Z.pos mp * 2 ^ (ep - -149) * 2 ^ 23).
      { assert (0 < 2 ^ (ep - -149)) by (apply Z.pow_pos_nonneg; lia). nia. }
      lia. }
  replace (r' * 2 ^ (e1 - -149) * (Z.pos mp * 2 ^ (ep - -149)) * 2 ^ 23)
    with (r' * (Z.pos mp * (E1 * G) * 2 ^ 23)) by (rewrite <- Hsplit; ring).
  rewrite <- HVU.
  assert (H1 : r' * (Z.pos mp * (E1 * G) * 2 ^ 23)
               <= (m1 + 1) * (Z.pos mp * (E1 * G) * 2 ^ 23)).
  { apply Z.mul_le_mono_nonneg_r; [|lia].
    assert (0 < 2 ^ 23) by reflexivity. nia. }
  assert (H2 : E1 * m1 * (Z.pos mp * G * 2 ^ 23) <= q * (Z.pos mp * G * 2 ^ 23)).
  { apply Z.mul_le_mono_nonneg_r; [|lia].
    assert (0 < 2 ^ 23) by reflexivity. nia. }
  assert (H3 : q * Z.pos mp * (G * 2 ^ 23) <= A * (G * 2 ^ 23)).
  { apply Z.mul_le_mono_nonneg_r; [|lia].
    assert (0 < 2 ^ 23) by reflexivity. nia. }
  lia.
Qed.

(** Widening a binary32 number to double keeps its value. *)
Lemma widen_units x :
  nonneg 24 128 x = true ->
  nonneg 53 1024 (widen x) = true
  /\ units (-1074) (widen x) = units (-149) x * 2 ^ 925.
Proof.
  intros Hx. destruct x as [s|s| |[|] m e]; try discriminate; cbn [nonneg] in Hx.
  { cbn [widen nonneg units]. split; reflexivity. }
  destruct (bounded_range 24 128 m e Hx) as (He & Hm & _).
  change (emin 24 128) with (-149) in He.
  pose proof (digits2_pos_spec m) as (Hdlo & Hdhi).
  set (d := Z.pos (digits2_pos m)) in *.
  assert (Hd : 1 <= d <= 24).
  { split; [unfold d; lia|].
    destruct (Z.le_gt_cases d 24); [assumption|].
    assert (2 ^ 24 <= 2 ^ (d - 1)) by (apply pow2_le; lia). lia. }
  cbn [widen]. unfold binary_round, F64.prec, F64.emax. fold d.
  assert (Hf : fexp 53 1024 (d + e) = d + e - 53) by (unfold fexp, emin; lia).
  rewrite Hf. unfold shl_align.
  destruct (d + e - 53 - e) as [|p|p] eqn:Ep; try lia.
  assert (Hp : Z.pos p = 53 - d) by lia.
  assert (Hmz : Z.pos (Pos.iter xO m p) = Z.pos m * 2 ^ (53 - d)).
  { rewrite iter_xO_pow, Hp. reflexivity. }
  assert (Hb : bounded 53 1024 (Pos.iter xO m p) (d + e - 53) = true).
  { unfold bounded, canonical_mantissa.
    assert (Hdz : Z.pos (digits2_pos (Pos.iter xO m p)) = 53).
    { change (Z.pos (digits2_pos (Pos.iter xO m p)))
        with (Zdigits2 (Z.pos (Pos.iter xO m p))).
      apply Zdigits2_unique; [lia|]. rewrite Hmz.
      assert (H1 : 2 ^ (53 - 1) = 2 ^ (d - 1) * 2 ^ (53 - d)).
      { rewrite <- Z.pow_add_r by lia. f_equal. lia. }
      assert (H2 : 2 ^ 53 = 2 ^ d * 2 ^ (53 - d)).
      { rewrite <- Z.pow_add_r by lia. f_equal. lia. }
      rewrite H1, H2.
      assert (0 < 2 ^ (53 - d)) by (apply Z.pow_pos_nonneg; lia).
      split; [apply Z.mul_le_mono_nonneg_r; lia|apply Z.mul_lt_mono_pos_r; lia]. }
    rewrite Hdz. unfold fexp, emin.
    apply andb_true_iff. split; [apply Z.eqb_eq; lia|apply Z.leb_le; lia]. }
  rewrite (round_aux_exact 53 1024 false _ _ Hb).
  cbn [nonneg units]. split; [exact Hb|].
  rewrite Hmz, <- !Z.mul_assoc, <- !Z.pow_add_r by lia.
  f_equal. f_equal. lia.
Qed.

(** The comparison of normalize_test.cpp: a value within one part in
    2^20 of the target does not exceed the ceiling. *)
Lemma within_ceiling_units v y :
  nonneg 24 128 v = true -> nonneg 24 128 y = true ->
  2 ^ 49 <= units (-149) v <= 2 ^ 149 ->
  units (-149) y * 2 ^ 20 <= units (-149) v * (2 ^ 20 + 1) ->
  SFltb (F64.mul (widen v) c_1_001) (widen y) = false.
Proof.
  intros Hv Hy HV HY.
  destruct (widen_units v Hv) as (Hwv & Huv).
  destruct (widen_units y Hy) as (Hwy & Huy).
  assert (H53 : 1 < 53) by lia. assert (H1024 : 53 < 1024) by lia.
  assert (Hc : nonneg 53 1024 c_1_001 = true) by reflexivity.
  assert (Huc : units (-1074) c_1_001 = 4508103226997866 * 2 ^ 1022) by reflexivity.
  destruct (mul_units 53 1024 H53 H1024 (widen v) c_1_001 1 Hwv Hc ltac:(lia) ltac:(lia))
    as (Hr & _ & Hlow).
  { change (emin 53 1024) with (-1074). rewrite Huv, Huc.
    change (- -1074) with 1074.
    assert (H1 : units (-149) v * 2 ^ 925 <= 2 ^ 149 * 2 ^ 925)
      by (apply Z.mul_le_mono_nonneg_r; [apply Z.pow_nonneg|]; lia).
    assert (H0 : 0 <= units (-149) v * 2 ^ 925) by nia.
    remember (units (-149) v * 2 ^ 925) as W.
    change (2 ^ 149 * 2 ^ 925) with (2 ^ 1074) in H1.
    assert (H2 : W * (4508103226997866 * 2 ^ 1022)
                 <= 2 ^ 1074 * (4508103226997866 * 2 ^ 1022))
      by (apply Z.mul_le_mono_nonneg_r; [|exact H1]; lia).
    assert (H3 : 4508103226997866 * 2 ^ 1022 <= 2 ^ 1 * 2 ^ 1074) by (vm_compute; discriminate).
    assert (H4 : 2 ^ 1074 * (4508103226997866 * 2 ^ 1022)
                 <= 2 ^ 1074 * (2 ^ 1 * 2 ^ 1074))
      by (apply Z.mul_le_mono_nonneg_l; [|exact H3]; apply Z.pow_nonneg; lia).
    lia. }
  unfold F64.mul, F64.prec, F64.emax.
  rewrite (nonneg_ltb 53 1024 H53 _ _ Hr Hwy).
  apply Z.ltb_ge.
  change (emin 53 1024) with (-1074) in *. rewrite Huy. rewrite Huv, Huc in Hlow.
  change (- -1074) with 1074 in Hlow.
  set (R := units (-1074) (SFmul 53 1024 (widen v) c_1_001)) in *.
  set (V := units (-149) v) in *. set (Y := units (-149) y) in *.
  change (2 ^ (53 - 1)) with (2 ^ 52) in Hlow.
  (* divide the lower bound by 2^1022 * 2^925 *)
  destruct (Z.le_gt_cases (Y * 2 ^ 925) R) as [|Hgt]; [assumption|exfalso].
  assert (Hstep : (R + 1) * 2 ^ 1074 * 2 ^ 52 <= Y * 2 ^ 925 * 2 ^ 1074 * 2 ^ 52).
  { apply Z.mul_le_mono_nonneg_r; [apply Z.pow_nonneg; lia|].
    apply Z.mul_le_mono_nonneg_r; [apply Z.pow_nonneg; lia|]. lia. }
  assert (HYV : Y * 2 ^ 20 * (2 ^ 925 * 2 ^ 1074 * 2 ^ 32)
                <= V * (2 ^ 20 + 1) * (2 ^ 925 * 2 ^ 1074 * 2 ^ 32)).
  { apply Z.mul_le_mono_nonneg_r; [|exact HY].
    apply Z.mul_nonneg_nonneg; [apply Z.mul_nonneg_nonneg|]; apply Z.pow_nonneg; lia. }
  assert (Hchain : V * 2 ^ 925 * (4508103226997866 * 2 ^ 1022) * (2 ^ 52 - 1)
                   <= V * (2 ^ 20 + 1) * (2 ^ 925 * 2 ^ 1074 * 2 ^ 32)).
  { eapply Z.le_trans; [exact Hlow|]. eapply Z.le_trans; [exact Hstep|].
    replace (Y * 2 ^ 925 * 2 ^ 1074 * 2 ^ 52)
      with (Y * 2 ^ 20 * (2 ^ 925 * 2 ^ 1074 * 2 ^ 32)); [exact HYV|].
    change (2 ^ 52) with (2 ^ 20 * 2 ^ 32). ring. }
  assert (HVpos : 0 < V) by (assert (0 < 2 ^ 49) by reflexivity; lia).
  assert (Hconst : (2 ^ 20 + 1) * (2 ^ 925 * 2 ^ 1074 * 2 ^ 32)
                   < 2 ^ 925 * (4508103226997866 * 2 ^ 1022) * (2 ^ 52 - 1))
    by (vm_compute; reflexivity).
  assert (Hlt : V * ((2 ^ 20 + 1) * (2 ^ 925 * 2 ^ 1074 * 2 ^ 32))
                < V * (2 ^ 925 * (4508103226997866 * 2 ^ 1022) * (2 ^ 52 - 1)))
    by (apply Z.mul_lt_mono_pos_l; assumption).
  replace (V * 2 ^ 925 * (4508103226997866 * 2 ^ 1022) * (2 ^ 52 - 1))
    with (V * (2 ^ 925 * (4508103226997866 * 2 ^ 1022) * (2 ^ 52 - 1))) in Hchain by ring.
  replace (V * (2 ^ 20 + 1) * (2 ^ 925 * 2 ^ 1074 * 2 ^ 32))
    with (V * ((2 ^ 20 + 1) * (2 ^ 925 * 2 ^ 1074 * 2 ^ 32))) in Hchain by ring.
  lia.
Qed.

(** ** Normalizer: the ceiling on whole chunks *)

Lemma units_nonneg emin x : 0 <= units emin x.
Proof.
  destruct x as [s|s| |s m e]; cbn [units]; try lia;
    try (apply Z.mul_nonneg_nonneg; [lia|apply Z.pow_nonneg; lia]).
Qed.

Lemma mul_units32 a b :
  nonneg 24 128 a = true -> nonneg 24 128 b = true ->
  units (-149) a * units (-149) b <= 2 ^ 7 * (2 ^ 149 * 2 ^ 149) ->
  nonneg 24 128 (F32.mul a b) = true
  /\ units (-149) (F32.mul a b) * 2 ^ 149 * 2 ^ 23
     <= units (-149) a * units (-149) b * (2 ^ 23 + 1) + 2 ^ 149 * 2 ^ 23
  /\ units (-149) a * units (-149) b * (2 ^ 23 - 1)
     <= (units (-149) (F32.mul a b) + 1) * 2 ^ 149 * 2 ^ 23.
Proof.
  intros Ha Hb Hprod.
  assert (H24 : 1 < 24) by lia. assert (H128 : 24 < 128) by lia.
  apply (mul_units 24 128 H24 H128 a b 7 Ha Hb); [lia|lia|exact Hprod].
Qed.

(** The product of two bounded values fits. *)
Lemma product_fits A B :
  0 <= A <= 2 ^ 149 -> 0 <= B <= 106 * 2 ^ 149 ->
  A * B <= 2 ^ 7 * (2 ^ 149 * 2 ^ 149).
Proof.
  intros HA HB.
  assert (H1 : A * B <= 2 ^ 149 * B) by (apply Z.mul_le_mono_nonneg_r; lia).
  assert (H2 : 2 ^ 149 * B <= 2 ^ 149 * (106 * 2 ^ 149))
    by (apply Z.mul_le_mono_nonneg_l; [apply Z.pow_nonneg|]; lia).
  assert (H3 : 2 ^ 149 * (106 * 2 ^ 149) <= 2 ^ 7 * (2 ^ 149 * 2 ^ 149))
    by (vm_compute; discriminate).
  lia.
Qed.

(** A binary32 number of at least 0.02f is a normal number. *)
Lemma nonneg_normal p :
  nonneg 24 128 p = true -> units (-149) c_0_02f <= units (-149) p ->
  exists mp ep, p = S754_finite false mp ep /\ bounded 24 128 mp ep = true
                /\ Zdigits2 (Z.pos mp) = 24.
Proof.
  intros Hp Hlarge.
  assert (Hc : units (-149) c_0_02f = 10737418 * 2 ^ 120) by reflexivity.
  rewrite Hc in Hlarge.
  destruct p as [s|s| |[|] mp ep]; try discriminate; cbn [nonneg units] in *.
  { exfalso. assert (0 < 10737418 * 2 ^ 120) by reflexivity. lia. }
  exists mp, ep. split; [reflexivity|]. split; [exact Hp|].
  destruct (bounded_range 24 128 mp ep Hp) as (Hep & Hmp & _).
  change (emin 24 128) with (-149) in Hep.
  unfold bounded, canonical_mantissa in Hp. rewrite fexp32 in Hp.
  apply andb_true_iff in Hp. destruct Hp as [Hcan _]. apply Z.eqb_eq in Hcan.
  cbn [Zdigits2].
  destruct (Z.eq_dec ep (-149)) as [->|Hn]; [|lia].
  exfalso. change (2 ^ (-149 - -149)) with 1 in Hlarge.
  assert (2 ^ 24 < 10737418 * 2 ^ 120) by reflexivity. lia.
Qed.

(** One round on one chunk: the new gain is a number of at most 106, and
    every value of at most the peak is brought to within one part in
    2^20 of the target. *)
Lemma update_gain_within v p g0 :
  nonneg 24 128 v = true -> 2 ^ 49 <= units (-149) v <= 2 ^ 149 ->
  nonneg 24 128 p = true -> units (-149) p <= 2 ^ 149 ->
  nonneg 24 128 g0 = true -> units (-149) g0 <= 106 * 2 ^ 149 ->
  nonneg 24 128 (update_gain v p g0) = true
  /\ units (-149) (update_gain v p g0) <= 106 * 2 ^ 149
  /\ forall a, nonneg 24 128 a = true -> units (-149) a <= units (-149) p ->
       nonneg 24 128 (F32.mul a (update_gain v p g0)) = true
       /\ units (-149) (F32.mul a (update_gain v p g0)) * 2 ^ 20
          <= units (-149) v * (2 ^ 20 + 1).
Proof.
  intros Hv HV Hp HP Hg0 HG0.
  assert (H24 : 1 < 24) by lia.
  pose proof (units_nonneg (-149) p) as HP0.
  pose proof (units_nonneg (-149) g0) as HG00.
  unfold update_gain.
  (* the release *)
  assert (Hrel : nonneg 24 128 (release v p g0) = true
                 /\ units (-149) (release v p g0) <= 106 * 2 ^ 149).
  { unfold release. destruct (F32.ltb p v && F32.ltb g0 c_100f) eqn:E; [|auto].
    apply andb_true_iff in E. destruct E as [_ E100].
    unfold F32.ltb in E100.
    rewrite (nonneg_ltb 24 128 H24 g0 c_100f Hg0 eq_refl) in E100.
    apply Z.ltb_lt in E100. change (emin 24 128) with (-149) in E100.
    change (units (-149) c_100f) with (13107200 * 2 ^ 132) in E100.
    destruct (mul_units32 g0 c_1_05f Hg0 eq_refl) as (Hn & Hup & _).
    { change (units (-149) c_1_05f) with (8808038 * 2 ^ 126).
      assert (units (-149) g0 * (8808038 * 2 ^ 126)
              <= 13107200 * 2 ^ 132 * (8808038 * 2 ^ 126))
        by (apply Z.mul_le_mono_nonneg_r; lia).
      assert (13107200 * 2 ^ 132 * (8808038 * 2 ^ 126) <= 2 ^ 7 * (2 ^ 149 * 2 ^ 149))
        by (vm_compute; discriminate).
      lia. }
    split; [exact Hn|].
    change (units (-149) c_1_05f) with (8808038 * 2 ^ 126) in Hup.
    lia. }
  destruct Hrel as (Hg1 & HG1).
  set (g1 := release v p g0) in *.
  pose proof (units_nonneg (-149) g1) as HG10.
  (* the attack *)
  unfold attack.
  destruct (mul_units32 p g1 Hp Hg1 ltac:(apply product_fits; lia)) as (Ht & _ & Htlow).
  unfold F32.ltb.
  rewrite (nonneg_ltb 24 128 H24 v (F32.mul p g1) Hv Ht).
  rewrite (nonneg_ltb 24 128 H24 p c_0_02f Hp eq_refl).
  change (emin 24 128) with (-149).
  change (units (-149) c_0_02f) with (10737418 * 2 ^ 120).
  set (T := units (-149) (F32.mul p g1)) in *.
  set (V := units (-149) v) in *. set (P := units (-149) p) in *.
  set (G1 := units (-149) g1) in *.
  destruct (Z.ltb_spec V T) as [Hattack|Hkeep].
  - destruct (Z.ltb_spec P (10737418 * 2 ^ 120)) as [Hsmall|Hlarge].
    + (* a peak below 0.02f: the gain is the target over 0.02f *)
      destruct (div_units v 10737418 (-29) 6 Hv eq_refl eq_refl ltac:(lia) ltac:(lia))
        as (Hg & HGq).
      { change (units (-149) (S754_finite false 10737418 (-29))) with (10737418 * 2 ^ 120).
        fold V. assert (2 ^ 149 <= 2 ^ 6 * (10737418 * 2 ^ 120)) by (vm_compute; discriminate).
        lia. }
      change (S754_finite false 10737418 (-29)) with c_0_02f in *.
      change (units (-149) c_0_02f) with (10737418 * 2 ^ 120) in HGq.
      fold V in HGq.
      set (g := F32.div v c_0_02f) in *. set (Gq := units (-149) g) in *.
      pose proof (units_nonneg (-149) g) as HGq0. fold Gq in HGq0.
      assert (HGq106 : Gq <= 106 * 2 ^ 149) by lia.
      split; [exact Hg|]. split; [exact HGq106|].
      intros a Ha HA. pose proof (units_nonneg (-149) a) as HA0.
      destruct (mul_units32 a g Ha Hg ltac:(apply product_fits; lia)) as (Hy & Hyup & _).
      split; [exact Hy|]. fold Gq in Hyup.
      assert (HAG : units (-149) a * Gq <= 10737418 * 2 ^ 120 * Gq)
        by (apply Z.mul_le_mono_nonneg_r; lia).
      lia.
    + (* a peak of at least 0.02f: the gain is the target over the peak *)
      destruct (nonneg_normal p Hp) as (mp & ep & Ep & Hb & Hd).
      { change (units (-149) c_0_02f) with (10737418 * 2 ^ 120). exact Hlarge. }
      destruct (div_units v mp ep 6 Hv Hb Hd ltac:(lia) ltac:(lia)) as (Hg & HGq).
      { rewrite <- Ep. fold V P.
        assert (2 ^ 149 <= 2 ^ 6 * (10737418 * 2 ^ 120)) by (vm_compute; discriminate).
        lia. }
      rewrite <- Ep in *. fold V P in HGq.
      set (g := F32.div v p) in *. set (Gq := units (-149) g) in *.
      pose proof (units_nonneg (-149) g) as HGq0. fold Gq in HGq0.
      assert (HGP : Gq * (10737418 * 2 ^ 120) <= Gq * P)
        by (apply Z.mul_le_mono_nonneg_l; lia).
      assert (HGq106 : Gq <= 106 * 2 ^ 149) by lia.
      split; [exact Hg|]. split; [exact HGq106|].
      intros a Ha HA. pose proof (units_nonneg (-149) a) as HA0.
      destruct (mul_units32 a g Ha Hg ltac:(apply product_fits; lia)) as (Hy & Hyup & _).
      split; [exact Hy|]. fold Gq in Hyup.
      assert (HAG : units (-149) a * Gq <= P * Gq)
        by (apply Z.mul_le_mono_nonneg_r; lia).
      lia.
  - (* no attack: the peak times the gain is within the target *)
    split; [exact Hg1|]. split; [exact HG1|].
    intros a Ha HA. pose proof (units_nonneg (-149) a) as HA0.
    destruct (mul_units32 a g1 Ha Hg1 ltac:(apply product_fits; lia)) as (Hy & Hyup & _).
    split; [exact Hy|]. fold G1 in Hyup.
    assert (HAG : units (-149) a * G1 <= P * G1)
      by (apply Z.mul_le_mono_nonneg_r; lia).
    lia.
Qed.

Lemma abs_opp x : F32.abs (SFopp x) = F32.abs x.
Proof. destruct x; reflexivity. Qed.

Lemma abs_mul x g :
  nonneg 24 128 g = true ->
  F32.abs (F32.mul x g) = F32.abs (F32.mul (F32.abs x) g).
Proof.
  intros Hg.
  destruct g as [sg|sg| |[|] mg eg]; try discriminate;
    destruct x as [s|s| |s m e]; try reflexivity.
  unfold F32.mul, F32.abs. cbn [SFabs SFmul]. rewrite xorb_false_r. cbn [xorb].
  destruct s; [|reflexivity].
  rewrite binary_round_aux_opp. apply abs_opp.
Qed.

Lemma abs_nonneg z :
  nonneg 24 128 z = true ->
  nonneg 24 128 (F32.abs z) = true /\ units (-149) (F32.abs z) = units (-149) z.
Proof. destruct z as [s|s| |[|] m e]; try discriminate; intros H; split; auto. Qed.

(** A binary32 sample of magnitude at most one. *)
Lemma sample_in_range x :
  F32.valid x = true -> F32.leb (F32.abs x) c_1f = true ->
  nonneg 24 128 (F32.abs x) = true /\ units (-149) (F32.abs x) <= 2 ^ 149.
Proof.
  intros Hv Hle.
  assert (Hn : nonneg 24 128 (F32.abs x) = true).
  { destruct x as [s|s| |s m e]; try discriminate; [reflexivity|exact Hv]. }
  split; [exact Hn|].
  unfold F32.leb in Hle.
  rewrite (nonneg_leb 24 128 ltac:(lia) (F32.abs x) c_1f Hn eq_refl) in Hle.
  apply Z.leb_le in Hle. exact Hle.
Qed.

(** A target between 2^-100 and one. *)
Lemma target_in_range v :
  F32.valid v = true -> F32.leb c_lowest_target v = true -> F32.leb v c_1f = true ->
  nonneg 24 128 v = true /\ 2 ^ 49 <= units (-149) v <= 2 ^ 149.
Proof.
  intros Hv Hlo Hhi.
  assert (Hn : nonneg 24 128 v = true).
  { destruct v as [s|[|]| |[|] m e]; try discriminate. exact Hv. }
  split; [exact Hn|].
  unfold F32.leb in Hlo, Hhi.
  rewrite (nonneg_leb 24 128 ltac:(lia) c_lowest_target v eq_refl Hn) in Hlo.
  rewrite (nonneg_leb 24 128 ltac:(lia) v c_1f Hn eq_refl) in Hhi.
  apply Z.leb_le in Hlo, Hhi. split; [exact Hlo|exact Hhi].
Qed.

(** The scan of a chunk returns a value that no sample of the chunk
    exceeds. *)
Lemma peak_loop_max data isample n sub p0 p :
  0 <= isample -> 0 <= sub ->
  isample + sub + Z.of_nat n <= Z.of_nat (length data) < 2 ^ 32 ->
  (forall (i : nat) x,
     isample + sub <= Z.of_nat i < isample + sub + Z.of_nat n ->
     data !! i = Some x ->
     nonneg 24 128 (F32.abs x) = true /\ units (-149) (F32.abs x) <= 2 ^ 149) ->
  nonneg 24 128 p0 = true -> units (-149) p0 <= 2 ^ 149 ->
  peak_loop data isample n sub p0 = Ok p ->
  nonneg 24 128 p = true /\ units (-149) p <= 2 ^ 149
  /\ units (-149) p0 <= units (-149) p
  /\ forall (i : nat) x,
       isample + sub <= Z.of_nat i < isample + sub + Z.of_nat n ->
       data !! i = Some x -> units (-149) (F32.abs x) <= units (-149) p.
Proof.
  intros Hi. revert sub p0. induction n as [|n IH]; intros sub p0 Hs Hfit Hdata Hp0 HP0 H.
  - injection H as <-. repeat split; try assumption; try lia; intros i x Hr; lia.
  - cbn [peak_loop] in H. rewrite wrap32_small in H by lia.
    destruct (vec_get_in_range data (isample + sub)) as (x0 & Ex0 & Eget); [lia|].
    rewrite Eget in H. cbn [obind] in H.
    destruct (Hdata (Z.to_nat (isample + sub)) x0 ltac:(lia) Ex0) as (Hx0 & HX0).
    assert (Hdata' : forall (i : nat) x,
              isample + (sub + 1) <= Z.of_nat i < isample + (sub + 1) + Z.of_nat n ->
              data !! i = Some x ->
              nonneg 24 128 (F32.abs x) = true /\ units (-149) (F32.abs x) <= 2 ^ 149).
    { intros i x Hr Ex. apply (Hdata i x); [lia|exact Ex]. }
    unfold F32.ltb in H.
    rewrite (nonneg_ltb 24 128 ltac:(lia) _ _ Hp0 Hx0) in H.
    change (emin 24 128) with (-149) in H.
    destruct (Z.ltb_spec (units (-149) p0) (units (-149) (F32.abs x0))) as [Hlt|Hge].
    + destruct (IH (sub + 1) (F32.abs x0) ltac:(lia) ltac:(lia) Hdata' Hx0 HX0 H)
        as (Hp & HP & Hmono & Hall).
      split; [exact Hp|]. split; [exact HP|]. split; [lia|].
      intros i x Hr Ex.
      destruct (Z.eq_dec (Z.of_nat i) (isample + sub)) as [Heq|Hne].
      * rewrite <- Heq, Nat2Z.id in Ex0. rewrite Ex0 in Ex. injection Ex as <-. exact Hmono.
      * apply (Hall i x); [lia|exact Ex].
    + destruct (IH (sub + 1) p0 ltac:(lia) ltac:(lia) Hdata' Hp0 HP0 H)
        as (Hp & HP & Hmono & Hall).
      split; [exact Hp|]. split; [exact HP|]. split; [lia|].
      intros i x Hr Ex.
      destruct (Z.eq_dec (Z.of_nat i) (isample + sub)) as [Heq|Hne].
      * rewrite <- Heq, Nat2Z.id in Ex0. rewrite Ex0 in Ex. injection Ex as <-. lia.
      * apply (Hall i x); [lia|exact Ex].
Qed.

Section CeilingRounds.
Variables (max_vol : float) (samples_per_chunk num_chunks : Z) (data0 : list float).
Hypothesis Hspc : 0 < samples_per_chunk.
Hypothesis Hfit : num_chunks * samples_per_chunk <= Z.of_nat (length data0) < 2 ^ 32.
Hypothesis Hv : nonneg 24 128 max_vol = true.
Hypothesis HV : 2 ^ 49 <= units (-149) max_vol <= 2 ^ 149.
Hypothesis Hdata : forall (i : nat) x, data0 !! i = Some x ->
  nonneg 24 128 (F32.abs x) = true /\ units (-149) (F32.abs x) <= 2 ^ 149.

(** After every round the gain is at most 106, and the gain of a round
    takes the magnitude of every sample of its chunk to the target, up to
    the rounding of the product. *)
Lemma round_ceiling (k : nat) g d :
  Z.of_nat k <= num_chunks ->
  state_after max_vol samples_per_chunk num_chunks data0 k = Ok (g, d) ->
  nonneg 24 128 g = true /\ units (-149) g <= 106 * 2 ^ 149
  /\ forall (c i : nat) x,
       k = S c ->
       Z.of_nat c * samples_per_chunk <= Z.of_nat i < (Z.of_nat c + 1) * samples_per_chunk ->
       data0 !! i = Some x ->
       nonneg 24 128 (F32.mul (F32.abs x) g) = true
       /\ units (-149) (F32.mul (F32.abs x) g) * 2 ^ 20
          <= units (-149) max_vol * (2 ^ 20 + 1).
Proof.
  revert g d. induction k as [|k IH]; intros g d Hk Hst.
  - injection Hst as <- _. split; [reflexivity|]. split.
    + change (units (-149) c_1f) with (2 ^ 149). lia.
    + intros c i x Hc. discriminate.
  - destruct (rounds max_vol samples_per_chunk num_chunks data0 Hspc Hfit k)
      as (g0 & d0 & Hst0 & Hlen0 & Hget0); [lia|].
    destruct (IH g0 d0 ltac:(lia) Hst0) as (Hg0 & HG0 & _).
    unfold state_after in Hst. rewrite chunk_loop_snoc in Hst.
    fold (state_after max_vol samples_per_chunk num_chunks data0 k) in Hst.
    rewrite Hst0 in Hst. cbn [obind] in Hst.
    replace (0 + Z.of_nat k) with (Z.of_nat k) in Hst by lia.
    unfold chunk_step in Hst.
    assert (Hbase : (Z.of_nat k + 1) * samples_per_chunk <= Z.of_nat (length data0)).
    { apply Z.le_trans with (num_chunks * samples_per_chunk); [|lia].
      apply Z.mul_le_mono_nonneg_r; lia. }
    assert (Hk0 : 0 <= Z.of_nat k * samples_per_chunk) by (apply Z.mul_nonneg_nonneg; lia).
    rewrite (wrap32_small (Z.of_nat k * samples_per_chunk)) in Hst by lia.
    inv_ok Hst. rename a into p. rename Ha into Hp.
    inv_ok Hst. inv_ok Hst. injection Hst as <- _.
    assert (Hsame : forall (i : nat) x,
              Z.of_nat k * samples_per_chunk <= Z.of_nat i ->
              d0 !! i = Some x -> data0 !! i = Some x).
    { intros i x Hr Ex. specialize (Hget0 i). rewrite Ex in Hget0.
      unfold written_after in Hget0.
      destruct (Z.ltb_spec (Z.of_nat i) (Z.of_nat k * samples_per_chunk)); [lia|].
      destruct (Z.eqb_spec (Z.of_nat k) num_chunks); [lia|].
      cbn [orb andb] in Hget0. symmetry. exact Hget0. }
    destruct (peak_loop_max d0 (Z.of_nat k * samples_per_chunk)
                (Z.to_nat samples_per_chunk) 0 F32.zero p)
      as (Hp1 & HP1 & _ & Hall); try lia; try reflexivity.
    { intros i x Hr Ex. apply (Hdata i x). apply Hsame; [lia|exact Ex]. }
    { change (units (-149) F32.zero) with 0. lia. }
    { exact Hp. }
    destruct (update_gain_within max_vol p g0 Hv HV Hp1 HP1 Hg0 HG0)
      as (Hg & HG & Hmul).
    split; [exact Hg|]. split; [exact HG|].
    intros c i x Hc Hr Ex. injection Hc as <-.
    destruct (Hdata i x Ex) as (Hx & HX).
    apply Hmul; [exact Hx|].
    apply (Hall i x); [lia|].
    specialize (Hget0 i). rewrite Ex in Hget0.
    unfold written_after in Hget0.
    destruct (Z.ltb_spec (Z.of_nat i) (Z.of_nat k * samples_per_chunk)); [lia|].
    destruct (Z.eqb_spec (Z.of_nat k) num_chunks); [lia|].
    cbn [orb andb] in Hget0. exact Hget0.
Qed.
End CeilingRounds.

(** The samples of the whole chunks after the pass, in units: at most
    the target and one part in [2 ^ 20]. *)
Lemma whole_chunk_units powf wav db_level spc wav' :
  F32.valid (db_to_linear powf db_level) = true ->
  F32.leb c_lowest_target (db_to_linear powf db_level) = true ->
  F32.leb (db_to_linear powf db_level) c_1f = true ->
  Forall (fun x => F32.valid x = true /\ F32.leb (F32.abs x) c_1f = true) (m_data wav) ->
  normalize_samples_per_chunk wav = Ok spc -> 0 < spc -> size wav < 2 ^ 32 ->
  NormalizeAudioWaveform powf wav db_level = Ok wav' ->
  forall (i : nat) (y : float),
    Z.of_nat i < size wav / spc * spc -> m_data wav' !! i = Some y ->
    nonneg 24 128 (F32.abs y) = true
    /\ units (-149) (F32.abs y) * 2 ^ 20
       <= units (-149) (db_to_linear powf db_level) * (2 ^ 20 + 1).
Proof.
  intros Hv Hlo Hhi Hdata Hc Hspc Hsz Hrun i y Hi Ey.
  set (v := db_to_linear powf db_level) in *.
  destruct (target_in_range v Hv Hlo Hhi) as (Hnv & HV).
  assert (Hsz0 : 0 <= size wav) by (unfold size; lia).
  assert (HN0 : 0 <= size wav / spc) by (apply Z.div_pos; lia).
  assert (Hlong : spc <= size wav).
  { destruct (Z.lt_ge_cases (size wav) spc) as [Hs|Hs]; [|exact Hs].
    rewrite Z.div_small in Hi by lia. lia. }
  assert (HN : wrap32 (size wav / spc) = size wav / spc).
  { apply wrap32_small. split; [exact HN0|].
    apply Z.div_lt_upper_bound; [lia|].
    apply Z.lt_le_trans with (1 * 2 ^ 32); [lia|].
    apply Z.mul_le_mono_nonneg_r; lia. }
  assert (Hdiv : size wav / spc * spc <= size wav).
  { rewrite Z.mul_comm. apply Z.mul_div_le. lia. }
  destruct (normalize_to_adjusts v wav spc Hc Hspc ltac:(lia)) as (wav2 & Hrun2 & Hadj).
  assert (Hne : m_data wav <> []).
  { intros E. unfold size in Hlong. rewrite E in Hlong. cbn in Hlong. lia. }
  unfold NormalizeAudioWaveform in Hrun.
  destruct (m_data wav) as [|x0 xs] eqn:E; [congruence|]. rewrite <- E in *.
  fold v in Hrun. rewrite Hrun2 in Hrun. injection Hrun as <-.
  assert (Hlen : Z.of_nat i < Z.of_nat (length (m_data wav))) by (unfold size in *; lia).
  destruct (lookup_lt_is_Some_2 (m_data wav) i ltac:(lia)) as (x & Ex).
  destruct (Hadj i x Ex) as (c & g & d & Hcr & Hcq & Hst & Eget).
  rewrite HN in *.
  rewrite Eget in Ey. injection Ey as <-.
  assert (Hq : Z.of_nat i / spc < size wav / spc).
  { apply Z.div_lt_upper_bound; lia. }
  assert (Hcc : c = Z.of_nat i / spc) by lia.
  assert (Hsamples : forall (j : nat) z, m_data wav !! j = Some z ->
            nonneg 24 128 (F32.abs z) = true /\ units (-149) (F32.abs z) <= 2 ^ 149).
  { intros j z Ez. rewrite Forall_forall in Hdata.
    destruct (Hdata z (list_elem_of_lookup_2 _ _ _ Ez)) as (Hz1 & Hz2).
    apply sample_in_range; assumption. }
  destruct (round_ceiling v spc (size wav / spc) (m_data wav) Hspc
              ltac:(unfold size in *; lia) Hnv HV Hsamples (S (Z.to_nat c)) g d
              ltac:(lia) Hst) as (Hg & _ & Hin).
  destruct (Hin (Z.to_nat c) i x eq_refl) as (Hm & HM); [|exact Ex|].
  { rewrite Z2Nat.id by lia. rewrite Hcc.
    pose proof (Z.mul_div_le (Z.of_nat i) spc Hspc).
    pose proof (Z.mul_succ_div_gt (Z.of_nat i) spc Hspc). lia. }
  rewrite (abs_mul x g Hg).
  destruct (abs_nonneg _ Hm) as (Ha & HA).
  split; [exact Ha|]. rewrite HA. exact HM.
Qed.

(** X19.  For a target between 2^-100 and one and binary32 samples of
    magnitude at most one, every sample of a whole chunk comes out of the
    normalizer within the ceiling of normalize_test.cpp: its magnitude is
    not above the target times 1.001.  Only the samples after the last
    whole chunk are left out. *)
Theorem whole_chunks_within_ceiling powf wav db_level spc wav' :
  F32.valid (db_to_linear powf db_level) = true ->
  F32.leb c_lowest_target (db_to_linear powf db_level) = true ->
  F32.leb (db_to_linear powf db_level) c_1f = true ->
  Forall (fun x => F32.valid x = true /\ F32.leb (F32.abs x) c_1f = true) (m_data wav) ->
  normalize_samples_per_chunk wav = Ok spc -> 0 < spc -> size wav < 2 ^ 32 ->
  NormalizeAudioWaveform powf wav db_level = Ok wav' ->
  forall (i : nat) (y : float),
    Z.of_nat i < size wav / spc * spc -> m_data wav' !! i = Some y ->
    exceeds_ceiling (db_to_linear powf db_level) y = false.
Proof.
  intros Hv Hlo Hhi Hdata Hc Hspc Hsz Hrun i y Hi Ey.
  destruct (target_in_range _ Hv Hlo Hhi) as (Hnv & HV).
  destruct (whole_chunk_units powf wav db_level spc wav' Hv Hlo Hhi Hdata Hc Hspc Hsz Hrun
              i y Hi Ey) as (Ha & HA).
  unfold exceeds_ceiling.
  apply within_ceiling_units; [exact Hnv|exact Ha|exact HV|exact HA].
Qed.

Lemma whole_chunks_within_ceiling_witness :
  NormalizeAudioWaveform powf_exact wav_full_scale F32.zero
  = Ok {| m_frequency := 200;
          m_data := [S754_finite false 8808038 (-24); S754_finite false 8808038 (-24);
                     c_1f; F32.opp c_1f] |}
  /\ exceeds_ceiling (db_to_linear powf_exact F32.zero) (F32.opp c_1f) = false.
Proof.
  split; [vm_compute; reflexivity|].
  apply (whole_chunks_within_ceiling powf_exact wav_full_scale F32.zero 2
           {| m_frequency := 200;
              m_data := [S754_finite false 8808038 (-24); S754_finite false 8808038 (-24);
                         c_1f; F32.opp c_1f] |}) with (i := 3%nat).
  - vm_compute; reflexivity.
  - vm_compute; reflexivity.
  - vm_compute; reflexivity.
  - repeat constructor.
  - vm_compute; reflexivity.
  - lia.
  - vm_compute; reflexivity.
  - vm_compute; reflexivity.
  - vm_compute; reflexivity.
  - reflexivity.
Defined.

(** ** Two channels of 16-bit samples *)

Lemma iter_pos_comm {A : Type} (f : A -> A) p x :
  SpecFloat.iter_pos f p (f x) = f (SpecFloat.iter_pos f p x).
Proof.
  revert x. induction p as [p IH|p IH|]; intros x; cbn [SpecFloat.iter_pos].
  - rewrite !IH. reflexivity.
  - rewrite !IH. reflexivity.
  - reflexivity.
Qed.

Lemma iter_pos_succ {A : Type} (f : A -> A) p x :
  SpecFloat.iter_pos f (Pos.succ p) x = SpecFloat.iter_pos f p (f x).
Proof.
  revert x. induction p as [p IH|p IH|]; intros x.
  - change (Pos.succ p~1) with (xO (Pos.succ p)). cbn [SpecFloat.iter_pos].
    rewrite !IH. rewrite (iter_pos_comm f p (f x)). reflexivity.
  - reflexivity.
  - reflexivity.
Qed.

Section Doubling.
Variables prec emax : Z.

(** A mantissa doubled at the exponent below is the same number: the
    first shift to the right gives the mantissa back, with nothing lost. *)
Lemma shr_fexp_double m e :
  e <= fexp prec emax (Z.pos (digits2_pos m) + e) ->
  shr_fexp prec emax (Z.pos m~0) (e - 1) loc_Exact
  = shr_fexp prec emax (Z.pos m) e loc_Exact.
Proof.
  intros Ht. unfold shr_fexp. cbn [Zdigits2 digits2_pos shr_record_of_loc].
  replace (Z.pos (Pos.succ (digits2_pos m)) + (e - 1)) with (Z.pos (digits2_pos m) + e)
    by lia.
  set (t := fexp prec emax (Z.pos (digits2_pos m) + e)) in *.
  destruct (t - e) as [|k|k] eqn:Ek; try lia.
  - replace (t - (e - 1)) with 1 by lia. cbn [shr SpecFloat.iter_pos shr_1 orb].
    f_equal. lia.
  - replace (t - (e - 1)) with (Z.pos (Pos.succ k)) by lia.
    cbn [shr]. rewrite iter_pos_succ. cbn [shr_1 orb]. f_equal. lia.
Qed.

Lemma binary_round_double s m e :
  binary_round prec emax s (xO m) (e - 1) = binary_round prec emax s m e.
Proof.
  unfold binary_round. cbn [digits2_pos].
  replace (Z.pos (Pos.succ (digits2_pos m)) + (e - 1)) with (Z.pos (digits2_pos m) + e)
    by lia.
  set (t := fexp prec emax (Z.pos (digits2_pos m) + e)).
  assert (Ht : t = fexp prec emax (Z.pos (digits2_pos m) + e)) by reflexivity.
  clearbody t. unfold shl_align.
  destruct (t - e) as [|k|k] eqn:Ek.
  - replace (t - (e - 1)) with 1 by lia.
    unfold binary_round_aux. rewrite shr_fexp_double by lia. reflexivity.
  - replace (t - (e - 1)) with (Z.pos (Pos.succ k)) by lia.
    unfold binary_round_aux. rewrite shr_fexp_double by lia. reflexivity.
  - destruct (Pos.eq_dec k 1%positive) as [->|Hk].
    + replace (t - (e - 1)) with 0 by lia. cbn [Pos.iter].
      replace (e - 1) with t by lia. reflexivity.
    + replace (t - (e - 1)) with (Z.neg (Pos.pred k)) by lia.
      replace k with (Pos.succ (Pos.pred k)) at 2 by (apply Pos.succ_pred; exact Hk).
      rewrite Pos.iter_succ_r. reflexivity.
Qed.

Lemma binary_normalize_double n e sz :
  binary_normalize prec emax (2 * n) (e - 1) sz = binary_normalize prec emax n e sz.
Proof.
  destruct n as [|m|m]; [reflexivity| |]; cbn [Z.mul Pos.mul binary_normalize];
    apply binary_round_double.
Qed.

(** A whole number written at a lower exponent, shifted to the left by
    as much, normalizes to the same float. *)
Lemma binary_normalize_shift n e j sz :
  0 <= j ->
  binary_normalize prec emax (n * 2 ^ j) (e - j) sz = binary_normalize prec emax n e sz.
Proof.
  intros Hj. revert e. pattern j. apply natlike_ind; [| |exact Hj].
  - intros e. rewrite Z.mul_1_r, Z.sub_0_r. reflexivity.
  - intros k Hk IH e. rewrite Z.pow_succ_r by lia.
    replace (n * (2 * 2 ^ k)) with (2 * (n * 2 ^ k)) by lia.
    replace (e - Z.succ k) with (e - k - 1) by lia.
    rewrite binary_normalize_double. apply IH.
Qed.
End Doubling.

Lemma shl_align_value m e ez :
  ez <= e -> Z.pos (fst (shl_align m e ez)) = Z.pos m * 2 ^ (e - ez).
Proof.
  intros He. unfold shl_align. destruct (ez - e) as [|d|d] eqn:E; cbn [fst]; try lia.
  - replace (e - ez) with 0 by lia. lia.
  - rewrite iter_xO_pow. f_equal. f_equal. lia.
Qed.

Lemma binary_round_bounded s m e :
  bounded 24 128 m e = true -> binary_round 24 128 s m e = S754_finite s m e.
Proof.
  intros Hb. unfold binary_round.
  assert (Hc : fexp 24 128 (Z.pos (digits2_pos m) + e) = e).
  { unfold bounded, canonical_mantissa in Hb. apply andb_true_iff in Hb.
    destruct Hb as [Hc _]. apply Z.eqb_eq in Hc. exact Hc. }
  rewrite Hc. unfold shl_align. rewrite Z.sub_diag.
  apply round_aux_exact. exact Hb.
Qed.

Lemma fraction_parts a s m e :
  is_fraction_of a (S754_finite s m e) = true ->
  bounded 24 128 m e = true /\ -38 <= e <= -23
  /\ cond_Zopp s (Z.pos m) = a * 2 ^ (-15 - e).
Proof.
  cbn [is_fraction_of]. intros H.
  apply andb_true_iff in H. destruct H as [H H4].
  apply andb_true_iff in H. destruct H as [H H3].
  apply andb_true_iff in H. destruct H as [H1 H2].
  apply Z.leb_le in H2, H3. apply Z.eqb_eq in H4.
  split; [exact H1|]. split; [lia|].
  assert (Hp : 0 < 2 ^ (e + 38)) by (apply Z.pow_pos_nonneg; lia).
  assert (Hs : 2 ^ 23 = 2 ^ (-15 - e) * 2 ^ (e + 38)).
  { rewrite <- Z.pow_add_r by lia. f_equal. lia. }
  rewrite Hs, Z.mul_assoc in H4.
  apply Z.mul_cancel_r in H4; [exact H4|lia].
Qed.

(** A float that is [a / 32768] is the one [dyadic] gives. *)
Lemma fraction_dyadic a x : is_fraction_of a x = true -> x = dyadic a.
Proof.
  destruct x as [s|s| |s m e]; try discriminate.
  - cbn [is_fraction_of]. intros H. apply andb_true_iff in H. destruct H as [H1 H2].
    apply Z.eqb_eq in H1. subst a. destruct s; [discriminate|reflexivity].
  - intros H. destruct (fraction_parts a s m e H) as (Hb & He & Hz).
    unfold dyadic.
    rewrite <- (binary_normalize_shift F32.prec F32.emax a (-15) (-15 - e) false) by lia.
    rewrite <- Hz. replace (-15 - (-15 - e)) with e by lia.
    destruct s; cbn [cond_Zopp Z.opp binary_normalize];
      symmetry; apply binary_round_bounded; exact Hb.
Qed.

(** Two such floats add up without rounding. *)
Lemma add_fractions a b x y :
  is_fraction_of a x = true -> is_fraction_of b y = true ->
  F32.add x y = dyadic (a + b).
Proof.
  intros Hx Hy.
  destruct x as [sx|sx| |sx mx ex]; try discriminate;
    destruct y as [sy|sy| |sy my ey]; try discriminate.
  - cbn [is_fraction_of] in Hx, Hy.
    apply andb_true_iff in Hx, Hy. destruct Hx as [Ha Hsx], Hy as [Hb Hsy].
    apply Z.eqb_eq in Ha, Hb. subst a b.
    destruct sx; [discriminate|]. destruct sy; [discriminate|]. reflexivity.
  - assert (Ha : a = 0).
    { cbn [is_fraction_of] in Hx. apply andb_true_iff in Hx. destruct Hx as [Ha _].
      apply Z.eqb_eq in Ha. exact Ha. }
    subst a. rewrite Z.add_0_l. rewrite <- (fraction_dyadic b _ Hy). reflexivity.
  - assert (Hb : b = 0).
    { cbn [is_fraction_of] in Hy. apply andb_true_iff in Hy. destruct Hy as [Hb _].
      apply Z.eqb_eq in Hb. exact Hb. }
    subst b. rewrite Z.add_0_r. rewrite <- (fraction_dyadic a _ Hx). reflexivity.
  - destruct (fraction_parts a sx mx ex Hx) as (_ & Hex & Hzx).
    destruct (fraction_parts b sy my ey Hy) as (_ & Hey & Hzy).
    unfold F32.add. cbn [SFadd]. cbv zeta.
    set (ez := Z.min ex ey).
    assert (Hez : -38 <= ez <= -23 /\ ez <= ex /\ ez <= ey) by (unfold ez; lia).
    assert (Hsx : cond_Zopp sx (Z.pos (fst (shl_align mx ex ez))) = a * 2 ^ (-15 - ez)).
    { rewrite shl_align_value by lia.
      replace (cond_Zopp sx (Z.pos mx * 2 ^ (ex - ez)))
        with (cond_Zopp sx (Z.pos mx) * 2 ^ (ex - ez)) by (destruct sx; cbn [cond_Zopp]; lia).
      rewrite Hzx, <- Z.mul_assoc, <- Z.pow_add_r by lia. f_equal. f_equal. lia. }
    assert (Hsy : cond_Zopp sy (Z.pos (fst (shl_align my ey ez))) = b * 2 ^ (-15 - ez)).
    { rewrite shl_align_value by lia.
      replace (cond_Zopp sy (Z.pos my * 2 ^ (ey - ez)))
        with (cond_Zopp sy (Z.pos my) * 2 ^ (ey - ez)) by (destruct sy; cbn [cond_Zopp]; lia).
      rewrite Hzy, <- Z.mul_assoc, <- Z.pow_add_r by lia. f_equal. f_equal. lia. }
    rewrite Hsx, Hsy, <- Z.mul_add_distr_r.
    replace ez with (-15 - (-15 - ez)) at 2 by lia.
    apply (binary_normalize_shift F32.prec F32.emax (a + b) (-15) (-15 - ez) false). lia.
Qed.

Lemma of_int16_fraction a :
  - 32768 <= a <= 32767 -> is_fraction_of a (of_int16 a) = true.
Proof.
  intros Ha.
  apply (check_range_spec (fun v => is_fraction_of v (of_int16 v)) 16 (- 32768)).
  - vm_compute. reflexivity.
  - change (2 ^ Z.of_nat 16) with 65536. lia.
Qed.

Lemma halved_written_all n : - 65536 <= n < 65536 -> halved_written n = true.
Proof.
  intros Hn. apply (check_range_spec halved_written 17 (- 65536)).
  - vm_compute. reflexivity.
  - change (2 ^ Z.of_nat 17) with 131072. lia.
Qed.

(** The sample of a frame is written as the mean of its two values,
    rounded toward zero. *)
Lemma stereo_written l r :
  - 32768 <= l <= 32767 -> - 32768 <= r <= 32767 ->
  pcm_of_sample (stereo_sample of_int16 l r) = Ok (mean_toward_zero (l, r)).
Proof.
  intros Hl Hr. unfold stereo_sample.
  assert (H0 : is_fraction_of 0 F32.zero = true) by reflexivity.
  rewrite (add_fractions 0 l F32.zero (of_int16 l) H0 (of_int16_fraction l Hl)).
  rewrite Z.add_0_l.
  rewrite (add_fractions l r (dyadic l) (of_int16 r)).
  - pose proof (halved_written_all (l + r) ltac:(lia)) as H. unfold halved_written in H.
    destruct (pcm_of_sample _) as [z|f]; [|discriminate].
    apply Z.eqb_eq in H. rewrite H. reflexivity.
  - rewrite <- (fraction_dyadic l _ (of_int16_fraction l Hl)).
    apply of_int16_fraction. exact Hl.
  - apply of_int16_fraction. exact Hr.
Qed.

(** Two channels: the loop over the samples is a map over the frames. *)
Lemma sample_loop_stereo {T : Type} (conv : T -> float) (frames : list (T * T))
    (pre : list T) :
  sample_loop conv (pre ++ interleave frames) 2 (length frames) (Z.of_nat (length pre))
  = Ok (map (fun f => stereo_sample conv (fst f) (snd f)) frames).
Proof.
  revert pre. induction frames as [|[l r] frames IH]; intros pre; [reflexivity|].
  cbn [length sample_loop]. change (Z.to_nat 2) with 2%nat. cbn [channel_loop].
  change (interleave ((l, r) :: frames)) with (l :: r :: interleave frames).
  rewrite vec_get_app_middle. cbn [obind].
  replace (pre ++ l :: r :: interleave frames)
    with ((pre ++ [l]) ++ r :: interleave frames) by (rewrite <- app_assoc; reflexivity).
  replace (Z.of_nat (length pre) + 1) with (Z.of_nat (length (pre ++ [l])))
    by (rewrite length_app; simpl; lia).
  rewrite vec_get_app_middle. cbn [obind].
  replace ((pre ++ [l]) ++ r :: interleave frames)
    with (((pre ++ [l]) ++ [r]) ++ interleave frames) by (rewrite <- app_assoc; reflexivity).
  replace (Z.of_nat (length (pre ++ [l])) + 1)
    with (Z.of_nat (length ((pre ++ [l]) ++ [r])))
    by (rewrite !length_app; simpl; lia).
  rewrite IH. reflexivity.
Qed.

Lemma pcm_loop_mapped {T : Type} (f : T -> float) (g : T -> Z) (l : list T)
    (pre : list float) :
  Forall (fun v => pcm_of_sample (f v) = Ok (g v)) l ->
  pcm_loop (pre ++ map f l) 0 (length l) (Z.of_nat (length pre)) = Ok (map g l).
Proof.
  intros Hall. revert pre. induction Hall as [|v l Hv _ IH]; intros pre; [reflexivity|].
  cbn [length pcm_loop map]. rewrite Z.add_0_l.
  rewrite vec_get_app_middle. cbn [obind].
  rewrite Hv. cbn [obind].
  replace (pre ++ f v :: map f l) with ((pre ++ [f v]) ++ map f l)
    by (rewrite <- app_assoc; reflexivity).
  replace (Z.of_nat (length pre) + 1) with (Z.of_nat (length (pre ++ [f v])))
    by (rewrite length_app; simpl; lia).
  rewrite IH. reflexivity.
Qed.

Lemma write_all_mapped {T : Type} (f : T -> float) (g : T -> Z) (l : list T) rate :
  l <> [] -> Z.of_nat (length l) < 2 ^ 32 ->
  Forall (fun v => pcm_of_sample (f v) = Ok (g v)) l ->
  WriteToWAVFile_samples {| m_frequency := rate; m_data := map f l |} 0 0
  = Ok (Some (map g l)).
Proof.
  intros Hne Hlen Hall. unfold WriteToWAVFile_samples, size. cbn [m_data].
  destruct (map f l) as [|y ys] eqn:E.
  { destruct l; [contradiction|discriminate]. }
  rewrite <- E. rewrite length_map.
  destruct (Z.leb_spec (Z.of_nat (length l)) 0).
  { destruct l; [contradiction|simpl in *; lia]. }
  cbn [Z.eqb]. rewrite Z.sub_0_r, Z.add_0_l.
  rewrite !(wrap32_small (Z.of_nat (length l))) by lia.
  rewrite Z.ltb_irrefl. rewrite Nat2Z.id.
  pose proof (pcm_loop_mapped f g l [] Hall) as Hrun.
  change (pcm_loop (map f l) 0 (length l) 0 = Ok (map g l)) in Hrun.
  rewrite Hrun. reflexivity.
Qed.

(** X20.  A file of two channels of 16-bit samples is mixed down to the
    mean of the two channels: loaded and written back, each frame gives
    the 16-bit value of the sum of its left and right values halved
    toward zero.  The sums and the halving are exact in binary32, so the
    only rounding is the truncation of the writer, and no frame is
    outside the 16-bit range. *)
Theorem stereo_mixed_to_the_mean wav0 rate frames :
  frames <> [] -> Z.of_nat (length frames) < 2 ^ 32 ->
  Forall (fun f => (- 32768 <= fst f <= 32767) /\ (- 32768 <= snd f <= 32767)) frames ->
  exists wav,
    LoadFromWAVFile_data wav0 (stereo16 rate frames) (raw16 (interleave frames)) = Ok wav
    /\ m_frequency wav = rate
    /\ length (m_data wav) = length frames
    /\ WriteToWAVFile_samples wav 0 0 = Ok (Some (map mean_toward_zero frames)).
Proof.
  intros Hne Hlen Hall.
  exists {| m_frequency := rate;
            m_data := map (fun f => stereo_sample of_int16 (fst f) (snd f)) frames |}.
  split; [|split; [reflexivity|split; [apply length_map|]]].
  - unfold LoadFromWAVFile_data, stereo16, raw16.
    cbn [m_is_float m_bits m_channels m_sample_count m_rate as_int16 andb Z.eqb].
    rewrite Nat2Z.id.
    pose proof (sample_loop_stereo of_int16 frames []) as Hrun.
    change (sample_loop of_int16 (interleave frames) 2 (length frames) 0
            = Ok (map (fun f => stereo_sample of_int16 (fst f) (snd f)) frames)) in Hrun.
    rewrite Hrun. reflexivity.
  - apply (write_all_mapped (fun f => stereo_sample of_int16 (fst f) (snd f))
             mean_toward_zero frames rate Hne Hlen).
    eapply Forall_impl; [exact Hall|]. intros [l r] [Hl Hr]. cbn [fst snd] in *.
    apply stereo_written; assumption.
Qed.

Lemma stereo_mixed_to_the_mean_witness :
  exists wav,
    LoadFromWAVFile_data Waveform_default
      (stereo16 8000 [(- 32768, - 32768); (3, 4); (- 3, - 4); (32767, 32767); (1, - 1)])
      (raw16 [- 32768; - 32768; 3; 4; - 3; - 4; 32767; 32767; 1; - 1]) = Ok wav
    /\ m_frequency wav = 8000
    /\ length (m_data wav) = 5%nat
    /\ WriteToWAVFile_samples wav 0 0 = Ok (Some [- 32768; 3; - 3; 32767; 0]).
Proof.
  apply (stereo_mixed_to_the_mean Waveform_default 8000
           [(- 32768, - 32768); (3, 4); (- 3, - 4); (32767, 32767); (1, - 1)]).
  - discriminate.
  - simpl. lia.
  - repeat constructor; cbn [fst snd]; lia.
Defined.

(** ** Segmenter: too few loud chunks *)

Lemma loud_count_nonneg thr l : 0 <= loud_count thr l.
Proof.
  induction l as [|s l IH]; cbn [loud_count]; [lia|].
  destruct (negb _); simpl Z.b2z; lia.
Qed.

Lemma loud_count_app thr l l' :
  loud_count thr (l ++ l') = loud_count thr l + loud_count thr l'.
Proof. induction l as [|s l IH]; cbn [loud_count app]; [reflexivity|]. rewrite IH. lia. Qed.

Lemma loud_count_take thr l k : loud_count thr (take k l) <= loud_count thr l.
Proof.
  rewrite <- (take_drop k l) at 2. rewrite loud_count_app.
  pose proof (loud_count_nonneg thr (drop k l)). lia.
Qed.

(** The loud positions of a window are loud chunks. *)
Lemma louds_from_loud_count stddev thr n j :
  j < Z.of_nat (length stddev) ->
  louds_from stddev thr n j <= loud_count thr (take (Z.to_nat (j + 1)) stddev).
Proof.
  revert j. induction n as [|n IH]; intros j Hj.
  - cbn [louds_from]. apply loud_count_nonneg.
  - destruct (Z.le_gt_cases j 0) as [Hle|Hpos].
    + rewrite louds_from_nonpos by exact Hle. apply loud_count_nonneg.
    + change (louds_from stddev thr (S n) j)
        with (Z.b2z (loud_at stddev thr j) + louds_from stddev thr n (j - 1)).
      specialize (IH (j - 1) ltac:(lia)).
      replace (j - 1 + 1) with j in IH by lia.
      destruct (lookup_lt_is_Some_2 stddev (Z.to_nat j) ltac:(lia)) as (x & Ex).
      replace (Z.to_nat (j + 1)) with (S (Z.to_nat j)) by lia.
      rewrite (take_S_r _ _ _ Ex), loud_count_app. cbn [loud_count].
      unfold loud_at. rewrite (nth_lookup_Some _ _ _ _ Ex).
      destruct (Z.ltb_spec 0 j); [|lia]. cbn [andb]. lia.
Qed.

Section FewLoud.
Variables (stddev_per_chunk : list float) (stddev_threshold : float).
Variables (samples_per_chunk num_chunks : Z).
Hypothesis Hticks : num_chunks < 2 ^ 32.
Hypothesis Hlen : Z.of_nat (length stddev_per_chunk) = num_chunks.
Hypothesis Hfew : loud_count stddev_threshold stddev_per_chunk < 3.

Lemma few_loud_at t :
  0 <= t < num_chunks -> recent_loud_at stddev_per_chunk stddev_threshold t <= 2.
Proof.
  intros Ht. unfold recent_loud_at. destruct (t <? 2 ^ 31); [|lia].
  pose proof (louds_from_loud_count stddev_per_chunk stddev_threshold 10 t ltac:(lia)).
  pose proof (loud_count_take stddev_threshold stddev_per_chunk (Z.to_nat (t + 1))).
  lia.
Qed.

(** No round opens a segment. *)
Lemma few_loud_step t :
  0 <= t < num_chunks ->
  segment_step stddev_per_chunk stddev_threshold samples_per_chunk num_chunks ([], 0) t
  = Ok ([], 0).
Proof.
  intros Ht. unfold segment_step.
  rewrite recent_counts_eq by lia. cbn [obind].
  pose proof (few_loud_at t Ht). unfold louds_to_start.
  destruct (Z.leb_spec 3 (recent_loud_at stddev_per_chunk stddev_threshold t)); [lia|].
  reflexivity.
Qed.

Lemma few_loud_loop n t :
  0 <= t -> t + Z.of_nat n <= num_chunks ->
  segment_loop stddev_per_chunk stddev_threshold samples_per_chunk num_chunks n t ([], 0)
  = Ok ([], 0).
Proof.
  revert t. induction n as [|n IH]; intros t Ht Hn; [reflexivity|].
  cbn [segment_loop]. rewrite few_loud_step by lia. cbn [obind]. apply IH; lia.
Qed.
End FewLoud.

(** X21.  Three loud chunks are needed to open a segment: when fewer
    than three chunks have a standard deviation that is not below the
    threshold, the segmenter returns the empty list, however long the
    buffer is and wherever those chunks lie. *)
Theorem fewer_than_three_loud_chunks powf wav spc stddev smin smax :
  segment_samples_per_chunk wav = Ok spc -> spc <> 0 -> size wav < 2 ^ 32 ->
  stddev_loop powf (m_data wav) spc (Z.to_nat (size wav / spc)) 0 = Ok stddev ->
  FindMinMaxSamples wav = Ok (smin, smax) ->
  loud_count (stddev_threshold_of smin smax) stddev < 3 ->
  FindSegmentsInAudioWaveform powf wav = Ok [].
Proof.
  intros Hc Hnz Hsz Hsd Hmm Hfew.
  pose proof (cast_unsigned_range _ _ Hc) as Hr.
  assert (Hsz0 : 0 <= size wav) by (unfold size; lia).
  assert (HN0 : 0 <= size wav / spc) by (apply Z.div_pos; lia).
  assert (HNle : size wav / spc <= size wav).
  { apply Z.div_le_upper_bound; [lia|].
    apply Z.le_trans with (1 * size wav); [lia|].
    apply Z.mul_le_mono_nonneg_r; lia. }
  unfold FindSegmentsInAudioWaveform. rewrite Hc. cbn [obind].
  destruct (Z.eqb_spec spc 0) as [|_]; [contradiction|].
  rewrite (wrap32_small (size wav / spc)) by lia.
  rewrite Hsd. cbn [obind]. rewrite Hmm. cbn [obind]. cbv zeta.
  apply stddev_loop_length in Hsd.
  rewrite (few_loud_loop stddev (stddev_threshold_of smin smax) spc (size wav / spc)
             ltac:(lia) ltac:(lia) Hfew) by lia.
  reflexivity.
Qed.

Lemma fewer_than_three_loud_chunks_witness :
  loud_count (stddev_threshold_of (F32.opp half) half)
    (replicate 5 F32.zero ++ [half] ++ replicate 9 F32.zero) = 1
  /\ FindSegmentsInAudioWaveform powf_exact wav_click = Ok [].
Proof.
  split; [vm_compute; reflexivity|].
  apply (fewer_than_three_loud_chunks powf_exact wav_click 2
           (replicate 5 F32.zero ++ [half] ++ replicate 9 F32.zero) (F32.opp half) half).
  - vm_compute; reflexivity.
  - lia.
  - vm_compute; reflexivity.
  - vm_compute; reflexivity.
  - vm_compute; reflexivity.
  - vm_compute; reflexivity.
Defined.

(** ** The two chunk sizes *)

Section IntegerUnits.
Variables prec emax : Z.
Hypothesis Hprec : 1 < prec.
Hypothesis Hemax : prec < emax.

(** The conversion of a whole number: exact up to one part in
    [2 ^ (prec - 1)], either way. *)
Lemma of_Z_units z :
  0 < z -> Zdigits2 z + 1 <= emax ->
  nonneg prec emax (binary_normalize prec emax z 0 false) = true
  /\ units (emin prec emax) (binary_normalize prec emax z 0 false) * 2 ^ (prec - 1)
     <= z * 2 ^ (- emin prec emax) * (2 ^ (prec - 1) + 1)
  /\ z * 2 ^ (- emin prec emax) * 2 ^ (prec - 1)
     <= units (emin prec emax) (binary_normalize prec emax z 0 false)
        * (2 ^ (prec - 1) + 1).
Proof.
  intros Hz Hd.
  destruct z as [|p|p]; try lia. cbn [binary_normalize].
  pose proof (digits2_pos_spec p) as (Hlo & Hhi).
  set (d := Z.pos (digits2_pos p)) in *. cbn [Zdigits2] in Hd. fold d in Hd.
  assert (Hneg : emin prec emax < 0) by (unfold emin; lia).
  set (U := 2 ^ (- emin prec emax)).
  set (P := 2 ^ (prec - 1)).
  assert (HU : 0 < U) by (apply Z.pow_pos_nonneg; lia).
  assert (HP : 0 < P) by (apply Z.pow_pos_nonneg; lia).
  assert (Ht : fexp prec emax (d + 0) = d - prec) by (unfold fexp, emin; lia).
  unfold binary_round. fold d. rewrite Ht. unfold shl_align.
  destruct (d - prec - 0) as [|k|k] eqn:Ek.
  - (* as many digits as the format has *)
    destruct (round_aux_units prec emax Hprec false (Z.pos p) 0 loc_Exact)
      as (r' & Hr' & Hunits & Hvalid & Hclass);
      [lia|cbn [Zdigits2]; fold d; rewrite Ht; lia|cbn [Zdigits2]; fold d; rewrite Ht; lia|].
    cbn [Zdigits2] in Hr', Hunits. fold d in Hr', Hunits. rewrite Ht in Hr', Hunits.
    replace (d - prec - 0) with 0 in Hr' by lia. change (2 ^ 0) with 1 in Hr'.
    rewrite Z.div_1_r in Hr'.
    replace (d - prec - emin prec emax) with (- emin prec emax) in Hunits by lia.
    fold U in Hunits.
    set (r := binary_round_aux prec emax false (Z.pos p) 0 loc_Exact) in *.
    assert (Hnonneg : nonneg prec emax r = true).
    { destruct r as [s|s| |s m' e']; try contradiction; [reflexivity|].
      subst s. exact Hvalid. }
    split; [exact Hnonneg|]. rewrite Hunits.
    assert (HPp : P <= Z.pos p).
    { unfold P. replace (prec - 1) with (d - 1) by lia. exact Hlo. }
    assert (H1 : r' * U * P <= (Z.pos p + 1) * U * P).
    { apply Z.mul_le_mono_nonneg_r; [lia|]. apply Z.mul_le_mono_nonneg_r; lia. }
    assert (H2 : Z.pos p * U * P <= r' * U * P).
    { apply Z.mul_le_mono_nonneg_r; [lia|]. apply Z.mul_le_mono_nonneg_r; lia. }
    assert (H3 : P * U <= Z.pos p * U) by (apply Z.mul_le_mono_nonneg_r; lia).
    assert (H4 : 0 <= r' * U) by (apply Z.mul_nonneg_nonneg; lia).
    split; lia.
  - (* more digits: one rounding *)
    destruct (round_aux_units prec emax Hprec false (Z.pos p) 0 loc_Exact)
      as (r' & Hr' & Hunits & Hvalid & Hclass);
      [lia|cbn [Zdigits2]; fold d; rewrite Ht; lia|cbn [Zdigits2]; fold d; rewrite Ht; lia|].
    cbn [Zdigits2] in Hr', Hunits. fold d in Hr', Hunits. rewrite Ht in Hr', Hunits.
    replace (d - prec - 0) with (Z.pos k) in Hr' by lia.
    set (r := binary_round_aux prec emax false (Z.pos p) 0 loc_Exact) in *.
    assert (Hnonneg : nonneg prec emax r = true).
    { destruct r as [s|s| |s m' e']; try contradiction; [reflexivity|].
      subst s. exact Hvalid. }
    split; [exact Hnonneg|]. rewrite Hunits.
    set (T := 2 ^ Z.pos k) in *.
    assert (HT : 0 < T) by (apply Z.pow_pos_nonneg; lia).
    assert (HW : 2 ^ (d - prec - emin prec emax) = T * U).
    { unfold T, U. rewrite <- Z.pow_add_r by lia. f_equal. lia. }
    rewrite HW.
    pose proof (Z.mul_div_le (Z.pos p) T HT) as Hflo.
    pose proof (Z.mul_succ_div_gt (Z.pos p) T HT) as Hfhi.
    set (F := Z.pos p / T) in *.
    assert (HF : P <= F).
    { unfold F. apply Z.div_le_lower_bound; [lia|].
      unfold T, P. rewrite <- Z.pow_add_r by lia.
      replace (Z.pos k + (prec - 1)) with (d - 1) by lia. exact Hlo. }
    set (W := T * U) in *.
    assert (HW0 : 0 < W) by (apply Z.mul_pos_pos; lia).
    assert (H1 : r' * W * P <= (F + 1) * W * P).
    { apply Z.mul_le_mono_nonneg_r; [lia|]. apply Z.mul_le_mono_nonneg_r; lia. }
    assert (H2 : F * W * (P + 1) <= r' * W * (P + 1)).
    { apply Z.mul_le_mono_nonneg_r; [lia|]. apply Z.mul_le_mono_nonneg_r; lia. }
    assert (H3 : P * W <= F * W) by (apply Z.mul_le_mono_nonneg_r; lia).
    assert (H5 : T * F * U * (P + 1) <= Z.pos p * U * (P + 1)).
    { apply Z.mul_le_mono_nonneg_r; [lia|]. apply Z.mul_le_mono_nonneg_r; lia. }
    assert (H6 : Z.pos p * U * P <= T * Z.succ F * U * P).
    { apply Z.mul_le_mono_nonneg_r; [lia|]. apply Z.mul_le_mono_nonneg_r; lia. }
    unfold W in *. split; lia.
  - (* fewer digits: the number itself *)
    assert (Hb : bounded prec emax (Pos.iter xO p k) (d - prec) = true).
    { unfold bounded, canonical_mantissa. apply andb_true_iff. split.
      - apply Z.eqb_eq.
        assert (Hdk : Z.pos (digits2_pos (Pos.iter xO p k)) = prec).
        { change (Z.pos (digits2_pos (Pos.iter xO p k)))
            with (Zdigits2 (Z.pos (Pos.iter xO p k))).
          apply Zdigits2_unique; [lia|]. rewrite iter_xO_pow.
          assert (Hk : 0 < 2 ^ Z.pos k) by (apply Z.pow_pos_nonneg; lia).
          assert (E1 : 2 ^ (prec - 1) = 2 ^ (d - 1) * 2 ^ Z.pos k).
          { rewrite <- Z.pow_add_r by lia. f_equal. lia. }
          assert (E2 : 2 ^ prec = 2 ^ d * 2 ^ Z.pos k).
          { rewrite <- Z.pow_add_r by lia. f_equal. lia. }
          rewrite E1, E2. split.
          - apply Z.mul_le_mono_nonneg_r; lia.
          - apply Z.mul_lt_mono_pos_r; lia. }
        rewrite Hdk. unfold fexp, emin. lia.
      - apply Z.leb_le. lia. }
    rewrite (round_aux_exact prec emax false _ _ Hb).
    cbn [nonneg units]. split; [exact Hb|].
    rewrite iter_xO_pow.
    assert (HE : Z.pos p * 2 ^ Z.pos k * 2 ^ (d - prec - emin prec emax)
                 = Z.pos p * U).
    { unfold U. rewrite <- Z.mul_assoc, <- Z.pow_add_r by (unfold emin; lia).
      f_equal. f_equal. lia. }
    rewrite HE.
    assert (H0 : 0 <= Z.pos p * U) by (apply Z.mul_nonneg_nonneg; lia).
    assert (H1 : Z.pos p * U * P <= Z.pos p * U * (P + 1))
      by (apply Z.mul_le_mono_nonneg_l; lia).
    split; lia.
Qed.

(** The truncation of a number that is not negative: its whole units. *)
Lemma trunc_units x :
  nonneg prec emax x = true ->
  trunc x = Some (units (emin prec emax) x / 2 ^ (- emin prec emax)).
Proof.
  assert (Hneg : emin prec emax < 0) by (unfold emin; lia).
  destruct x as [s|s| |[|] m e]; try discriminate; intros Hx; cbn [trunc units].
  - rewrite Z.div_0_l by (apply Z.pow_nonzero; lia). reflexivity.
  - cbn [nonneg] in Hx. destruct (bounded_range prec emax m e Hx) as (He & _).
    f_equal. destruct (Z.leb_spec 0 e).
    + replace (e - emin prec emax) with (e + - emin prec emax) by lia.
      rewrite Z.pow_add_r by lia. rewrite Z.mul_assoc, Z.div_mul; [reflexivity|].
      apply Z.pow_nonzero; lia.
    + replace (- emin prec emax) with (- e + (e - emin prec emax)) by lia.
      rewrite Z.pow_add_r by lia.
      rewrite Z.div_mul_cancel_r; [reflexivity| |]; apply Z.pow_nonzero; lia.
Qed.
End IntegerUnits.

Lemma cast_unsigned_units prec emax x z :
  1 < prec -> prec < emax ->
  nonneg prec emax x = true -> cast_unsigned x = Ok z ->
  z = units (emin prec emax) x / 2 ^ (- emin prec emax).
Proof.
  intros Hprec Hemax Hx H. unfold cast_unsigned in H.
  rewrite (trunc_units prec emax Hprec Hemax x Hx) in H.
  destruct (_ && _); [|discriminate]. injection H as <-. reflexivity.
Qed.

(** A chunk of the normalizer (a hundredth of the rate, in binary32) is
    never longer than a chunk of the segmenter (a twentieth, in
    binary64). *)
Lemma chunk_sizes_ordered f n s :
  0 <= f < 2 ^ 32 ->
  cast_unsigned (F32.mul (F32.of_Z f) c_0_01f) = Ok n ->
  cast_unsigned (F64.mul (F64.of_Z f) c_0_05) = Ok s ->
  n <= s.
Proof.
  intros Hf Hn Hs.
  destruct (Z.eq_dec f 0) as [->|Hnz].
  { vm_compute in Hn, Hs. injection Hn as <-. injection Hs as <-. lia. }
  assert (Hd : Zdigits2 f <= 32) by (apply Zdigits2_le; lia).
  assert (H24 : 1 < 24) by lia. assert (H128 : 24 < 128) by lia.
  assert (H53 : 1 < 53) by lia. assert (H1024 : 53 < 1024) by lia.
  (* the binary32 side, from above *)
  destruct (of_Z_units 24 128 H24 H128 f ltac:(lia) ltac:(lia)) as (Ha & Haup & _).
  change (binary_normalize 24 128 f 0 false) with (F32.of_Z f) in Ha, Haup.
  change (emin 24 128) with (-149) in Haup.
  destruct (mul_units 24 128 H24 H128 (F32.of_Z f) c_0_01f 40 Ha eq_refl
              ltac:(lia) ltac:(lia)) as (Hy & Hyup & _).
  { change (emin 24 128) with (-149).
    change (units (-149) c_0_01f) with (10737418 * 2 ^ 119). lia. }
  change (SFmul 24 128 (F32.of_Z f) c_0_01f) with (F32.mul (F32.of_Z f) c_0_01f) in Hy, Hyup.
  change (emin 24 128) with (-149) in Hyup.
  change (units (-149) c_0_01f) with (10737418 * 2 ^ 119) in Hyup.
  pose proof (cast_unsigned_units 24 128 _ _ H24 H128 Hy Hn) as En.
  change (emin 24 128) with (-149) in En.
  pose proof (Z.mul_div_le (units (-149) (F32.mul (F32.of_Z f) c_0_01f)) (2 ^ (- -149))
                ltac:(lia)) as Hnle.
  rewrite <- En in Hnle.
  (* the binary64 side, from below *)
  destruct (of_Z_units 53 1024 H53 H1024 f ltac:(lia) ltac:(lia)) as (Hb & _ & Hblo).
  change (binary_normalize 53 1024 f 0 false) with (F64.of_Z f) in Hb, Hblo.
  change (emin 53 1024) with (-1074) in Hblo.
  assert (Hbup : units (-1074) (F64.of_Z f) <= 2 ^ 33 * 2 ^ 1074).
  { destruct (of_Z_units 53 1024 H53 H1024 f ltac:(lia) ltac:(lia)) as (_ & Hup & _).
    change (binary_normalize 53 1024 f 0 false) with (F64.of_Z f) in Hup. change (emin 53 1024) with (-1074) in Hup. lia. }
  destruct (mul_units 53 1024 H53 H1024 (F64.of_Z f) c_0_05 40 Hb eq_refl
              ltac:(lia) ltac:(lia)) as (Hw & _ & Hwlo).
  { change (emin 53 1024) with (-1074).
    change (units (-1074) c_0_05) with (7205759403792794 * 2 ^ 1017). lia. }
  change (SFmul 53 1024 (F64.of_Z f) c_0_05) with (F64.mul (F64.of_Z f) c_0_05) in Hw, Hwlo.
  change (emin 53 1024) with (-1074) in Hwlo.
  change (units (-1074) c_0_05) with (7205759403792794 * 2 ^ 1017) in Hwlo.
  pose proof (cast_unsigned_units 53 1024 _ _ H53 H1024 Hw Hs) as Es.
  change (emin 53 1024) with (-1074) in Es.
  pose proof (Z.mul_succ_div_gt (units (-1074) (F64.mul (F64.of_Z f) c_0_05))
                (2 ^ (- -1074)) ltac:(lia)) as Hsgt.
  rewrite <- Es in Hsgt.
  pose proof (cast_unsigned_range _ _ Hs) as Hs0.
  set (X := units (-149) (F32.of_Z f)) in *.
  set (Y := units (-149) (F32.mul (F32.of_Z f) c_0_01f)) in *.
  set (X' := units (-1074) (F64.of_Z f)) in *.
  set (Y' := units (-1074) (F64.mul (F64.of_Z f) c_0_05)) in *.
  lia.
Qed.

(** ** From a full-scale input to the files *)

(** A sample of magnitude below one has a 16-bit value. *)
Lemma magnitude_below_one_written y :
  nonneg 24 128 (F32.abs y) = true -> units (-149) (F32.abs y) < 2 ^ 149 ->
  exists z, pcm_of_sample y = Ok z.
Proof.
  intros Hn Hu.
  destruct y as [s|s| |s m e]; try discriminate.
  - exists 0. destruct s; reflexivity.
  - cbn [F32.abs SFabs nonneg units] in Hn, Hu. unfold F32.abs in Hn, Hu.
    cbn [SFabs nonneg units] in Hn, Hu.
    apply (encoder_domain_finite s m e Hn).
    destruct (bounded_range 24 128 m e Hn) as (He & Hm & Hnorm).
    change (emin 24 128) with (-149) in He, Hnorm.
    assert (Hlow : e < -23).
    { destruct (Z.lt_ge_cases e (-23)) as [|Hge]; [assumption|exfalso].
      specialize (Hnorm ltac:(lia)).
      assert (H1 : 2 ^ 126 <= 2 ^ (e - -149)) by (apply pow2_le; lia).
      assert (H2 : 2 ^ (24 - 1) * 2 ^ 126 <= Z.pos m * 2 ^ (e - -149)).
      { apply Z.mul_le_mono_nonneg; lia. }
      lia. }
    destruct s.
    + split; [reflexivity|].
      unfold F32.ltb, SFltb, below_minus_one. cbn [SFcompare].
      destruct (Z.compare_spec (-23) e); first [lia|reflexivity].
    + split; [|reflexivity].
      unfold F32.ltb, SFltb, c_1f. cbn [SFcompare].
      destruct (Z.compare_spec e (-23)); first [lia|reflexivity].
Qed.

Lemma pcm_loop_defined data start n i :
  0 <= start + i -> start + i + Z.of_nat n <= Z.of_nat (length data) ->
  (forall (j : nat) x,
      start + i <= Z.of_nat j < start + i + Z.of_nat n ->
      data !! j = Some x -> exists z, pcm_of_sample x = Ok z) ->
  exists pcm, pcm_loop data start n i = Ok pcm /\ length pcm = n.
Proof.
  revert i. induction n as [|n IH]; intros i Hi Hn Hall.
  - exists []. split; reflexivity.
  - cbn [pcm_loop].
    destruct (vec_get_in_range data (start + i)) as (x & Ex & ->); [lia|]. cbn [obind].
    destruct (Hall (Z.to_nat (start + i)) x ltac:(lia) Ex) as (z & ->). cbn [obind].
    destruct (IH (i + 1)) as (pcm & -> & Hlen); [lia|lia| |].
    { intros j y Hj Ey. apply (Hall j y); [lia|exact Ey]. }
    exists (z :: pcm). split; [reflexivity|]. simpl. lia.
Qed.

Section WriteDefined.
Variable file_written : Z -> WAVInfo -> list Z -> bool.
Variables (wav' : Waveform) (spc sz rate : Z).
Hypothesis Hspc : 0 < spc.
Hypothesis Hsize : size wav' = sz.
Hypothesis Hsz : sz < 2 ^ 32.
Hypothesis Hrate : m_frequency wav' = rate.
Hypothesis Haccepts : forall seg_num samples,
  file_written seg_num
    {| m_rate := rate; m_channels := 1; m_bits := 16; m_is_float := false;
       m_sample_count := Z.of_nat (length samples) |} samples = true.
Hypothesis Hdefined : forall (j : nat) x,
  Z.of_nat j < (sz / spc - 1) * spc -> m_data wav' !! j = Some x ->
  exists z, pcm_of_sample x = Ok z.

Lemma grid_segment_is_written g seg_num :
  on_chunk_grid spc (sz / spc) g ->
  WriteToWAVFile file_written wav' seg_num (wrap32 (m_start g)) (wrap32 (m_count g))
  = Ok true.
Proof.
  intros (a & b & Hstart & Hcount & Ha & Hab & Hb).
  assert (Hdiv : sz / spc * spc <= sz).
  { rewrite Z.mul_comm. apply Z.mul_div_le. lia. }
  assert (Hs : 0 < m_start g).
  { rewrite Hstart. apply Z.mul_pos_pos; lia. }
  assert (Hc : 0 < m_count g).
  { rewrite Hcount. apply Z.mul_pos_pos; lia. }
  assert (Hend : m_start g + m_count g <= (sz / spc - 1) * spc).
  { rewrite Hstart, Hcount. replace (a * spc + (b - a) * spc) with (b * spc) by ring.
    apply Z.mul_le_mono_nonneg_r; lia. }
  assert (Hend' : m_start g + m_count g <= sz) by lia.
  unfold WriteToWAVFile.
  rewrite (wrap32_small (m_start g)), (wrap32_small (m_count g)) by lia.
  rewrite Hsize, Hrate.
  destruct (m_data wav') as [|y ys] eqn:E.
  { unfold size in Hsize. rewrite E in Hsize. simpl in Hsize. lia. }
  rewrite <- E in *.
  destruct (Z.leb_spec sz (m_start g)); [lia|].
  destruct (Z.eqb_spec (m_count g) 0); [lia|].
  rewrite (wrap32_small (m_start g + m_count g)) by lia.
  destruct (Z.ltb_spec sz (m_start g + m_count g)); [lia|].
  destruct (pcm_loop_defined (m_data wav') (m_start g) (Z.to_nat (m_count g)) 0)
    as (pcm & -> & Hlen); [lia|unfold size in Hsize; lia| |].
  { intros j x Hj Ex. apply (Hdefined j x); [lia|exact Ex]. }
  cbn [obind]. f_equal. unfold WAVFileWrite. cbn [m_sample_count m_bits].
  destruct (Z.eqb_spec (m_count g) 0); [lia|].
  cbn [Z.eqb negb andb].
  replace (m_count g) with (Z.of_nat (length pcm)) by lia. apply Haccepts.
Qed.

Lemma write_loop_is_written l seg_num :
  Forall (on_chunk_grid spc (sz / spc)) l ->
  write_loop file_written wav' l seg_num = Ok true.
Proof.
  intros Hall. revert seg_num. induction Hall as [|g l Hg _ IH]; intros seg_num.
  - reflexivity.
  - cbn [write_loop]. rewrite (grid_segment_is_written g _ Hg). cbn [obind]. apply IH.
Qed.
End WriteDefined.

Lemma at_most_0_999 v : F32.leb v c_0_999f = true -> F32.leb v c_1f = true.
Proof.
  unfold F32.leb, SFleb, c_0_999f, c_1f. intros H.
  destruct v as [s|[|]| |[|] m e]; try discriminate H; try reflexivity.
  cbn [SFcompare] in *.
  destruct (Z.compare_spec e (-24)), (Z.compare_spec e (-23));
    first [lia|reflexivity|discriminate H].
Qed.

(** X22.  A waveform of binary32 samples of magnitude at most one, cut
    and normalized to a target of at most 0.999, is written in full: the
    segments lie in whole chunks of the normalizer, whose samples come out
    below one, so every conversion to 16 bits is defined, and
    [write_audio_segments_to_wav_files] returns true when the file system
    accepts the files. *)
Theorem full_scale_input_is_written powf file_written wav db_level l wav' :
  0 <= m_frequency wav < 2 ^ 32 ->
  F32.valid (db_to_linear powf db_level) = true ->
  F32.leb c_lowest_target (db_to_linear powf db_level) = true ->
  F32.leb (db_to_linear powf db_level) c_0_999f = true ->
  Forall (fun x => F32.valid x = true /\ F32.leb (F32.abs x) c_1f = true) (m_data wav) ->
  FindSegmentsInAudioWaveform powf wav = Ok l -> l <> [] ->
  NormalizeAudioWaveform powf wav db_level = Ok wav' ->
  (forall seg_num samples,
      file_written seg_num
        {| m_rate := m_frequency wav; m_channels := 1; m_bits := 16;
           m_is_float := false; m_sample_count := Z.of_nat (length samples) |}
        samples = true) ->
  write_audio_segments_to_wav_files file_written wav' l = Ok true.
Proof.
  intros Hf Hv Hlo Hhi Hdata Hseg Hne Hnorm Hfs.
  destruct (FindSegments_run powf wav l Hseg) as (spc & _ & _ & _ & Hc & _ & _ & _).
  destruct (FindSegments_grid powf wav spc l Hseg Hc) as (Hspc & Hsz & Hall).
  assert (Hsz0 : 0 <= size wav) by (unfold size; lia).
  assert (Hdiv : size wav / spc * spc <= size wav).
  { rewrite Z.mul_comm. apply Z.mul_div_le. lia. }
  (* the buffer holds at least six chunks *)
  assert (HN : 6 <= size wav / spc).
  { destruct l as [|g l]; [contradiction|].
    apply Forall_cons in Hall. destruct Hall as [(a & b & _ & _ & Ha & Hab & Hb) _]. lia. }
  assert (Hdata0 : m_data wav <> []).
  { intros E. unfold size in HN. rewrite E in HN. cbn in HN.
    rewrite Z.div_0_l in HN by lia. lia. }
  (* the chunk of the normalizer *)
  assert (Hn : exists n, normalize_samples_per_chunk wav = Ok n /\ 0 < n).
  { unfold NormalizeAudioWaveform in Hnorm.
    destruct (m_data wav) as [|x xs] eqn:E; [contradiction|].
    unfold normalize_to in Hnorm. inv_ok Hnorm.
    pose proof (cast_unsigned_range _ _ Ha) as Hr.
    destruct (Z.eqb_spec a 0); [discriminate|]. exists a. split; [exact Ha|lia]. }
  destruct Hn as (n & Hcn & Hn0).
  assert (Hns : n <= spc).
  { apply (chunk_sizes_ordered (m_frequency wav) n spc Hf); assumption. }
  (* what the pass keeps *)
  assert (Hframe : size wav' = size wav /\ m_frequency wav' = m_frequency wav).
  { destruct (pipeline_grid powf wav db_level l wav' Hseg Hnorm)
      as (_ & _ & H1 & _ & H2 & _). split; assumption. }
  destruct Hframe as [Hsize Hrate].
  (* the target, strictly below one *)
  pose proof (at_most_0_999 _ Hhi) as Hhi1.
  destruct (target_in_range _ Hv Hlo Hhi1) as (Hnv & HV).
  assert (HV9 : units (-149) (db_to_linear powf db_level) <= units (-149) c_0_999f).
  { unfold F32.leb in Hhi.
    rewrite (nonneg_leb 24 128 ltac:(lia) _ c_0_999f Hnv eq_refl) in Hhi.
    apply Z.leb_le in Hhi. exact Hhi. }
  change (units (-149) c_0_999f) with (16760439 * 2 ^ 125) in HV9.
  (* every sample of a segment has a 16-bit value *)
  assert (Hdefined : forall (j : nat) x,
            Z.of_nat j < (size wav / spc - 1) * spc -> m_data wav' !! j = Some x ->
            exists z, pcm_of_sample x = Ok z).
  { intros j x Hj Ex.
    assert (Hjn : Z.of_nat j < size wav / n * n).
    { pose proof (Z.mul_succ_div_gt (size wav) n Hn0) as Hgt.
      rewrite Z.mul_comm in Hgt.
      replace ((size wav / spc - 1) * spc) with (size wav / spc * spc - spc) in Hj by ring.
      lia. }
    destruct (whole_chunk_units powf wav db_level n wav' Hv Hlo Hhi1 Hdata Hcn Hn0 Hsz Hnorm
                j x Hjn Ex) as (Ha & HA).
    apply magnitude_below_one_written; [exact Ha|]. lia. }
  unfold write_audio_segments_to_wav_files.
  destruct (m_data wav') as [|y ys] eqn:E.
  { exfalso. unfold size in Hsize at 1. rewrite E in Hsize. cbn in Hsize.
    rewrite <- Hsize in HN. rewrite Z.div_0_l in HN by lia. lia. }
  rewrite <- E in *.
  destruct l as [|g l]; [contradiction|].
  apply (write_loop_is_written file_written wav' spc (size wav) (m_frequency wav)
           Hspc Hsize Hsz Hrate Hfs Hdefined (g :: l) 0 Hall).
Qed.

Lemma full_scale_input_is_written_witness :
  write_audio_segments_to_wav_files (fun _ _ _ => true)
    {| m_frequency := 100; m_data := replicate 65 (S754_finite false 13421773 (-27)) |}
    [ {| m_start := 5; m_count := 55 |} ] = Ok true.
Proof.
  apply (full_scale_input_is_written powf_reciprocal (fun _ _ _ => true) wav_steady
           c_minus_20f [ {| m_start := 5; m_count := 55 |} ]
           {| m_frequency := 100;
              m_data := replicate 65 (S754_finite false 13421773 (-27)) |}).
  - cbn [m_frequency wav_steady]. lia.
  - vm_compute; reflexivity.
  - vm_compute; reflexivity.
  - vm_compute; reflexivity.
  - apply Forall_forall. intros y Hy. apply elem_of_replicate in Hy.
    destruct Hy as [-> _]. split; reflexivity.
  - vm_compute; reflexivity.
  - discriminate.
  - vm_compute; reflexivity.
  - intros seg_num samples. reflexivity.
Defined.
